(** * trackvisualizer: GPX statistics and normalisation, photo batches, styles

    A shallow embedding of

    - [calculateDistance], [calculateTrackStats] and [parseGPXString]
      (the GPX parser module),
    - [validateFiles] and [handleFiles] (the photo uploader component),
    - [addMultiplePhotos] (the photo hook) and [extractPhotoMetadata]
      (lib/exif-parser.ts),
    - [updateTrackStyle] (hooks/use-tracks.ts),

    followed by the properties established about them.

    Interpretation of the data.  Coordinates, elevations and the sums over
    them are read as real numbers; the values that the code itself makes of
    them outside the reals are kept as the constructors of [number]:
    [Infinity] and [-Infinity] (the initial running minimum and maximum) and
    [NaN] (the time value of an invalid Date).  Rounding is outside this
    reading; where it changes what [calculateDistance] returns, module
    [Binary64] keeps that function in IEEE binary64 arithmetic.  A [Date] is
    its time value ([getTime()], integer milliseconds) or the invalid Date.
    An optional field [x?: T] is an [option T]; an [ele] field holds what is
    found there at run time, which may also be [null]. *)

From Stdlib Require Import Reals Lra Lia ZArith List String Ascii Bool.
From Stdlib Require Import DecimalString Floats.
Import ListNotations.

Local Open Scope R_scope.

(* ================================================================== *)
(** ** The host's [Math] object, on real numbers *)

(** A [number]: a real, one of the two infinities, or NaN. *)
Inductive number : Type :=
| NaN
| NegInfinity
| Num (r : R)
| Infinity.

Module Math.

Definition PI : R := Rtrigo1.PI.
Definition sin (x : R) : R := Rtrigo_def.sin x.
Definition cos (x : R) : R := Rtrigo_def.cos x.
(** The square root of a real number that is not negative.  On a negative
    number [Math.sqrt] is NaN: computed exactly, the two arguments that
    [calculateDistance] passes are never negative ([haversineA_range]
    below); computed in binary64 the second one can be, see
    [Binary64.calculateDistance]. *)
Definition sqrt (x : R) : R := R_sqrt.sqrt x.
Definition abs (x : R) : R := Rabs x.

(** [Math.atan2(y, x)]: the angle of the point [(x, y)], in [(-PI, PI]]. *)
Definition atan2 (y x : R) : R :=
  if Rlt_dec 0 x then atan (y / x)
  else if Rlt_dec x 0 then
    if Rle_dec 0 y then atan (y / x) + Rtrigo1.PI
    else atan (y / x) - Rtrigo1.PI
  else if Rlt_dec 0 y then Rtrigo1.PI / 2
  else if Rlt_dec y 0 then - (Rtrigo1.PI / 2)
  else 0.

(** [Math.min] and [Math.max]: NaN as soon as an argument is. *)
Definition min (a b : number) : number :=
  match a, b with
  | NaN, _ | _, NaN => NaN
  | NegInfinity, _ | _, NegInfinity => NegInfinity
  | Infinity, y => y
  | x, Infinity => x
  | Num x, Num y => Num (Rmin x y)
  end.

Definition max (a b : number) : number :=
  match a, b with
  | NaN, _ | _, NaN => NaN
  | Infinity, _ | _, Infinity => Infinity
  | NegInfinity, y => y
  | x, NegInfinity => x
  | Num x, Num y => Num (Rmax x y)
  end.

End Math.

(** [a - b] and [a / d] for a positive real [d]. *)
Definition number_minus (a b : number) : number :=
  match a, b with
  | NaN, _ | _, NaN => NaN
  | Num x, Num y => Num (x - y)
  | Infinity, Infinity | NegInfinity, NegInfinity => NaN
  | Infinity, _ | _, NegInfinity => Infinity
  | NegInfinity, _ | _, Infinity => NegInfinity
  end.

Definition number_over (a : number) (d : R) : number :=
  match a with
  | Num x => Num (x / d)
  | other => other
  end.

(** [a <= b] on numbers: false as soon as one of them is NaN. *)
Definition number_le (a b : number) : Prop :=
  match a, b with
  | NaN, _ | _, NaN => False
  | NegInfinity, _ => True
  | _, Infinity => True
  | Num x, Num y => x <= y
  | _, _ => False
  end.

(* ================================================================== *)
(** ** Data model (types/track) *)

(** A [Date]: its time value in milliseconds, or the invalid Date that
    [new Date(text)] makes of a text it cannot read, and [new Date(date)] of
    an invalid Date. *)
Inductive Date : Type :=
| InvalidDate
| DateAt (ms : Z).

(** [date.getTime()]: NaN for the invalid Date. *)
Definition getTime (date : Date) : number :=
  match date with
  | DateAt ms => Num (IZR ms)
  | InvalidDate => NaN
  end.

(** [a < b] and [a > b] on Dates compare the time values, and a comparison
    with NaN is false. *)
Definition Date_lt (a b : Date) : bool :=
  match a, b with
  | DateAt x, DateAt y => (x <? y)%Z
  | _, _ => false
  end.

Definition Date_gt (a b : Date) : bool := Date_lt b a.

(** What an [ele] field holds at run time.  The interfaces declare
    [ele?: number], a number or [undefined].  The GPX parser library, which
    "doesn't have proper TypeScript definitions" (line 27), stores [null] for
    a point without an <ele> element, and lines 76, 112 and 142 copy what it
    stores. *)
Inductive Elevation : Type :=
| undefined
| null
| Ele (e : R).

(** How [calculateTrackStats] reads an [ele] field: [x !== undefined] is all
    it tests, and [Math.min], [Math.max] and [-] then take [null] for 0. *)
Definition elevationOf (e : Elevation) : option R :=
  match e with
  | undefined => None
  | null => Some 0
  | Ele e => Some e
  end.

(** [TrackPoint], [TrackSegment] and [TrackStats] (types/track). *)
Record TrackPoint : Type := mkTrackPoint {
  lat : R;
  lon : R;
  ele : Elevation;
  time : option Date
}.

Record TrackSegment : Type := mkTrackSegment {
  points : list TrackPoint
}.

Record TrackStats : Type := mkTrackStats {
  distance : R;
  elevationGain : R;
  elevationLoss : R;
  minElevation : number;
  maxElevation : number;
  duration : option number
}.

(* ================================================================== *)
(** ** [calculateDistance] *)

Definition calculateDistance (lat1 lon1 lat2 lon2 : R) : R :=
  let R := 6371000 in
  let φ1 := lat1 * Math.PI / 180 in
  let φ2 := lat2 * Math.PI / 180 in
  let Δφ := (lat2 - lat1) * Math.PI / 180 in
  let Δλ := (lon2 - lon1) * Math.PI / 180 in
  let a := Math.sin (Δφ / 2) * Math.sin (Δφ / 2) +
           Math.cos φ1 * Math.cos φ2 *
           Math.sin (Δλ / 2) * Math.sin (Δλ / 2) in
  let c := 2 * Math.atan2 (Math.sqrt a) (Math.sqrt (1 - a)) in
  R * c.

(* ================================================================== *)
(** ** [calculateDistance] in binary64 *)

(** The same function on IEEE binary64 numbers, as JavaScript computes it:
    [*], [/], [+], [-] and [Math.sqrt] are the correctly rounded operations
    of the format; [Math.sin], [Math.cos] and [Math.atan2], which the
    language leaves to the host, are parameters. *)
Module Binary64.

Definition PI : float := 0x1.921fb54442d18p+1%float.

Section Host.

Variable sin cos : float -> float.
Variable atan2 : float -> float -> float.

(** The variable [a]. *)
Definition haversineA (lat1 lon1 lat2 lon2 : float) : float :=
  let φ1 := (lat1 * PI / 180)%float in
  let φ2 := (lat2 * PI / 180)%float in
  let Δφ := ((lat2 - lat1) * PI / 180)%float in
  let Δλ := ((lon2 - lon1) * PI / 180)%float in
  (sin (Δφ / 2) * sin (Δφ / 2) +
   cos φ1 * cos φ2 *
   sin (Δλ / 2) * sin (Δλ / 2))%float.

Definition calculateDistance (lat1 lon1 lat2 lon2 : float) : float :=
  let R := 6371000%float in
  let a := haversineA lat1 lon1 lat2 lon2 in
  let c := (2 * atan2 (PrimFloat.sqrt a) (PrimFloat.sqrt (1 - a)))%float in
  (R * c)%float.

(** What [calculateTrackStats] does to [totalDistance] (lines 172,
    180-183 and 198-205), the points given by their coordinates
    [(lat, lon)]: within each segment every point after the first adds
    its distance from the point before it. *)
Fixpoint walkDistance (prev : option (float * float))
  (pts : list (float * float)) (totalDistance : float) : float :=
  match pts with
  | [] => totalDistance
  | point :: rest =>
      let totalDistance :=
        match prev with
        | Some prevPoint =>
            (totalDistance
             + calculateDistance (fst prevPoint) (snd prevPoint)
                                 (fst point) (snd point))%float
        | None => totalDistance
        end in
      walkDistance (Some point) rest totalDistance
  end.

Definition totalDistance (segments : list (list (float * float)))
  : float :=
  fold_left (fun totalDistance segment =>
               walkDistance None segment totalDistance)
            segments 0%float.

End Host.

(** [x >= 0] or [x] is NaN; and the same read off the specification of
    the number. *)
Definition notNegative (x : float) : bool :=
  is_nan x || (0 <=? x)%float.

Definition specNotNegative (x : spec_float) : bool :=
  match x with
  | S754_nan => true
  | S754_zero _ => true
  | S754_infinity s => negb s
  | S754_finite s _ _ => negb s
  end.

End Binary64.

(* ================================================================== *)
(** ** [calculateTrackStats] *)

(** The [let] variables of [calculateTrackStats]. *)
Module Locals.
Record t : Type := mk {
  totalDistance : R;
  elevationGain : R;
  elevationLoss : R;
  minElevation : number;
  maxElevation : number;
  startTime : option Date;
  endTime : option Date
}.

(** Assignment to one variable. *)
Definition set_totalDistance (v : R) (s : t) : t :=
  mk v (elevationGain s) (elevationLoss s) (minElevation s) (maxElevation s)
     (startTime s) (endTime s).
Definition set_elevationGain (v : R) (s : t) : t :=
  mk (totalDistance s) v (elevationLoss s) (minElevation s) (maxElevation s)
     (startTime s) (endTime s).
Definition set_elevationLoss (v : R) (s : t) : t :=
  mk (totalDistance s) (elevationGain s) v (minElevation s) (maxElevation s)
     (startTime s) (endTime s).
Definition set_minElevation (v : number) (s : t) : t :=
  mk (totalDistance s) (elevationGain s) (elevationLoss s) v (maxElevation s)
     (startTime s) (endTime s).
Definition set_maxElevation (v : number) (s : t) : t :=
  mk (totalDistance s) (elevationGain s) (elevationLoss s) (minElevation s) v
     (startTime s) (endTime s).
Definition set_startTime (v : option Date) (s : t) : t :=
  mk (totalDistance s) (elevationGain s) (elevationLoss s) (minElevation s)
     (maxElevation s) v (endTime s).
Definition set_endTime (v : option Date) (s : t) : t :=
  mk (totalDistance s) (elevationGain s) (elevationLoss s) (minElevation s)
     (maxElevation s) (startTime s) v.
End Locals.

Definition initialLocals : Locals.t :=
  {| Locals.totalDistance := 0;
     Locals.elevationGain := 0;
     Locals.elevationLoss := 0;
     Locals.minElevation := Infinity;
     Locals.maxElevation := NegInfinity;
     Locals.startTime := None;
     Locals.endTime := None |}.


(** [if (point.ele !== undefined) { ... }] *)
Definition seeElevation (point : TrackPoint) (s : Locals.t) : Locals.t :=
  match elevationOf (ele point) with
  | Some e =>
      let s := Locals.set_minElevation
                 (Math.min (Locals.minElevation s) (Num e)) s in
      Locals.set_maxElevation (Math.max (Locals.maxElevation s) (Num e)) s
  | None => s
  end.

(** [if (point.time) { ... }]: a Date object is always truthy, the invalid
    Date too. *)
Definition seeTime (point : TrackPoint) (s : Locals.t) : Locals.t :=
  match time point with
  | Some t =>
      let s := match Locals.startTime s with
               | None => Locals.set_startTime (Some t) s
               | Some t0 =>
                   if Date_lt t t0 then Locals.set_startTime (Some t) s else s
               end in
      match Locals.endTime s with
      | None => Locals.set_endTime (Some t) s
      | Some t1 =>
          if Date_gt t t1 then Locals.set_endTime (Some t) s else s
      end
  | None => s
  end.

(** The body of [if (i > 0) { ... }], given [prevPoint]. *)
Definition seePair (prevPoint point : TrackPoint) (s : Locals.t) : Locals.t :=
  let distance := calculateDistance (lat prevPoint) (lon prevPoint)
                                    (lat point) (lon point) in
  let s := Locals.set_totalDistance (Locals.totalDistance s + distance) s in
  match elevationOf (ele point), elevationOf (ele prevPoint) with
  | Some e, Some pe =>
      let elevDiff := e - pe in
      if Rgt_dec elevDiff 0
      then Locals.set_elevationGain (Locals.elevationGain s + elevDiff) s
      else Locals.set_elevationLoss
             (Locals.elevationLoss s + Math.abs elevDiff) s
  | _, _ => s
  end.

(** One turn of [for (let i = 0; i < segment.points.length; i++)]. *)
Definition loopBody (pts : list TrackPoint) (s : Locals.t) (i : nat)
  : Locals.t :=
  match nth_error pts i with
  | None => s
  | Some point =>
      let s := seeElevation point s in
      let s := seeTime point s in
      if (0 <? i)%nat then
        match nth_error pts (i - 1) with
        | Some prevPoint => seePair prevPoint point s
        | None => s
        end
      else s
  end.

(** The callback of [segments.forEach]. *)
Definition forSegment (s : Locals.t) (segment : TrackSegment) : Locals.t :=
  fold_left (loopBody (points segment))
            (seq 0 (List.length (points segment))) s.

Definition calculateTrackStats (segments : list TrackSegment) : TrackStats :=
  let s := fold_left forSegment segments initialLocals in
  let duration :=
    match Locals.startTime s, Locals.endTime s with
    | Some t0, Some t1 =>
        Some (number_over (number_minus (getTime t1) (getTime t0)) 1000)
    | _, _ => None
    end in
  {| distance := Locals.totalDistance s;
     elevationGain := Locals.elevationGain s;
     elevationLoss := Locals.elevationLoss s;
     minElevation := match Locals.minElevation s with
                     | Infinity => Num 0
                     | m => m
                     end;
     maxElevation := match Locals.maxElevation s with
                     | NegInfinity => Num 0
                     | m => m
                     end;
     duration := duration |}.

(* ================================================================== *)
(** ** Strings, as JavaScript treats them here *)

Local Open Scope string_scope.
Local Open Scope list_scope.

(** Truthiness of a string that may be [undefined]: the empty string is
    falsy, as [undefined] is. *)
Definition truthy (s : option string) : option string :=
  match s with
  | Some "" => None
  | Some s => Some s
  | None => None
  end.

(** [a || b] where [a] is an optional string. *)
Definition orElse (a : option string) (b : string) : string :=
  match truthy a with
  | Some s => s
  | None => b
  end.

(** A non-negative integer inside a template literal. *)
Definition decimal (n : N) : string := NilZero.string_of_uint (N.to_uint n).

(* ================================================================== *)
(** ** Tracks *)

Inductive LineStyle : Type := solid | dashed | dotted.

(** [TrackStyle] and [Track] (types/track). *)
Record TrackStyle : Type := mkTrackStyle {
  color : string;
  width : R;
  opacity : R;
  lineStyle : LineStyle
}.

Record Track : Type := mkTrack {
  id : string;
  name : string;
  segments : list TrackSegment;
  style : TrackStyle;
  visible : bool;
  stats : option TrackStats
}.

Definition DEFAULT_STYLE : TrackStyle :=
  {| color := "#E53E3E"; width := 3%R; opacity := 1%R; lineStyle := solid |}.

(* ================================================================== *)
(** ** The parsed GPX document (interfaces of the GPX parser module) *)

(** [time] is declared a string; [new Date] (line 77) takes the text, or the
    Date that the parser library has made of it, to a Date all the same. *)
Module GPXPoint.
Record t : Type := mk {
  lat : R;
  lon : R;
  ele : Elevation;
  time : option string
}.
End GPXPoint.

Module GPXTrack.
Record t : Type := mk {
  name : option string;
  points : list GPXPoint.t
}.
End GPXTrack.

Module GPXRoute.
Record t : Type := mk {
  name : option string;
  points : list GPXPoint.t
}.
End GPXRoute.

Module GPXWaypoint.
Record t : Type := mk {
  lat : R;
  lon : R;
  ele : Elevation;
  name : option string
}.
End GPXWaypoint.

Module GPXParserInstance.
Record t : Type := mk {
  tracks : option (list GPXTrack.t);
  routes : option (list GPXRoute.t);
  waypoints : option (list GPXWaypoint.t)
}.
End GPXParserInstance.

(** A call either returns or throws [new Error(message)]. *)
Inductive Result (A : Type) : Type :=
| Return (a : A)
| Throw (message : string).
Arguments Return {A} a.
Arguments Throw {A} message.

(** [array.forEach((x, index) => ...)], the accumulated effect threaded. *)
Fixpoint forEachFrom {A St : Type} (index : nat) (f : St -> A -> nat -> St)
  (l : list A) (s : St) : St :=
  match l with
  | [] => s
  | x :: rest => forEachFrom (S index) f rest (f s x index)
  end.

Definition forEach {A St : Type} (f : St -> A -> nat -> St) (l : list A)
  (s : St) : St :=
  forEachFrom 0 f l s.

(** [segments[k].points.push(trackPoint)]; [k] is in range wherever the
    source does this (outside, JavaScript would throw a TypeError). *)
Fixpoint pushPoint (k : nat) (trackPoint : TrackPoint)
  (segments : list TrackSegment) : list TrackSegment :=
  match segments, k with
  | [], _ => []
  | seg :: rest, O => {| points := points seg ++ [trackPoint] |} :: rest
  | seg :: rest, S k' => seg :: pushPoint k' trackPoint rest
  end.

(** [array.map((x, index) => ...)] *)
Fixpoint mapiFrom {A B : Type} (index : nat) (f : nat -> A -> B) (l : list A)
  : list B :=
  match l with
  | [] => []
  | x :: rest => f index x :: mapiFrom (S index) f rest
  end.

(** An optional array, [undefined] read as empty. *)
Definition orEmpty {A : Type} (l : option (list A)) : list A :=
  match l with
  | Some l => l
  | None => []
  end.

Section Normalizer.

(** [new Date(text)], the host's date parser. *)
Variable newDate : string -> Date.

(** [Date.now()]: the reading at each call, the calls numbered from 0. *)
Variable dateNow : nat -> N.

(** The point of a source track (lines 73-78). *)
Definition trackPointOfTrack (point : GPXPoint.t) : TrackPoint :=
  {| lat := GPXPoint.lat point;
     lon := GPXPoint.lon point;
     ele := GPXPoint.ele point;
     time := match truthy (GPXPoint.time point) with
             | Some text => Some (newDate text)
             | None => None
             end |}.

(** The point of a route (lines 109-113): no time is copied. *)
Definition trackPointOfRoute (point : GPXPoint.t) : TrackPoint :=
  {| lat := GPXPoint.lat point;
     lon := GPXPoint.lon point;
     ele := GPXPoint.ele point;
     time := None |}.

(** The point of a waypoint (lines 139-143). *)
Definition trackPointOfWaypoint (waypoint : GPXWaypoint.t) : TrackPoint :=
  {| lat := GPXWaypoint.lat waypoint;
     lon := GPXWaypoint.lon waypoint;
     ele := GPXWaypoint.ele waypoint;
     time := None |}.

(** The callback of [gpxTrack.points.forEach] (lines 72-84). *)
Definition addTrackPoint (segments : list TrackSegment) (point : GPXPoint.t)
  (_ : nat) : list TrackSegment :=
  let trackPoint := trackPointOfTrack point in
  let segments :=
    if (List.length segments =? 0)%nat
    then segments ++ [{| points := [] |}]
    else segments in
  pushPoint (List.length segments - 1) trackPoint segments.

(** The object pushed for a source track (lines 88-100), [now] being the
    reading of [Date.now()]. *)
Definition trackOfTrack (fileName : option string) (now : N)
  (gpxTrack : GPXTrack.t) (trackIndex : nat) : Track :=
  let segments := forEach addTrackPoint (GPXTrack.points gpxTrack) [] in
  let stats := calculateTrackStats segments in
  {| id := "track-" ++ decimal now ++ "-" ++ decimal (N.of_nat trackIndex);
     name := orElse (GPXTrack.name gpxTrack)
               (orElse fileName
                  ("Track " ++ decimal (N.of_nat (trackIndex + 1))));
     segments := segments;
     style := DEFAULT_STYLE;
     visible := true;
     stats := Some stats |}.

(** The object pushed for a route (lines 106-131). *)
Definition trackOfRoute (now : N) (route : GPXRoute.t) (routeIndex : nat)
  : Track :=
  let segments :=
    forEach (fun segments point _ =>
               pushPoint 0 (trackPointOfRoute point) segments)
            (GPXRoute.points route) [{| points := [] |}] in
  let stats := calculateTrackStats segments in
  {| id := "route-" ++ decimal now ++ "-" ++ decimal (N.of_nat routeIndex);
     name := orElse (GPXRoute.name route)
               ("Route " ++ decimal (N.of_nat (routeIndex + 1)));
     segments := segments;
     style := DEFAULT_STYLE;
     visible := true;
     stats := Some stats |}.

(** The object pushed for the waypoints (lines 136-161). *)
Definition trackOfWaypoints (fileName : option string) (now : N)
  (waypoints : list GPXWaypoint.t) : Track :=
  let segments :=
    forEach (fun segments waypoint _ =>
               pushPoint 0 (trackPointOfWaypoint waypoint) segments)
            waypoints [{| points := [] |}] in
  let stats := calculateTrackStats segments in
  {| id := "waypoints-" ++ decimal now;
     name := orElse fileName "Waypoints";
     segments := segments;
     style := DEFAULT_STYLE;
     visible := true;
     stats := Some stats |}.

(** The callbacks of [gpx.tracks.forEach] and [gpx.routes.forEach], and
    the waypoint branch: each [tracks.push].  Every Track pushed so far
    took one reading of the clock. *)
Definition addTrack (fileName : option string) (tracks : list Track)
  (gpxTrack : GPXTrack.t) (trackIndex : nat) : list Track :=
  tracks ++
  [trackOfTrack fileName (dateNow (List.length tracks)) gpxTrack trackIndex].

Definition addRoute (tracks : list Track) (route : GPXRoute.t)
  (routeIndex : nat) : list Track :=
  tracks ++ [trackOfRoute (dateNow (List.length tracks)) route routeIndex].

Definition addWaypoints (fileName : option string) (tracks : list Track)
  (waypoints : list GPXWaypoint.t) : list Track :=
  tracks ++
  [trackOfWaypoints fileName (dateNow (List.length tracks)) waypoints].

Definition NoGeometryFound : string :=
  "No tracks, routes, or waypoints found in GPX file".

(** [parseGPXString] from [const tracks: Track[] = []] on (lines 66-168),
    [gpx] being the parser instance after [gpx.parse(gpxText)]. *)
Definition normalize (gpx : GPXParserInstance.t) (fileName : option string)
  : Result (list Track) :=
  let tracks : list Track := [] in
  let tracks :=
    match GPXParserInstance.tracks gpx with
    | Some ((_ :: _) as gpxTracks) =>
        forEach (addTrack fileName) gpxTracks tracks
    | _ => tracks
    end in
  let tracks :=
    match GPXParserInstance.routes gpx with
    | Some ((_ :: _) as gpxRoutes) => forEach addRoute gpxRoutes tracks
    | _ => tracks
    end in
  let tracks :=
    match GPXParserInstance.waypoints gpx with
    | Some ((_ :: _) as gpxWaypoints) =>
        if (List.length tracks =? 0)%nat
        then addWaypoints fileName tracks gpxWaypoints
        else tracks
    | _ => tracks
    end in
  if (List.length tracks =? 0)%nat
  then Throw NoGeometryFound
  else Return tracks.

(** [parseGPXString]: [GPXParser] is the library's constructor followed by
    [parse], or [None] where no [window] exists. *)
Definition parseGPXString
  (GPXParser : option (string -> GPXParserInstance.t))
  (gpxText : string) (fileName : option string) : Result (list Track) :=
  match GPXParser with
  | None => Throw "GPX Parser not available"
  | Some parse => normalize (parse gpxText) fileName
  end.

(** The three groups of Tracks that a document gives rise to, written
    out as lists ([normalize_eq] below shows that [normalize] returns them
    end to end). *)
Definition emittedTracks (fileName : option string)
  (gpx : GPXParserInstance.t) : list Track :=
  mapiFrom 0 (fun j gpxTrack =>
                trackOfTrack fileName (dateNow j) gpxTrack j)
           (orEmpty (GPXParserInstance.tracks gpx)).

Definition emittedRoutes (gpx : GPXParserInstance.t) : list Track :=
  let n := List.length (orEmpty (GPXParserInstance.tracks gpx)) in
  mapiFrom 0 (fun j route => trackOfRoute (dateNow (n + j)) route j)
           (orEmpty (GPXParserInstance.routes gpx)).

Definition emittedWaypoints (fileName : option string)
  (gpx : GPXParserInstance.t) : list Track :=
  match orEmpty (GPXParserInstance.waypoints gpx) with
  | [] => []
  | (_ :: _) as waypoints =>
      match orEmpty (GPXParserInstance.tracks gpx),
            orEmpty (GPXParserInstance.routes gpx) with
      | [], [] => [trackOfWaypoints fileName (dateNow 0) waypoints]
      | _, _ => []
      end
  end.

End Normalizer.

(* ================================================================== *)
(** ** Photos: [validateFiles] (photo uploader) and [addMultiplePhotos] *)

(** What the code reads of a browser [File]. *)
Module File.
Record t : Type := mk {
  name : string;
  size : N;
  type : string
}.
End File.

(** [PhotoLocation], [PhotoMetadata] and [Photo] (types/photo); a location
    that is [null] is [None]. *)
Module PhotoLocation.
Record t : Type := mk {
  lat : R;
  lon : R
}.
End PhotoLocation.

Record PhotoMetadata : Type := mkPhotoMetadata {
  location : option PhotoLocation.t;
  timestamp : option Date;
  camera : option string;
  orientation : option R
}.

Module Photo.
Record t : Type := mk {
  id : string;
  name : string;
  dataUrl : string;
  thumbnailUrl : option string;
  location : option PhotoLocation.t;
  timestamp : option Date;
  visible : bool;
  size : N
}.
End Photo.

Record Toast : Type := mkToast {
  title : string;
  description : string;
  variant : option string
}.

(** [s.toLowerCase()] for a name whose letters are ASCII: the letters A-Z
    are lowered and every other byte is kept.  (JavaScript lowers the other
    letters too; the accepted formats have none.) *)
Definition toLowerAscii (c : ascii) : ascii :=
  let n := nat_of_ascii c in
  if ((65 <=? n) && (n <=? 90))%nat then ascii_of_nat (n + 32) else c.

Fixpoint toLowerCase (s : string) : string :=
  match s with
  | EmptyString => EmptyString
  | String c rest => String (toLowerAscii c) (toLowerCase rest)
  end.

(** [s.split(sep)] for a one-character separator: never an empty array. *)
Fixpoint split (sep : ascii) (s : string) : list string :=
  match s with
  | EmptyString => [""]
  | String c rest =>
      if Ascii.eqb c sep then "" :: split sep rest
      else match split sep rest with
           | head :: tail => String c head :: tail
           | [] => [String c ""]
           end
  end.

(** [array.pop()], as the value returned: the last element, if any. *)
Fixpoint pop (l : list string) : option string :=
  match l with
  | [] => None
  | [x] => Some x
  | _ :: rest => pop rest
  end.

(** [`.${file.name.split('.').pop()?.toLowerCase()}`] *)
Definition fileExtensionOf (file : File.t) : string :=
  match pop (split "." (File.name file)) with
  | Some last => "." ++ toLowerCase last
  | None => ".undefined"
  end.

Definition includes (l : list string) (x : string) : bool :=
  existsb (String.eqb x) l.

Definition defaultAcceptedFormats : list string :=
  [".jpg"; ".jpeg"; ".png"; ".heic"; ".webp"].

(** [validateFiles] (photo uploader, lines 23-51): the files kept, and the
    toasts shown on the way. *)
Definition validateFile (acceptedFormats : list string)
  (acc : list File.t * list Toast) (file : File.t) : list File.t * list Toast :=
  let '(validFiles, toasts) := acc in
  let fileExtension := fileExtensionOf file in
  if negb (includes acceptedFormats fileExtension) then
    (validFiles,
     toasts ++ [{| title := "Invalid file format";
                   description :=
                     File.name file
                     ++ " is not a supported image format. Accepted formats: "
                     ++ String.concat ", " acceptedFormats;
                   variant := Some "destructive" |}])
  else if (50 * 1024 * 1024 <? File.size file)%N then
    (validFiles,
     toasts ++ [{| title := "File too large";
                   description :=
                     File.name file ++ " exceeds the 50MB size limit";
                   variant := Some "destructive" |}])
  else (validFiles ++ [file], toasts).

Definition validateFiles (acceptedFormats : list string) (files : list File.t)
  : list File.t * list Toast :=
  fold_left (validateFile acceptedFormats) files ([], []).

(** [handleFiles] (photo uploader, lines 53-72): [onPhotosUpload] is the
    component's prop, acting on whatever state [St] its owner holds; what it
    throws is an [Error].  The result is that state and the toasts shown. *)
Definition handleFiles {St : Type} (acceptedFormats : list string)
  (onPhotosUpload : list File.t -> St -> Result unit * St)
  (files : list File.t) (st : St) : St * list Toast :=
  let '(validFiles, toasts) := validateFiles acceptedFormats files in
  if (List.length validFiles =? 0)%nat then (st, toasts)
  else
    match onPhotosUpload validFiles st with
    | (Return _, st) =>
        (st,
         toasts ++ [{| title := "Photos uploaded successfully";
                       description :=
                         decimal (N.of_nat (List.length validFiles))
                         ++ " photo"
                         ++ (if (1 <? List.length validFiles)%nat
                             then "s" else "")
                         ++ " processed.";
                       variant := None |}])
    | (Throw message, st) =>
        (st,
         toasts ++ [{| title := "Upload failed";
                       description := message;
                       variant := Some "destructive" |}])
    end.

(** What [extractPhotoMetadata] reads of the object exifr resolves to. *)
Module ExifData.
Record t : Type := mk {
  latitude : option R;
  longitude : option R;
  DateTimeOriginal : option Date;
  Make : option string;
  Model : option string;
  Orientation : option R
}.
End ExifData.

(** [extractPhotoMetadata] (lib/exif-parser.ts, lines 18-55): [exifrParse] is
    [exifr.parse(file, ...)], which resolves to an object or to [undefined],
    or rejects; the [catch] turns a rejection into empty metadata. *)
Definition extractPhotoMetadata
  (exifrParse : File.t -> Result (option ExifData.t)) (file : File.t)
  : Result PhotoMetadata :=
  match exifrParse file with
  | Return exifData =>
      let location :=
        match exifData with
        | Some data =>
            match ExifData.latitude data, ExifData.longitude data with
            | Some latitude, Some longitude =>
                Some {| PhotoLocation.lat := latitude;
                        PhotoLocation.lon := longitude |}
            | _, _ => None
            end
        | None => None
        end in
      let timestamp :=
        match exifData with
        | Some data => ExifData.DateTimeOriginal data
        | None => None
        end in
      let camera :=
        match exifData with
        | Some data =>
            match truthy (ExifData.Make data), truthy (ExifData.Model data) with
            | Some make, Some model => Some (make ++ " " ++ model)%string
            | _, _ => None
            end
        | None => None
        end in
      let orientation :=
        match exifData with
        | Some data => ExifData.Orientation data
        | None => None
        end in
      Return {| location := location; timestamp := timestamp;
                camera := camera; orientation := orientation |}
  | Throw _ =>
      Return {| location := None; timestamp := None;
                camera := None; orientation := None |}
  end.

(** The state held by the photo hook. *)
Record PhotoHook : Type := mkPhotoHook {
  photos : list Photo.t;
  isProcessing : bool
}.

Section Photos.

(** [exifr.parse], and the two other helpers awaited, [fileToDataUrl] and
    [createThumbnail], which end in host calls (FileReader, canvas,
    heic2any): each by its outcome on a file, a value or a rejection. *)
Variable exifrParse : File.t -> Result (option ExifData.t).
Variable fileToDataUrl : File.t -> Result string.
Variable createThumbnail : File.t -> N -> Result (option string).

(** [Date.now()] and [Math.random().toString(36).substr(2, 9)], by the
    number of the call. *)
Variable dateNow : nat -> N.
Variable randomSuffix : nat -> string.

(** The body of [for (const file of files)] in [addMultiplePhotos]
    (lines 50-76); the [catch] only logs. *)
Definition processFile (processedPhotos : list Photo.t) (file : File.t)
  : list Photo.t :=
  match extractPhotoMetadata exifrParse file with
  | Throw _ => processedPhotos
  | Return metadata =>
      match fileToDataUrl file with
      | Throw _ => processedPhotos
      | Return dataUrl =>
          let thumbnailUrl :=
            match createThumbnail file 200 with
            | Return url => url
            | Throw _ => None
            end in
          let k := List.length processedPhotos in
          let newPhoto :=
            {| Photo.id := "photo-" ++ decimal (dateNow k) ++ "-"
                                    ++ randomSuffix k;
               Photo.name := File.name file;
               Photo.dataUrl := dataUrl;
               Photo.thumbnailUrl := truthy thumbnailUrl;
               Photo.location := location metadata;
               Photo.timestamp := timestamp metadata;
               Photo.visible := true;
               Photo.size := File.size file |} in
          processedPhotos ++ [newPhoto]
      end
  end.

(** [addMultiplePhotos] (lines 44-87): the photos returned and the hook's
    state afterwards. *)
Definition addMultiplePhotos (files : list File.t) (hook : PhotoHook)
  : list Photo.t * PhotoHook :=
  let hook := {| photos := photos hook; isProcessing := true |} in
  let processedPhotos := fold_left processFile files [] in
  let hook :=
    if (0 <? List.length processedPhotos)%nat
    then {| photos := photos hook ++ processedPhotos;
            isProcessing := isProcessing hook |}
    else hook in
  (processedPhotos, {| photos := photos hook; isProcessing := false |}).

(** A file is processed to a Photo when neither awaited call outside the
    inner [try] rejects. *)
Definition succeeds (file : File.t) : bool :=
  match extractPhotoMetadata exifrParse file, fileToDataUrl file with
  | Return _, Return _ => true
  | _, _ => false
  end.

End Photos.

(* ================================================================== *)
(** ** [updateTrackStyle] (hooks/use-tracks.ts) *)

(** [Partial<TrackStyle>]: a key that is absent is [None]. *)
Module PartialStyle.
Record t : Type := mk {
  color : option string;
  width : option R;
  opacity : option R;
  lineStyle : option LineStyle
}.
End PartialStyle.

Definition override {A : Type} (old : A) (new : option A) : A :=
  match new with
  | Some v => v
  | None => old
  end.

(** [{ ...track.style, ...style }] *)
Definition mergeStyle (old : TrackStyle) (new : PartialStyle.t) : TrackStyle :=
  {| color := override (color old) (PartialStyle.color new);
     width := override (width old) (PartialStyle.width new);
     opacity := override (opacity old) (PartialStyle.opacity new);
     lineStyle := override (lineStyle old) (PartialStyle.lineStyle new) |}.

(** The state update of [updateTrackStyle], applied to the tracks held. *)
Definition updateTrackStyle (trackId : string) (new : PartialStyle.t)
  (prev : list Track) : list Track :=
  map (fun track =>
         if String.eqb (id track) trackId
         then {| id := id track;
                 name := name track;
                 segments := segments track;
                 style := mergeStyle (style track) new;
                 visible := visible track;
                 stats := stats track |}
         else track)
      prev.

(* ================================================================== *)
(** ** Definitions used to state the properties *)

(** The point loop, read structurally: [loopBody] reads
    [segment.points[i]] and [segment.points[i - 1]] by index; [walk] does
    the same work by recursion on the point list, the previous point carried
    along ([forSegment_walk] below shows that the two agree). *)
Fixpoint walk (prev : option TrackPoint) (pts : list TrackPoint) (s : Locals.t)
  : Locals.t :=
  match pts with
  | [] => s
  | point :: rest =>
      let s := seeTime point (seeElevation point s) in
      let s := match prev with
               | Some prevPoint => seePair prevPoint point s
               | None => s
               end in
      walk (Some point) rest s
  end.

Definition lastOpt (pre : list TrackPoint) : option TrackPoint :=
  match pre with
  | [] => None
  | _ :: _ => nth_error pre (List.length pre - 1)
  end.

Definition optCons (prev : option TrackPoint) (pts : list TrackPoint)
  : list TrackPoint :=
  match prev with
  | Some q => q :: pts
  | None => pts
  end.

(** The pairs of neighbours of a list, in order. *)
Fixpoint adjacentPairs {A : Type} (l : list A) : list (A * A) :=
  match l with
  | [] => []
  | a :: rest =>
      match rest with
      | [] => []
      | b :: _ => (a, b) :: adjacentPairs rest
      end
  end.

Definition Rsum (l : list R) : R := fold_right Rplus 0%R l.

(** The variable [a] of [calculateDistance]. *)
Definition haversineA (lat1 lon1 lat2 lon2 : R) : R :=
  let φ1 := (lat1 * Math.PI / 180)%R in
  let φ2 := (lat2 * Math.PI / 180)%R in
  let Δφ := ((lat2 - lat1) * Math.PI / 180)%R in
  let Δλ := ((lon2 - lon1) * Math.PI / 180)%R in
  (Math.sin (Δφ / 2) * Math.sin (Δφ / 2) +
   Math.cos φ1 * Math.cos φ2 *
   Math.sin (Δλ / 2) * Math.sin (Δλ / 2))%R.

Definition haversine (p q : TrackPoint) : R :=
  calculateDistance (lat p) (lon p) (lat q) (lon q).

(** The sum of [g] over the pairs of neighbours. *)
Definition pairSum (g : TrackPoint -> TrackPoint -> R) (pts : list TrackPoint)
  : R :=
  Rsum (map (fun pq => g (fst pq) (snd pq)) (adjacentPairs pts)).

(** Distance as the spec words it: per segment, the sum of the haversine
    distances of consecutive points; then the sum over the segments. *)
Definition spec_segmentDistance (segment : TrackSegment) : R :=
  Rsum (map (fun pq => haversine (fst pq) (snd pq))
            (adjacentPairs (points segment))).

Definition spec_totalDistance (segments : list TrackSegment) : R :=
  Rsum (map spec_segmentDistance segments).

(** What a pair of neighbours adds to the gain and to the loss: nothing
    unless both [ele] fields are read; then a positive delta (current minus
    previous) is gain, a negative or zero delta's absolute value is loss. *)
Definition pairGain (prev cur : TrackPoint) : R :=
  match elevationOf (ele prev), elevationOf (ele cur) with
  | Some a, Some b => if Rlt_dec 0 (b - a) then (b - a)%R else 0%R
  | _, _ => 0%R
  end.

Definition pairLoss (prev cur : TrackPoint) : R :=
  match elevationOf (ele prev), elevationOf (ele cur) with
  | Some a, Some b => if Rle_dec (b - a) 0 then Rabs (b - a) else 0%R
  | _, _ => 0%R
  end.

(** The elevation value that a point carries, if any: [undefined] and [null]
    are none. *)
Definition elevationCarried (e : Elevation) : option R :=
  match e with
  | Ele e => Some e
  | undefined | null => None
  end.

(** Gain and loss as the spec words them: only pairs of neighbours that both
    carry an elevation value count. *)
Definition spec_pairGain (prev cur : TrackPoint) : R :=
  match elevationCarried (ele prev), elevationCarried (ele cur) with
  | Some a, Some b => if Rlt_dec 0 (b - a) then (b - a)%R else 0%R
  | _, _ => 0%R
  end.

Definition spec_pairLoss (prev cur : TrackPoint) : R :=
  match elevationCarried (ele prev), elevationCarried (ele cur) with
  | Some a, Some b => if Rle_dec (b - a) 0 then Rabs (b - a) else 0%R
  | _, _ => 0%R
  end.

Definition spec_elevationGain (segments : list TrackSegment) : R :=
  Rsum (map (fun segment =>
               Rsum (map (fun pq => spec_pairGain (fst pq) (snd pq))
                         (adjacentPairs (points segment))))
            segments).

Definition spec_elevationLoss (segments : list TrackSegment) : R :=
  Rsum (map (fun segment =>
               Rsum (map (fun pq => spec_pairLoss (fst pq) (snd pq))
                         (adjacentPairs (points segment))))
            segments).

(** All the points of a track. *)
Definition allPoints (segments : list TrackSegment) : list TrackPoint :=
  flat_map points segments.

Definition fewPoints (segments : list TrackSegment) : Prop :=
  Forall (fun segment => (List.length (points segment) < 2)%nat) segments.

Definition noElevation (segments : list TrackSegment) : Prop :=
  Forall (fun p => elevationCarried (ele p) = None) (allPoints segments).

Definition noTime (segments : list TrackSegment) : Prop :=
  Forall (fun p => time p = None) (allPoints segments).

(** A file passes [validateFiles]. *)
Definition accepted (acceptedFormats : list string) (file : File.t) : bool :=
  includes acceptedFormats (fileExtensionOf file)
  && negb (50 * 1024 * 1024 <? File.size file)%N.

(** A file fails during metadata or thumbnail processing, as the spec words
    it: the EXIF read rejects, or no thumbnail is made. *)
Definition spec_failsProcessing
  (exifrParse : File.t -> Result (option ExifData.t))
  (createThumbnail : File.t -> N -> Result (option string))
  (file : File.t) : bool :=
  match exifrParse file, createThumbnail file 200%N with
  | Return _, Return (Some _) => false
  | _, _ => true
  end.

(** What the loop keeps true of the running minimum and maximum and of the
    first and last time seen. *)
Definition elevationRange (s : Locals.t) : Prop :=
  (Locals.minElevation s = Infinity /\ Locals.maxElevation s = NegInfinity)
  \/ exists lo hi : R,
       Locals.minElevation s = Num lo
       /\ Locals.maxElevation s = Num hi
       /\ (lo <= hi)%R.

Definition timeRange (s : Locals.t) : Prop :=
  match Locals.startTime s, Locals.endTime s with
  | None, None => True
  | Some (DateAt t0), Some (DateAt t1) => (t0 <= t1)%Z
  | Some InvalidDate, Some InvalidDate => True
  | _, _ => False
  end.

Definition Ranges (s : Locals.t) : Prop := elevationRange s /\ timeRange s.

(** No elevation value seen yet: nothing read, or only [null]s, read as 0. *)
Definition elevationUnseen (s : Locals.t) : Prop :=
  (Locals.minElevation s = Infinity /\ Locals.maxElevation s = NegInfinity)
  \/ (Locals.minElevation s = Num 0 /\ Locals.maxElevation s = Num 0).

Definition timeUnseen (s : Locals.t) : Prop :=
  Locals.startTime s = None /\ Locals.endTime s = None.

(** Names as the spec words them: the source-provided name, else the
    uploaded filename, else a label; an ordinal label is a kind followed by
    the 1-based position. *)
Definition spec_resolvedName (sourceName fileName : option string)
  (label : string) : string :=
  orElse sourceName (orElse fileName label).

Definition ordinalLabel (kind : string) (index : nat) : string :=
  kind ++ " " ++ decimal (N.of_nat (index + 1)).

Definition isOrdinalLabel (label : string) : Prop :=
  exists index : nat,
    label = ordinalLabel "Track" index \/ label = ordinalLabel "Route" index.

(** Sample points, documents and host functions, for the concrete cases. *)
Definition summitPoint : TrackPoint :=
  mkTrackPoint 0 0 (Ele 100) (Some (DateAt 5)).


Definition sampleClock (k : nat) : N := (1700000000000 + N.of_nat k)%N.

(** A host that reads one date and no other text. *)
Definition sampleNewDate (text : string) : Date :=
  if String.eqb text "2024-05-01T08:00:00Z" then DateAt 1714550400000
  else InvalidDate.

Definition emptyDocument : GPXParserInstance.t :=
  GPXParserInstance.mk None (Some []) None.

Definition waypointsDocument : GPXParserInstance.t :=
  GPXParserInstance.mk None None
    (Some [GPXWaypoint.mk 46 7 (Ele 1500) (Some "hut");
           GPXWaypoint.mk 47 8 undefined None]).

Definition routeAndWaypointDocument : GPXParserInstance.t :=
  GPXParserInstance.mk None
    (Some [GPXRoute.mk None [GPXPoint.mk 1 1 undefined None]])
    (Some [GPXWaypoint.mk 2 2 undefined None]).

Definition trackDocument : GPXParserInstance.t :=
  GPXParserInstance.mk
    (Some [GPXTrack.mk None [GPXPoint.mk 1 1 undefined None]])
    None None.

Definition routeDocument : GPXParserInstance.t :=
  GPXParserInstance.mk None
    (Some [GPXRoute.mk None [GPXPoint.mk 1 1 undefined None]])
    None.

(** Two places almost opposite each other on the sphere, (13.859, -55.556)
    and (-13.859, 124.444), as binary64 numbers; and a host whose [sin] and
    [cos] are the exact values rounded to binary64 at the arguments that
    [calculateDistance] passes for those two places. *)
Definition placeA : float * float :=
  (0x1.bb7ced916872bp+3, - 0x1.bc72b020c49bap+5)%float.

Definition placeB : float * float :=
  (- 0x1.bb7ced916872bp+3, 0x1.f1c6a7ef9db23p+6)%float.

Definition sampleSin (x : float) : float :=
  if (x =? - 0x1.ef617f6f6bc14p-3)%float then (- 0x1.ea907622c6aecp-3)%float
  else if (x =? 0x1.921fb54442d18p+0)%float then 1%float
  else nan.

Definition sampleCos (x : float) : float :=
  if (abs x =? 0x1.ef617f6f6bc14p-3)%float then 0x1.f1183ff5a5e0cp-1%float
  else nan.

Definition sampleAtan2 (y x : float) : float :=
  if is_nan y || is_nan x then nan else 0x1.921fb54442d18p+0%float.

(** The names a document provides for its tracks and routes. *)
Definition sourceNames (gpx : GPXParserInstance.t) : list (option string) :=
  map GPXTrack.name (orEmpty (GPXParserInstance.tracks gpx))
  ++ map GPXRoute.name (orEmpty (GPXParserInstance.routes gpx)).

(** Sample files, host outcomes and tracks, for the concrete cases. *)
Definition samplePhotoFiles : list File.t :=
  [File.mk "summit.JPG" 2000000 "image/jpeg";
   File.mk "notes.txt" 120 "text/plain";
   File.mk "lake.png" 500000 "image/png"].

Definition sampleExifr (file : File.t) : Result (option ExifData.t) :=
  Throw "Unknown file format".

Definition sampleDataUrl (file : File.t) : Result string :=
  Return ("data:" ++ File.type file)%string.

Definition sampleThumbnail (file : File.t) (maxSize : N)
  : Result (option string) :=
  Throw "canvas unavailable".

Definition sampleRandom (k : nat) : string := "k3j9x0a2b".

Definition sampleTracks : list Track :=
  [mkTrack "track-1" "Morning" [] DEFAULT_STYLE true None;
   mkTrack "track-2" "Evening" [] DEFAULT_STYLE false None].

Definition sampleStyle : PartialStyle.t :=
  PartialStyle.mk (Some "#3182CE") None None (Some dashed).

(* ================================================================== *)
(** * Further definitions: the rest of the code *)

(** ** More of the track statistics *)

(** The elevations that [calculateTrackStats] reads off the points of a
    track ([null] as 0), and the times that the points carry, in order. *)
Definition elevations (segments : list TrackSegment) : list R :=
  flat_map (fun p => match elevationOf (ele p) with
                     | Some e => [e]
                     | None => []
                     end)
           (allPoints segments).

Definition times (segments : list TrackSegment) : list Date :=
  flat_map (fun p => match time p with Some t => [t] | None => [] end)
           (allPoints segments).

(** A segment walked backwards. *)
Definition reverseSegment (segment : TrackSegment) : TrackSegment :=
  {| points := rev (points segment) |}.

(** The running minimum, maximum, first and last time after the points seen,
    as folds over the elevations and times. *)
Definition minOver (m : number) (es : list R) : number :=
  fold_left (fun m e => Math.min m (Num e)) es m.

Definition maxOver (m : number) (es : list R) : number :=
  fold_left (fun m e => Math.max m (Num e)) es m.

Definition earliest (t0 : option Date) (ts : list Date) : option Date :=
  fold_left (fun t0 t => match t0 with
                         | None => Some t
                         | Some t0 => if Date_lt t t0 then Some t else Some t0
                         end) ts t0.

Definition latest (t1 : option Date) (ts : list Date) : option Date :=
  fold_left (fun t1 t => match t1 with
                         | None => Some t
                         | Some t1 => if Date_gt t t1 then Some t else Some t1
                         end) ts t1.

(** The time values of the valid Dates of a list. *)
Definition validTimes (ts : list Date) : list Z :=
  flat_map (fun t => match t with DateAt ms => [ms] | InvalidDate => [] end)
           ts.

Definition pointElevations (pts : list TrackPoint) : list R :=
  flat_map (fun p => match elevationOf (ele p) with
                     | Some e => [e]
                     | None => []
                     end) pts.

Definition pointTimes (pts : list TrackPoint) : list Date :=
  flat_map (fun p => match time p with Some t => [t] | None => [] end) pts.

(** The net climb of a run of elevations: the last minus the first. *)
Definition netClimb (es : list R) : R :=
  match es with
  | [] => 0%R
  | e :: rest => (last rest e - e)%R
  end.

(** A track walked backwards: the segments in reverse order, each
    backwards. *)
Definition reverseTrack (segments : list TrackSegment) : list TrackSegment :=
  rev (map reverseSegment segments).

Definition climbTrack : list TrackSegment :=
  [ {| points := [mkTrackPoint 46 7 (Ele 100) (Some (DateAt 1000));
                  mkTrackPoint 46 8 (Ele 150) None;
                  mkTrackPoint 47 8 (Ele 120) (Some (DateAt 61000))] |} ].

(* ================================================================== *)
(** ** [parseGPXFile] *)

(** [parseGPXFile]: [fileText] is [await file.text()]. *)
Definition parseGPXFile (newDate : string -> Date) (dateNow : nat -> N)
  (GPXParser : option (string -> GPXParserInstance.t))
  (fileText : File.t -> string) (file : File.t) : Result (list Track) :=
  let text := fileText file in
  parseGPXString newDate dateNow GPXParser text (Some (File.name file)).

(** The segments made of the points of a source track: none for a track
    without points, else one holding them all. *)
Definition segmentsOfPoints (pts : list TrackPoint) : list TrackSegment :=
  match pts with
  | [] => []
  | _ :: _ => [ {| points := pts |} ]
  end.

(** A document with two source tracks (the second without points), a route
    without points and a waypoint. *)
Definition mixedDocument : GPXParserInstance.t :=
  GPXParserInstance.mk
    (Some [GPXTrack.mk (Some "Ridge")
             [GPXPoint.mk 46 7 (Ele 2000) (Some "2024-05-01T08:00:00Z");
              GPXPoint.mk 46 8 undefined (Some "")];
           GPXTrack.mk None []])
    (Some [GPXRoute.mk None []])
    (Some [GPXWaypoint.mk 2 2 undefined None]).

(** What [normalize] returns for [mixedDocument] read from "alps.gpx". *)
Definition mixedTracks : list Track :=
  [trackOfTrack sampleNewDate (Some "alps.gpx") (sampleClock 0)
     (GPXTrack.mk (Some "Ridge")
        [GPXPoint.mk 46 7 (Ele 2000) (Some "2024-05-01T08:00:00Z");
         GPXPoint.mk 46 8 undefined (Some "")]) 0;
   trackOfTrack sampleNewDate (Some "alps.gpx") (sampleClock 1)
     (GPXTrack.mk None []) 1;
   trackOfRoute (sampleClock 2) (GPXRoute.mk None []) 0].

(* ================================================================== *)
(** ** The rest of the tracks hook (hooks/use-tracks.ts) *)

(** [Omit<Track, 'id' | 'style' | 'visible'>] *)
Module TrackInput.
Record t : Type := mk {
  name : string;
  segments : list TrackSegment;
  stats : option TrackStats
}.
End TrackInput.

Module useTracks.

(** [addTrack]: [now] is [Date.now()] and [random] is
    [Math.random().toString(36).substr(2, 9)]; the new Track and the
    tracks held afterwards. *)
Definition addTrack (now : N) (random : string) (track : TrackInput.t)
  (prev : list Track) : Track * list Track :=
  let newTrack :=
    {| id := "track-" ++ decimal now ++ "-" ++ random;
       name := TrackInput.name track;
       segments := TrackInput.segments track;
       style := DEFAULT_STYLE;
       visible := true;
       stats := TrackInput.stats track |} in
  (newTrack, prev ++ [newTrack]).

Definition removeTrack (trackId : string) (prev : list Track) : list Track :=
  filter (fun t => negb (String.eqb (id t) trackId)) prev.

Definition toggleTrackVisibility (trackId : string) (prev : list Track)
  : list Track :=
  map (fun track =>
         if String.eqb (id track) trackId
         then {| id := id track;
                 name := name track;
                 segments := segments track;
                 style := style track;
                 visible := negb (visible track);
                 stats := stats track |}
         else track)
      prev.

Definition clearAllTracks (prev : list Track) : list Track := [].

End useTracks.

(** [{ ...first, ...second }] on two partial styles. *)
Definition mergePartial (first second : PartialStyle.t) : PartialStyle.t :=
  {| PartialStyle.color :=
       match PartialStyle.color second with
       | Some v => Some v
       | None => PartialStyle.color first
       end;
     PartialStyle.width :=
       match PartialStyle.width second with
       | Some v => Some v
       | None => PartialStyle.width first
       end;
     PartialStyle.opacity :=
       match PartialStyle.opacity second with
       | Some v => Some v
       | None => PartialStyle.opacity first
       end;
     PartialStyle.lineStyle :=
       match PartialStyle.lineStyle second with
       | Some v => Some v
       | None => PartialStyle.lineStyle first
       end |}.

(** [handleFileUpload] of the page (app/page.tsx, lines 40-54): the parsed
    Tracks are added one by one; an error is logged and thrown again.  The
    clock is read once per parsed Track by the parser, then once per Track
    added. *)
Definition handleFileUpload (newDate : string -> Date) (dateNow : nat -> N)
  (randomSuffix : nat -> string)
  (GPXParser : option (string -> GPXParserInstance.t))
  (fileText : File.t -> string) (file : File.t) (prev : list Track)
  : Result unit * list Track :=
  match parseGPXFile newDate dateNow GPXParser fileText file with
  | Return parsedTracks =>
      (Return tt,
       forEach (fun tracks track index =>
                  snd (useTracks.addTrack
                         (dateNow (List.length parsedTracks + index)%nat)
                         (randomSuffix index)
                         {| TrackInput.name := name track;
                            TrackInput.segments := segments track;
                            TrackInput.stats := stats track |}
                         tracks))
               parsedTracks prev)
  | Throw message => (Throw message, prev)
  end.

Definition sampleParse (gpxText : string) : GPXParserInstance.t :=
  if String.eqb gpxText "" then emptyDocument else trackDocument.

Definition sampleText (file : File.t) : string :=
  if String.eqb (File.name file) "empty.gpx" then "" else "<gpx/>".

(* ================================================================== *)
(** ** File names *)

(** The string holds the character. *)
Fixpoint hasChar (c : ascii) (s : string) : bool :=
  match s with
  | EmptyString => false
  | String c' rest => Ascii.eqb c' c || hasChar c rest
  end.

(* ================================================================== *)
(** ** The GPX file uploader *)

Module FileUploader.

(** The component's state. *)
Record State : Type := mkState {
  isUploading : bool;
  uploadedFiles : list File.t
}.

Definition defaultAcceptedFormats : list string := [".gpx"].

(** [handleFile] (lines 233-263): [onFileUpload] is the component's prop,
    acting on the state [St] of its owner and throwing an [Error] when it
    fails.  The result is the owner's state, the component's state and the
    toasts shown. *)
Definition handleFile {St : Type} (acceptedFormats : list string)
  (onFileUpload : File.t -> St -> Result unit * St)
  (file : File.t) (st : St) (ui : State) : St * State * list Toast :=
  let fileExtension := fileExtensionOf file in
  if negb (includes acceptedFormats fileExtension) then
    (st, ui,
     [{| title := "Invalid file format";
         description := "Please upload a GPX file. Accepted formats: "
                        ++ String.concat ", " acceptedFormats;
         variant := Some "destructive" |}])
  else
    let ui := {| isUploading := true; uploadedFiles := uploadedFiles ui |} in
    let '(outcome, st) := onFileUpload file st in
    let '(ui, toasts) :=
      match outcome with
      | Return _ =>
          ({| isUploading := isUploading ui;
              uploadedFiles := uploadedFiles ui ++ [file] |},
           [{| title := "File uploaded successfully";
               description := File.name file ++ " has been processed.";
               variant := None |}])
      | Throw message =>
          (ui,
           [{| title := "Upload failed";
               description := message;
               variant := Some "destructive" |}])
      end in
    (st, {| isUploading := false; uploadedFiles := uploadedFiles ui |},
     toasts).

(** [handleDrop] and [handleFileSelect] (lines 282-298): only [files[0]]
    is handled. *)
Definition handleDrop {St : Type} (acceptedFormats : list string)
  (onFileUpload : File.t -> St -> Result unit * St)
  (files : list File.t) (st : St) (ui : State) : St * State * list Toast :=
  match files with
  | file :: _ => handleFile acceptedFormats onFileUpload file st ui
  | [] => (st, ui, [])
  end.

(** [prev.filter((_, i) => i !== index)] *)
Fixpoint dropIndexFrom {A : Type} (i index : nat) (l : list A) : list A :=
  match l with
  | [] => []
  | x :: rest =>
      if (i =? index)%nat then dropIndexFrom (S i) index rest
      else x :: dropIndexFrom (S i) index rest
  end.

(** [removeFile] (lines 300-302) *)
Definition removeFile (index : nat) (ui : State) : State :=
  {| isUploading := isUploading ui;
     uploadedFiles := dropIndexFrom 0 index (uploadedFiles ui) |}.

End FileUploader.

(* ================================================================== *)
(** ** The thumbnail's size (lib/exif-parser.ts, [createThumbnail]) *)

(** The [width] and [height] that [img.onload] computes for the canvas
    (lines 138-152), from the image's and [maxSize]. *)
Definition thumbnailSize (imgWidth imgHeight maxSize : R) : R * R :=
  let width := imgWidth in
  let height := imgHeight in
  if Rgt_dec width height then
    if Rgt_dec width maxSize
    then (maxSize, (height * maxSize / width)%R)
    else (width, height)
  else
    if Rgt_dec height maxSize
    then ((width * maxSize / height)%R, maxSize)
    else (width, height).

(* ================================================================== *)
(** ** The rest of the photos hook *)

Module usePhotos.

Section Single.

Variable exifrParse : File.t -> Result (option ExifData.t).
Variable fileToDataUrl : File.t -> Result string.
Variable createThumbnail : File.t -> N -> Result (option string).
Variable dateNow : nat -> N.
Variable randomSuffix : nat -> string.

(** [addPhoto] (lines 9-42): the Photo returned, or [null], and the
    hook's state afterwards. *)
Definition addPhoto (file : File.t) (hook : PhotoHook)
  : option Photo.t * PhotoHook :=
  let hook := {| photos := photos hook; isProcessing := true |} in
  let '(returned, hook) :=
    match extractPhotoMetadata exifrParse file with
    | Throw _ => (None, hook)
    | Return metadata =>
        match fileToDataUrl file with
        | Throw _ => (None, hook)
        | Return dataUrl =>
            let thumbnailUrl :=
              match createThumbnail file 200 with
              | Return url => url
              | Throw _ => None
              end in
            let newPhoto :=
              {| Photo.id := "photo-" ++ decimal (dateNow 0) ++ "-"
                                      ++ randomSuffix 0;
                 Photo.name := File.name file;
                 Photo.dataUrl := dataUrl;
                 Photo.thumbnailUrl := truthy thumbnailUrl;
                 Photo.location := location metadata;
                 Photo.timestamp := timestamp metadata;
                 Photo.visible := true;
                 Photo.size := File.size file |} in
            (Some newPhoto,
             {| photos := photos hook ++ [newPhoto];
                isProcessing := isProcessing hook |})
        end
    end in
  (returned, {| photos := photos hook; isProcessing := false |}).

End Single.

Definition removePhoto (photoId : string) (hook : PhotoHook) : PhotoHook :=
  {| photos := filter (fun p => negb (String.eqb (Photo.id p) photoId))
                      (photos hook);
     isProcessing := isProcessing hook |}.

Definition togglePhotoVisibility (photoId : string) (hook : PhotoHook)
  : PhotoHook :=
  {| photos :=
       map (fun photo =>
              if String.eqb (Photo.id photo) photoId
              then {| Photo.id := Photo.id photo;
                      Photo.name := Photo.name photo;
                      Photo.dataUrl := Photo.dataUrl photo;
                      Photo.thumbnailUrl := Photo.thumbnailUrl photo;
                      Photo.location := Photo.location photo;
                      Photo.timestamp := Photo.timestamp photo;
                      Photo.visible := negb (Photo.visible photo);
                      Photo.size := Photo.size photo |}
              else photo)
           (photos hook);
     isProcessing := isProcessing hook |}.

Definition clearAllPhotos (hook : PhotoHook) : PhotoHook :=
  {| photos := []; isProcessing := isProcessing hook |}.

(** [photos.filter(p => p.location !== null && p.visible)] *)
Definition getPhotosWithLocation (hook : PhotoHook) : list Photo.t :=
  filter (fun p => match Photo.location p with
                   | Some _ => Photo.visible p
                   | None => false
                   end)
         (photos hook).

End usePhotos.

(** The location that [extractPhotoMetadata] reads from what exifr gave. *)
Definition locationOf (outcome : Result (option ExifData.t))
  : option PhotoLocation.t :=
  match outcome with
  | Return (Some data) =>
      match ExifData.latitude data, ExifData.longitude data with
      | Some latitude, Some longitude =>
          Some {| PhotoLocation.lat := latitude;
                  PhotoLocation.lon := longitude |}
      | _, _ => None
      end
  | _ => None
  end.

(* ================================================================== *)
(** ** The map view *)

Module MapView.

Definition defaultCenter : R * R := (51.505%R, (-0.09)%R).

(** [tracks.some(t => t.visible && t.segments.some(s => s.points.length > 0))] *)
Definition hasVisibleTracks (tracks : list Track) : bool :=
  existsb (fun t =>
             visible t
             && existsb (fun s => (0 <? List.length (points s))%nat)
                        (segments t))
          tracks.

(** [initialCenter] (lines 128-141).  [find] only returns a track with a
    segment, so [segments[0]] is defined. *)
Definition initialCenter (tracks : list Track) : R * R :=
  if hasVisibleTracks tracks then
    match find (fun t => visible t && (0 <? List.length (segments t))%nat)
               tracks with
    | Some firstVisibleTrack =>
        match segments firstVisibleTrack with
        | segment0 :: _ =>
            match points segment0 with
            | firstPoint :: _ => (lat firstPoint, lon firstPoint)
            | [] => defaultCenter
            end
        | [] => defaultCenter
        end
    | None => defaultCenter
    end
  else defaultCenter.

(** [allPoints] of [MapBoundsUpdater] (lines 51-69); [map.fitBounds] is
    called when it is not empty. *)
Definition boundsPoints (tracks : list Track) (photos : list Photo.t)
  : list (R * R) :=
  flat_map (fun track =>
              if visible track
              then flat_map (fun segment =>
                               map (fun point => (lat point, lon point))
                                   (points segment))
                            (segments track)
              else [])
           tracks
  ++ flat_map (fun photo =>
                 match Photo.visible photo, Photo.location photo with
                 | true, Some location =>
                     [(PhotoLocation.lat location,
                       PhotoLocation.lon location)]
                 | _, _ => []
                 end)
              photos.

End MapView.

(** A Track as the parser makes it of an empty route: one segment, no
    point. *)
Definition emptyRouteTrack : Track :=
  mkTrack "track-0" "Route 1" [ {| points := [] |} ] DEFAULT_STYLE true None.

Definition ridgeTrack : Track :=
  mkTrack "track-1" "Ridge"
    [ {| points := [mkTrackPoint 46 7 undefined None] |} ] DEFAULT_STYLE true None.

(* ================================================================== *)
(** * Properties *)

(** ** The point loop *)

Lemma lastOpt_snoc (pre : list TrackPoint) (p : TrackPoint) :
  lastOpt (pre ++ [p]) = Some p.
Proof.
  unfold lastOpt. destruct (pre ++ [p]) eqn:E.
  - destruct pre; discriminate.
  - rewrite <- E. rewrite length_app. simpl.
    replace (List.length pre + 1 - 1)%nat with (List.length pre) by lia.
    rewrite nth_error_app2 by lia. rewrite Nat.sub_diag. reflexivity.
Qed.

Lemma loop_from (rest pre : list TrackPoint) (s : Locals.t) :
  fold_left (loopBody (pre ++ rest))
            (seq (List.length pre) (List.length rest)) s
  = walk (lastOpt pre) rest s.
Proof.
  revert pre s. induction rest as [|p rest IH]; intros pre s.
  - reflexivity.
  - cbn [List.length seq fold_left walk].
    assert (Hstep : loopBody (pre ++ p :: rest) s (List.length pre)
                    = match lastOpt pre with
                      | Some q => seePair q p (seeTime p (seeElevation p s))
                      | None => seeTime p (seeElevation p s)
                      end).
    { unfold loopBody. rewrite nth_error_app2 by lia.
      rewrite Nat.sub_diag. cbn [nth_error].
      destruct pre as [|q0 pre'].
      - reflexivity.
      - cbn [lastOpt]. replace (0 <? List.length (q0 :: pre'))%nat with true
          by (symmetry; apply Nat.ltb_lt; simpl; lia).
        rewrite nth_error_app1 by (simpl; lia).
        destruct (nth_error (q0 :: pre') (List.length (q0 :: pre') - 1)) eqn:E.
        + reflexivity.
        + apply nth_error_None in E. simpl in E. lia. }
    rewrite Hstep.
    specialize (IH (pre ++ [p])).
    rewrite <- app_assoc in IH. cbn [app] in IH.
    rewrite length_app in IH. cbn [List.length] in IH.
    replace (List.length pre + 1)%nat with (S (List.length pre)) in IH by lia.
    rewrite IH. rewrite lastOpt_snoc.
    destruct (lastOpt pre); reflexivity.
Qed.

Lemma forSegment_walk (s : Locals.t) (segment : TrackSegment) :
  forSegment s segment = walk None (points segment) s.
Proof.
  unfold forSegment. exact (loop_from (points segment) [] s).
Qed.

(** ** What each step of the loop leaves alone *)

Lemma seeElevation_frame (p : TrackPoint) (s : Locals.t) :
  Locals.totalDistance (seeElevation p s) = Locals.totalDistance s
  /\ Locals.elevationGain (seeElevation p s) = Locals.elevationGain s
  /\ Locals.elevationLoss (seeElevation p s) = Locals.elevationLoss s
  /\ Locals.startTime (seeElevation p s) = Locals.startTime s
  /\ Locals.endTime (seeElevation p s) = Locals.endTime s.
Proof. unfold seeElevation. destruct (elevationOf (ele p)); auto. Qed.

Lemma seeTime_frame (p : TrackPoint) (s : Locals.t) :
  Locals.totalDistance (seeTime p s) = Locals.totalDistance s
  /\ Locals.elevationGain (seeTime p s) = Locals.elevationGain s
  /\ Locals.elevationLoss (seeTime p s) = Locals.elevationLoss s
  /\ Locals.minElevation (seeTime p s) = Locals.minElevation s
  /\ Locals.maxElevation (seeTime p s) = Locals.maxElevation s.
Proof.
  unfold seeTime. destruct (time p) as [t|]; auto.
  destruct (Locals.startTime s) as [t0|]; [destruct (Date_lt t t0)|];
    cbn [Locals.set_startTime Locals.startTime Locals.endTime];
    destruct (Locals.endTime s) as [t1|]; try destruct (Date_gt t t1); auto.
Qed.

Lemma seePair_frame (q p : TrackPoint) (s : Locals.t) :
  Locals.minElevation (seePair q p s) = Locals.minElevation s
  /\ Locals.maxElevation (seePair q p s) = Locals.maxElevation s
  /\ Locals.startTime (seePair q p s) = Locals.startTime s
  /\ Locals.endTime (seePair q p s) = Locals.endTime s.
Proof.
  unfold seePair.
  destruct (elevationOf (ele p)) as [e|], (elevationOf (ele q)) as [pe|]; auto.
  destruct (Rgt_dec (e - pe) 0); auto.
Qed.

(** ** What [seePair] adds *)

Lemma seePair_totalDistance (q p : TrackPoint) (s : Locals.t) :
  Locals.totalDistance (seePair q p s)
  = (Locals.totalDistance s + haversine q p)%R.
Proof.
  unfold seePair, haversine.
  destruct (elevationOf (ele p)) as [e|], (elevationOf (ele q)) as [pe|];
    try reflexivity.
  destruct (Rgt_dec (e - pe) 0); reflexivity.
Qed.

Lemma seePair_gain (q p : TrackPoint) (s : Locals.t) :
  Locals.elevationGain (seePair q p s)
  = (Locals.elevationGain s + pairGain q p)%R.
Proof.
  unfold seePair, pairGain.
  destruct (elevationOf (ele p)) as [e|], (elevationOf (ele q)) as [pe|];
    cbn; try lra.
  destruct (Rgt_dec (e - pe) 0), (Rlt_dec 0 (e - pe)); cbn; lra.
Qed.

Lemma seePair_loss (q p : TrackPoint) (s : Locals.t) :
  Locals.elevationLoss (seePair q p s)
  = (Locals.elevationLoss s + pairLoss q p)%R.
Proof.
  unfold seePair, pairLoss, Math.abs.
  destruct (elevationOf (ele p)) as [e|], (elevationOf (ele q)) as [pe|];
    cbn; try lra.
  destruct (Rgt_dec (e - pe) 0), (Rle_dec (e - pe) 0); cbn; lra.
Qed.

(** ** Sums accumulated by the loop *)

Section Accumulated.

(** A running sum [f] of the locals to which only [seePair] adds, [g] for
    each pair. *)
Variable f : Locals.t -> R.
Variable g : TrackPoint -> TrackPoint -> R.
Hypothesis f_seeElevation : forall p s, f (seeElevation p s) = f s.
Hypothesis f_seeTime : forall p s, f (seeTime p s) = f s.
Hypothesis f_seePair : forall q p s, f (seePair q p s) = (f s + g q p)%R.

Lemma walk_sum (pts : list TrackPoint) :
  forall prev s,
    f (walk prev pts s) = (f s + pairSum g (optCons prev pts))%R.
Proof.
  induction pts as [|p rest IH]; intros prev s.
  - destruct prev; unfold pairSum; cbn; lra.
  - cbn [walk]. rewrite IH. destruct prev as [q|].
    + rewrite f_seePair, f_seeTime, f_seeElevation.
      unfold pairSum. cbn. lra.
    + rewrite f_seeTime, f_seeElevation. reflexivity.
Qed.

Lemma segments_sum (segs : list TrackSegment) :
  forall s,
    f (fold_left forSegment segs s)
    = (f s + Rsum (map (fun seg => pairSum g (points seg)) segs))%R.
Proof.
  induction segs as [|seg rest IH]; intros s.
  - cbn. lra.
  - cbn [fold_left map Rsum fold_right]. rewrite IH.
    rewrite forSegment_walk, walk_sum. cbn [optCons].
    unfold Rsum. lra.
Qed.

End Accumulated.

Lemma totalDistance_spec (segs : list TrackSegment) :
  distance (calculateTrackStats segs) = spec_totalDistance segs.
Proof.
  unfold calculateTrackStats. cbn [distance].
  rewrite (segments_sum Locals.totalDistance haversine).
  - cbn. unfold spec_totalDistance, spec_segmentDistance, pairSum. lra.
  - intros; apply seeElevation_frame.
  - intros; apply seeTime_frame.
  - intros; apply seePair_totalDistance.
Qed.

Lemma elevationGain_sum (segs : list TrackSegment) :
  elevationGain (calculateTrackStats segs)
  = Rsum (map (fun seg => pairSum pairGain (points seg)) segs).
Proof.
  unfold calculateTrackStats. cbn [elevationGain].
  rewrite (segments_sum Locals.elevationGain pairGain).
  - cbn. lra.
  - intros; apply seeElevation_frame.
  - intros; apply seeTime_frame.
  - intros; apply seePair_gain.
Qed.

Lemma elevationLoss_sum (segs : list TrackSegment) :
  elevationLoss (calculateTrackStats segs)
  = Rsum (map (fun seg => pairSum pairLoss (points seg)) segs).
Proof.
  unfold calculateTrackStats. cbn [elevationLoss].
  rewrite (segments_sum Locals.elevationLoss pairLoss).
  - cbn. lra.
  - intros; apply seeElevation_frame.
  - intros; apply seeTime_frame.
  - intros; apply seePair_loss.
Qed.

(** ** [calculateDistance] *)

Lemma calculateDistance_a (lat1 lon1 lat2 lon2 : R) :
  calculateDistance lat1 lon1 lat2 lon2
  = let a := haversineA lat1 lon1 lat2 lon2 in
    (6371000 * (2 * Math.atan2 (Math.sqrt a) (Math.sqrt (1 - a))))%R.
Proof. reflexivity. Qed.

(** Both square roots of [calculateDistance] are taken of numbers between 0
    and 1. *)
Lemma haversineA_range (lat1 lon1 lat2 lon2 : R) :
  (0 <= haversineA lat1 lon1 lat2 lon2 <= 1)%R.
Proof.
  unfold haversineA. cbv zeta. unfold Math.sin, Math.cos, Math.PI.
  set (p1 := (lat1 * PI / 180)%R). set (p2 := (lat2 * PI / 180)%R).
  set (y := ((lon2 - lon1) * PI / 180 / 2)%R).
  replace ((lat2 - lat1) * PI / 180 / 2)%R with ((p2 - p1) / 2)%R
    by (unfold p1, p2; lra).
  assert (Hhalf : (sin ((p2 - p1) / 2) * sin ((p2 - p1) / 2)
                   = (1 - cos (p2 - p1)) / 2)%R).
  { pose proof (cos_2a_sin ((p2 - p1) / 2)) as H.
    replace (2 * ((p2 - p1) / 2))%R with (p2 - p1)%R in H by lra. lra. }
  rewrite Hhalf, cos_minus.
  pose proof (sin2_cos2 p1) as H1. pose proof (sin2_cos2 p2) as H2.
  unfold Rsqr in H1, H2.
  assert (Hy : (0 <= sin y * sin y <= 1)%R).
  { pose proof (sin2_cos2 y) as H. unfold Rsqr in H.
    pose proof (Rle_0_sqr (sin y)) as A. pose proof (Rle_0_sqr (cos y)) as B.
    unfold Rsqr in A, B. lra. }
  set (h := (sin y * sin y)%R) in *.
  set (s1 := sin p1) in *. set (c1 := cos p1) in *.
  set (s2 := sin p2) in *. set (c2 := cos p2) in *.
  replace (c1 * c2 * sin y * sin y)%R with (c1 * c2 * h)%R by (unfold h; ring).
  clearbody h s1 c1 s2 c2.
  pose proof (Rle_0_sqr (s1 - s2)) as Q1.
  pose proof (Rle_0_sqr (s1 + s2)) as Q2.
  pose proof (Rle_0_sqr (c1 - c2)) as Q3.
  pose proof (Rle_0_sqr (c1 + c2)) as Q4.
  unfold Rsqr in Q1, Q2, Q3, Q4.
  destruct (Rle_dec 0 (c1 * c2)) as [Hc|Hc].
  - assert (0 <= c1 * c2 * h)%R by (apply Rmult_le_pos; lra).
    assert (0 <= c1 * c2 * (1 - h))%R by (apply Rmult_le_pos; lra).
    split; nra.
  - assert (0 <= - (c1 * c2) * h)%R by (apply Rmult_le_pos; lra).
    assert (0 <= - (c1 * c2) * (1 - h))%R by (apply Rmult_le_pos; lra).
    split; nra.
Qed.


(** C7.  The geodesic distance is symmetric: for all coordinates,
    [calculateDistance] from A to B equals [calculateDistance] from B to A. *)
Theorem calculateDistance_symmetric (lat1 lon1 lat2 lon2 : R) :
  calculateDistance lat1 lon1 lat2 lon2 = calculateDistance lat2 lon2 lat1 lon1.
Proof.
  unfold calculateDistance. cbv zeta. unfold Math.sin, Math.cos, Math.PI.
  assert (Hsq : forall d : R,
             (sin (- d * PI / 180 / 2) * sin (- d * PI / 180 / 2)
              = sin (d * PI / 180 / 2) * sin (d * PI / 180 / 2))%R).
  { intros d.
    replace (- d * PI / 180 / 2)%R with (- (d * PI / 180 / 2))%R by lra.
    rewrite sin_neg. ring. }
  replace (lat1 - lat2)%R with (- (lat2 - lat1))%R by ring.
  replace (lon1 - lon2)%R with (- (lon2 - lon1))%R by ring.
  rewrite (Rmult_assoc (cos (lat2 * PI / 180) * cos (lat1 * PI / 180))).
  rewrite (Rmult_assoc (cos (lat1 * PI / 180) * cos (lat2 * PI / 180))).
  rewrite !Hsq.
  rewrite (Rmult_comm (cos (lat2 * PI / 180)) (cos (lat1 * PI / 180))).
  reflexivity.
Qed.

(** ** Ranges kept by the loop *)

Lemma seeElevation_Ranges (p : TrackPoint) (s : Locals.t) :
  Ranges s -> Ranges (seeElevation p s).
Proof.
  intros [He Ht]. split.
  - unfold seeElevation. destruct (elevationOf (ele p)) as [e|]; [|exact He].
    right.
    destruct He as [[Hmin Hmax]|(lo & hi & Hmin & Hmax & Hle)];
      cbn [Locals.set_minElevation Locals.set_maxElevation
           Locals.minElevation Locals.maxElevation];
      rewrite Hmin, Hmax; cbn.
    + exists e, e. repeat split; lra.
    + exists (Rmin lo e), (Rmax hi e). repeat split.
      pose proof (Rmin_l lo e). pose proof (Rmax_l hi e). lra.
  - destruct (seeElevation_frame p s) as (_ & _ & _ & E1 & E2).
    unfold timeRange. rewrite E1, E2. exact Ht.
Qed.

Lemma seeTime_times (p : TrackPoint) (s : Locals.t) (t : Date) :
  time p = Some t ->
  Locals.startTime (seeTime p s)
  = match Locals.startTime s with
    | None => Some t
    | Some t0 => if Date_lt t t0 then Some t else Some t0
    end
  /\ Locals.endTime (seeTime p s)
     = match Locals.endTime s with
       | None => Some t
       | Some t1 => if Date_gt t t1 then Some t else Some t1
       end.
Proof.
  intros Hp. unfold seeTime. rewrite Hp.
  destruct (Locals.startTime s) as [t0|] eqn:Es;
    [destruct (Date_lt t t0)|];
    cbn [Locals.set_startTime Locals.startTime Locals.endTime];
    destruct (Locals.endTime s) as [t1|] eqn:Ee;
    try destruct (Date_gt t t1);
    cbn [Locals.set_startTime Locals.set_endTime Locals.startTime
         Locals.endTime];
    rewrite ?Es, ?Ee; split; reflexivity.
Qed.

Lemma seeTime_Ranges (p : TrackPoint) (s : Locals.t) :
  Ranges s -> Ranges (seeTime p s).
Proof.
  intros [He Ht]. split.
  - destruct (seeTime_frame p s) as (_ & _ & _ & E1 & E2).
    unfold elevationRange. rewrite E1, E2. exact He.
  - destruct (time p) as [t|] eqn:Hp;
      [|unfold seeTime; rewrite Hp; exact Ht].
    destruct (seeTime_times p s t Hp) as [E1 E2].
    unfold timeRange in *. rewrite E1, E2. unfold Date_gt, Date_lt.
    destruct (Locals.startTime s) as [[|t0]|],
             (Locals.endTime s) as [[|t1]|]; try contradiction.
    + destruct t; exact I.
    + destruct t as [|t]; [exact Ht|].
      destruct (Z.ltb_spec t t0), (Z.ltb_spec t1 t); lia.
    + destruct t; [exact I|lia].
Qed.

Lemma seePair_Ranges (q p : TrackPoint) (s : Locals.t) :
  Ranges s -> Ranges (seePair q p s).
Proof.
  destruct (seePair_frame q p s) as (E1 & E2 & E3 & E4).
  unfold Ranges, elevationRange, timeRange. rewrite E1, E2, E3, E4. trivial.
Qed.

Lemma walk_Ranges (pts : list TrackPoint) :
  forall prev s, Ranges s -> Ranges (walk prev pts s).
Proof.
  induction pts as [|p rest IH]; intros prev s H; [exact H|].
  cbn [walk]. apply IH.
  pose proof (seeTime_Ranges p _ (seeElevation_Ranges p s H)) as H'.
  destruct prev; [apply seePair_Ranges|]; exact H'.
Qed.

Lemma segments_Ranges (segs : list TrackSegment) :
  forall s, Ranges s -> Ranges (fold_left forSegment segs s).
Proof.
  induction segs as [|seg rest IH]; intros s H; [exact H|].
  cbn [fold_left]. apply IH. rewrite forSegment_walk. apply walk_Ranges, H.
Qed.

Lemma initialLocals_Ranges : Ranges initialLocals.
Proof. split; [left; split; reflexivity | exact I]. Qed.

(** ** Points without elevation, points without time *)

Lemma seeElevation_unseen (p : TrackPoint) (s : Locals.t) :
  elevationCarried (ele p) = None ->
  elevationUnseen s -> elevationUnseen (seeElevation p s).
Proof.
  intros Hp H. unfold seeElevation.
  destruct (ele p) as [| |e]; [exact H| |discriminate Hp].
  cbn [elevationOf]. right.
  assert (Hmin : Rmin 0 0 = 0%R) by (apply Rmin_left; lra).
  assert (Hmax : Rmax 0 0 = 0%R) by (apply Rmax_left; lra).
  destruct H as [[E1 E2]|[E1 E2]];
    cbn [Locals.set_minElevation Locals.set_maxElevation
         Locals.minElevation Locals.maxElevation];
    rewrite E1, E2; cbn [Math.min Math.max]; rewrite ?Hmin, ?Hmax;
    split; reflexivity.
Qed.

Lemma walk_elevationUnseen (pts : list TrackPoint) :
  Forall (fun p => elevationCarried (ele p) = None) pts ->
  forall prev s, elevationUnseen s -> elevationUnseen (walk prev pts s).
Proof.
  induction 1 as [|p rest Hp _ IH]; intros prev s H; [exact H|].
  cbn [walk]. apply IH. clear IH.
  assert (H' : elevationUnseen (seeTime p (seeElevation p s))).
  { destruct (seeTime_frame p (seeElevation p s)) as (_ & _ & _ & E1 & E2).
    unfold elevationUnseen. rewrite E1, E2.
    apply (seeElevation_unseen p s Hp H). }
  destruct prev as [q|]; [|exact H'].
  destruct (seePair_frame q p (seeTime p (seeElevation p s)))
    as (E1 & E2 & _).
  unfold elevationUnseen. rewrite E1, E2. exact H'.
Qed.

Lemma walk_timeUnseen (pts : list TrackPoint) :
  Forall (fun p => time p = None) pts ->
  forall prev s, timeUnseen s -> timeUnseen (walk prev pts s).
Proof.
  induction 1 as [|p rest Hp _ IH]; intros prev s H; [exact H|].
  cbn [walk]. apply IH. clear IH.
  assert (H' : timeUnseen (seeTime p (seeElevation p s))).
  { unfold seeTime. rewrite Hp.
    destruct (seeElevation_frame p s) as (_ & _ & _ & E1 & E2).
    unfold timeUnseen. rewrite E1, E2. exact H. }
  destruct prev as [q|]; [|exact H'].
  destruct (seePair_frame q p (seeTime p (seeElevation p s)))
    as (_ & _ & E3 & E4).
  unfold timeUnseen. rewrite E3, E4. exact H'.
Qed.

Lemma segments_elevationUnseen (segs : list TrackSegment) :
  noElevation segs ->
  forall s, elevationUnseen s -> elevationUnseen (fold_left forSegment segs s).
Proof.
  unfold noElevation, allPoints.
  induction segs as [|seg rest IH]; intros Hall s H; [exact H|].
  cbn [flat_map] in Hall. apply Forall_app in Hall as [Hseg Hrest].
  cbn [fold_left]. apply IH; [exact Hrest|].
  rewrite forSegment_walk. apply walk_elevationUnseen; assumption.
Qed.

Lemma segments_timeUnseen (segs : list TrackSegment) :
  noTime segs ->
  forall s, timeUnseen s -> timeUnseen (fold_left forSegment segs s).
Proof.
  unfold noTime, allPoints.
  induction segs as [|seg rest IH]; intros Hall s H; [exact H|].
  cbn [flat_map] in Hall. apply Forall_app in Hall as [Hseg Hrest].
  cbn [fold_left]. apply IH; [exact Hrest|].
  rewrite forSegment_walk. apply walk_timeUnseen; assumption.
Qed.

(** ** Sums over pairs of neighbours *)

Lemma Rsum_nonneg (l : list R) :
  Forall (fun x => (0 <= x)%R) l -> (0 <= Rsum l)%R.
Proof.
  induction 1 as [|x l Hx _ IH]; unfold Rsum in *; cbn; lra.
Qed.

Lemma Rsum_app (l1 l2 : list R) : Rsum (l1 ++ l2) = (Rsum l1 + Rsum l2)%R.
Proof.
  unfold Rsum. induction l1 as [|x l1 IH]; cbn; [lra|]. rewrite IH. lra.
Qed.

Lemma pairSum_nonneg (g : TrackPoint -> TrackPoint -> R) :
  (forall q p, (0 <= g q p)%R) ->
  forall pts, (0 <= pairSum g pts)%R.
Proof.
  intros Hg pts. unfold pairSum. apply Rsum_nonneg, Forall_map.
  apply Forall_forall. intros [q p] _. apply Hg.
Qed.

Lemma pairSum_few (g : TrackPoint -> TrackPoint -> R) (pts : list TrackPoint) :
  (List.length pts < 2)%nat -> pairSum g pts = 0%R.
Proof.
  destruct pts as [|p [|q rest]]; cbn; intros H; try reflexivity. lia.
Qed.

Lemma pairGain_nonneg (q p : TrackPoint) : (0 <= pairGain q p)%R.
Proof.
  unfold pairGain.
  destruct (elevationOf (ele q)) as [a|], (elevationOf (ele p)) as [b|];
    try lra.
  destruct (Rlt_dec 0 (b - a)); lra.
Qed.

Lemma pairLoss_nonneg (q p : TrackPoint) : (0 <= pairLoss q p)%R.
Proof.
  unfold pairLoss.
  destruct (elevationOf (ele q)) as [a|], (elevationOf (ele p)) as [b|];
    try lra.
  destruct (Rle_dec (b - a) 0); [apply Rabs_pos | lra].
Qed.

(** Between two points that carry no elevation value nothing is gained or
    lost, also when a [null] is read as 0. *)
Lemma pair_noElevation (q p : TrackPoint) :
  elevationCarried (ele q) = None -> elevationCarried (ele p) = None ->
  pairGain q p = 0%R /\ pairLoss q p = 0%R.
Proof.
  unfold pairGain, pairLoss.
  destruct (ele q) as [| |a]; try discriminate;
    destruct (ele p) as [| |b]; try discriminate; intros _ _;
    cbn [elevationOf]; try (split; reflexivity).
  destruct (Rlt_dec 0 (0 - 0)), (Rle_dec (0 - 0) 0); try lra.
  split; [reflexivity|]. replace (0 - 0)%R with 0%R by lra. apply Rabs_R0.
Qed.

Lemma pairSum_noElevation (g : TrackPoint -> TrackPoint -> R) :
  (forall q p, elevationCarried (ele q) = None ->
               elevationCarried (ele p) = None -> g q p = 0%R) ->
  forall pts, Forall (fun p => elevationCarried (ele p) = None) pts ->
              pairSum g pts = 0%R.
Proof.
  intros Hg pts Hall. unfold pairSum.
  induction Hall as [|q rest Hq Hrest IH]; [reflexivity|].
  destruct rest as [|p rest']; [reflexivity|].
  cbn [adjacentPairs map Rsum fold_right fst snd] in *.
  rewrite Hg by (try assumption; inversion Hrest; assumption).
  unfold Rsum in IH. rewrite IH. lra.
Qed.

Lemma segmentSum_zero (g : TrackPoint -> TrackPoint -> R)
  (segs : list TrackSegment) :
  Forall (fun seg => pairSum g (points seg) = 0%R) segs ->
  Rsum (map (fun seg => pairSum g (points seg)) segs) = 0%R.
Proof.
  induction 1 as [|seg rest Hseg _ IH]; cbn; [reflexivity|].
  unfold Rsum in IH. rewrite Hseg, IH. lra.
Qed.

Lemma noElevation_segments (segs : list TrackSegment) :
  noElevation segs ->
  Forall (fun seg => Forall (fun p => elevationCarried (ele p) = None)
                           (points seg)) segs.
Proof.
  unfold noElevation, allPoints.
  induction segs as [|seg rest IH]; intros H; constructor;
    cbn [flat_map] in H; apply Forall_app in H as [H1 H2]; auto.
Qed.

(** The three sums of [calculateTrackStats], as sums over the segments. *)
Lemma stats_sums (segs : list TrackSegment) :
  distance (calculateTrackStats segs)
  = Rsum (map (fun seg => pairSum haversine (points seg)) segs)
  /\ elevationGain (calculateTrackStats segs)
     = Rsum (map (fun seg => pairSum pairGain (points seg)) segs)
  /\ elevationLoss (calculateTrackStats segs)
     = Rsum (map (fun seg => pairSum pairLoss (points seg)) segs).
Proof.
  rewrite totalDistance_spec, elevationGain_sum, elevationLoss_sum.
  repeat split; reflexivity.
Qed.

Lemma atan2_pos (y x : R) : (0 < y)%R -> (0 < Math.atan2 y x)%R.
Proof.
  intros Hy. unfold Math.atan2.
  pose proof PI_RGT_0 as Hpi.
  destruct (Rlt_dec 0 x) as [Hx|Hx].
  - rewrite <- atan_0. apply atan_increasing. apply Rdiv_lt_0_compat; lra.
  - destruct (Rlt_dec x 0) as [Hx'|Hx'].
    + destruct (Rle_dec 0 y) as [_|Hn]; [|lra].
      pose proof (atan_bound (y / x)). lra.
    + destruct (Rlt_dec 0 y); lra.
Qed.

(** One degree of longitude on the equator is a positive distance. *)
Lemma calculateDistance_equator_degree :
  (0 < calculateDistance 0 0 0 1)%R.
Proof.
  unfold calculateDistance. cbv zeta.
  unfold Math.sin, Math.cos, Math.sqrt, Math.PI.
  pose proof PI_RGT_0 as Hpi.
  apply Rmult_lt_0_compat; [lra|].
  apply Rmult_lt_0_compat; [lra|].
  apply atan2_pos, sqrt_lt_R0.
  replace ((0 - 0) * PI / 180 / 2)%R with 0%R by lra.
  replace (0 * PI / 180)%R with 0%R by lra.
  rewrite sin_0, cos_0.
  assert (Hs : (0 < sin ((1 - 0) * PI / 180 / 2))%R)
    by (apply sin_gt_0; lra).
  nra.
Qed.

(* ================================================================== *)
(** ** Track statistics: the claims *)




Lemma adjacentPairs_In {A : Type} (l : list A) (a b : A) :
  In (a, b) (adjacentPairs l) -> In a l /\ In b l.
Proof.
  induction l as [|x l IH]; [contradiction|].
  destruct l as [|y l']; [contradiction|].
  cbn [adjacentPairs]. intros [H|H].
  - injection H as -> ->. split; [left | right; left]; reflexivity.
  - destruct (IH H) as [Ha Hb]. split; right; assumption.
Qed.

(** Where no [ele] field is [null], the pairs that the code counts are the
    pairs that both carry an elevation value. *)
Lemma pair_noNull (q p : TrackPoint) :
  ele q <> null -> ele p <> null ->
  pairGain q p = spec_pairGain q p /\ pairLoss q p = spec_pairLoss q p.
Proof.
  unfold pairGain, pairLoss, spec_pairGain, spec_pairLoss.
  destruct (ele q) as [| |a], (ele p) as [| |b]; intros Hq Hp;
    try contradiction; split; reflexivity.
Qed.

(** C2, on the code.  Elevation gain and loss are the sums, over the pairs
    of neighbours within a segment whose [ele] fields are both other than
    [undefined], of the strictly positive delta (current minus previous),
    resp. of the absolute value of the negative or zero delta.  Where no
    [ele] field is [null], these are the pairs of which both points carry an
    elevation value, as the claim has it; in particular one segment of three
    points with elevations 100, 150, 120 (whatever their coordinates and
    times) has gain 50 and loss 30.  A [null], which is what the parser
    library stores for a point without elevation, passes the test and is read
    as 0: a point of elevation 100 followed by a point without elevation adds
    100 to the loss and makes the minimum elevation 0, where the claim has
    nothing accumulated over that pair. *)
Theorem elevation_gain_loss (segs : list TrackSegment) :
  elevationGain (calculateTrackStats segs)
  = Rsum (map (fun seg => pairSum pairGain (points seg)) segs)
  /\ elevationLoss (calculateTrackStats segs)
     = Rsum (map (fun seg => pairSum pairLoss (points seg)) segs)
  /\ (Forall (fun p => ele p <> null) (allPoints segs) ->
      elevationGain (calculateTrackStats segs) = spec_elevationGain segs
      /\ elevationLoss (calculateTrackStats segs) = spec_elevationLoss segs)
  /\ (forall (la1 lo1 la2 lo2 la3 lo3 : R) (t1 t2 t3 : option Date),
        let track :=
          [ {| points := [mkTrackPoint la1 lo1 (Ele 100) t1;
                          mkTrackPoint la2 lo2 (Ele 150) t2;
                          mkTrackPoint la3 lo3 (Ele 120) t3] |} ] in
        elevationGain (calculateTrackStats track) = 50%R
        /\ elevationLoss (calculateTrackStats track) = 30%R)
  /\ (forall (la1 lo1 la2 lo2 : R) (t1 t2 : option Date),
        let track :=
          [ {| points := [mkTrackPoint la1 lo1 (Ele 100) t1;
                          mkTrackPoint la2 lo2 null t2] |} ] in
        elevationGain (calculateTrackStats track) = 0%R
        /\ elevationLoss (calculateTrackStats track) = 100%R
        /\ spec_elevationLoss track = 0%R
        /\ minElevation (calculateTrackStats track) = Num 0).
Proof.
  split; [apply elevationGain_sum|]. split; [apply elevationLoss_sum|].
  split; [|split].
  - intros Hall. rewrite elevationGain_sum, elevationLoss_sum.
    unfold spec_elevationGain, spec_elevationLoss.
    assert (Hpair : forall seg q p,
               In seg segs -> In (q, p) (adjacentPairs (points seg)) ->
               pairGain q p = spec_pairGain q p
               /\ pairLoss q p = spec_pairLoss q p).
    { intros seg q p Hseg Hqp. apply adjacentPairs_In in Hqp as [Hq Hp].
      rewrite Forall_forall in Hall.
      apply pair_noNull; apply Hall; unfold allPoints; apply in_flat_map;
        exists seg; split; assumption. }
    split; f_equal; apply map_ext_in; intros seg Hseg; unfold pairSum;
      f_equal; apply map_ext_in; intros [q p] Hqp;
      apply (Hpair seg q p Hseg Hqp).
  - intros. subst track. rewrite elevationGain_sum, elevationLoss_sum.
    unfold pairSum, pairGain, pairLoss. cbn.
    destruct (Rlt_dec 0 (150 - 100)), (Rlt_dec 0 (120 - 150)),
      (Rle_dec (150 - 100) 0), (Rle_dec (120 - 150) 0); try lra.
    rewrite Rabs_left by lra. lra.
  - intros. subst track. split; [|split; [|split]].
    + rewrite elevationGain_sum. unfold pairSum, pairGain. cbn.
      destruct (Rlt_dec 0 (0 - 100)); lra.
    + rewrite elevationLoss_sum. unfold pairSum, pairLoss. cbn.
      destruct (Rle_dec (0 - 100) 0); [|lra].
      rewrite Rabs_left by lra. lra.
    + unfold spec_elevationLoss, spec_pairLoss. cbn. lra.
    + unfold calculateTrackStats. cbn [minElevation fold_left].
      rewrite forSegment_walk. cbn [points walk].
      set (p1 := mkTrackPoint la1 lo1 (Ele 100) t1).
      set (p2 := mkTrackPoint la2 lo2 null t2).
      destruct (seePair_frame p1 p2
                  (seeTime p2 (seeElevation p2
                     (seeTime p1 (seeElevation p1 initialLocals)))))
        as (E & _).
      rewrite E.
      destruct (seeTime_frame p2
                  (seeElevation p2
                     (seeTime p1 (seeElevation p1 initialLocals))))
        as (_ & _ & _ & E' & _).
      rewrite E'. unfold seeElevation at 1. unfold p2 at 1.
      cbn [ele elevationOf].
      cbn [Locals.set_minElevation Locals.set_maxElevation
           Locals.minElevation].
      destruct (seeTime_frame p1 (seeElevation p1 initialLocals))
        as (_ & _ & _ & E'' & _).
      rewrite E''. unfold p1. cbn. rewrite Rmin_right by lra. reflexivity.
Qed.

(** C6.  The total distance is the sum, over each segment on its own, of
    the haversine distances between consecutive points of that segment;
    nothing is added between the last point of a segment and the first point
    of the next: the distance of two segment lists put end to end is the sum
    of their distances, and a segment of fewer than 2 points adds nothing. *)
Theorem distance_per_segment (segs : list TrackSegment) :
  distance (calculateTrackStats segs) = spec_totalDistance segs
  /\ (forall segs' : list TrackSegment,
        distance (calculateTrackStats (segs ++ segs'))
        = (distance (calculateTrackStats segs)
           + distance (calculateTrackStats segs'))%R)
  /\ (forall p q : TrackPoint,
        distance (calculateTrackStats
                    (segs ++ [ {| points := [p] |}; {| points := [q] |} ]))
        = distance (calculateTrackStats segs)).
Proof.
  split; [apply totalDistance_spec|].
  split; intros; rewrite !totalDistance_spec; unfold spec_totalDistance;
    rewrite map_app, Rsum_app.
  - reflexivity.
  - unfold spec_segmentDistance. cbn. lra.
Qed.

(** ** The sign of the distance in binary64 *)

Lemma notNegative_spec (x : float) :
  Binary64.notNegative x = Binary64.specNotNegative (Prim2SF x).
Proof.
  unfold Binary64.notNegative, is_nan. rewrite eqb_spec, leb_spec.
  change (Prim2SF 0) with (S754_zero false).
  destruct (Prim2SF x) as [s|s| |s m e]; cbn.
  - reflexivity.
  - destruct s; reflexivity.
  - reflexivity.
  - unfold SFeqb, SFleb. cbn. rewrite Z.compare_refl, Pos.compare_cont_refl.
    destruct s; reflexivity.
Qed.

Lemma binary_round_aux_sign (prec emax : Z) (sx : bool) (mx ex : Z)
  (lx : SpecFloat.location) :
  match binary_round_aux prec emax sx mx ex lx with
  | S754_zero s | S754_infinity s | S754_finite s _ _ => s = sx
  | S754_nan => True
  end.
Proof.
  unfold binary_round_aux.
  destruct (shr_fexp prec emax mx ex lx) as [mrs' e'].
  destruct (shr_fexp prec emax _ e' loc_Exact) as [mrs'' e''].
  destruct (shr_m mrs'') as [|m|m]; [reflexivity| |exact I].
  destruct (Z.leb e'' (emax - prec)); reflexivity.
Qed.

Lemma binary_round_aux_notNegative (mx ex : Z) (lx : SpecFloat.location) :
  Binary64.specNotNegative (binary_round_aux prec emax false mx ex lx) = true.
Proof.
  pose proof (binary_round_aux_sign prec emax false mx ex lx) as H.
  destruct (binary_round_aux prec emax false mx ex lx); cbn; try reflexivity;
    rewrite H; reflexivity.
Qed.

Lemma sqrt_notNegative (x : float) : Binary64.notNegative (PrimFloat.sqrt x) = true.
Proof.
  rewrite notNegative_spec, sqrt_spec. unfold SF64sqrt, SFsqrt.
  destruct (Prim2SF x) as [s|s| |s m e]; try reflexivity.
  - destruct s; reflexivity.
  - destruct s; [reflexivity|].
    destruct (SFsqrt_core_binary prec emax (Z.pos m) e) as [[mz ez] lz].
    apply binary_round_aux_notNegative.
Qed.

(** The square root is -0 only of -0. *)
Lemma sqrt_negative_zero (x : float) :
  Prim2SF (PrimFloat.sqrt x) = S754_zero true -> x = (- 0)%float.
Proof.
  rewrite sqrt_spec. unfold SF64sqrt, SFsqrt. intros H.
  apply Prim2SF_inj. change (Prim2SF (- 0)) with (S754_zero true).
  destruct (Prim2SF x) as [s|s| |s m e].
  - exact H.
  - destruct s; discriminate H.
  - discriminate H.
  - destruct s; [discriminate H|].
    destruct (SFsqrt_core_binary prec emax (Z.pos m) e) as [[mz ez] lz].
    pose proof (binary_round_aux_sign prec emax false mz ez lz) as Hs.
    rewrite H in Hs. discriminate Hs.
Qed.

Lemma mul_notNegative (c x : float) :
  (exists m e, Prim2SF c = S754_finite false m e) ->
  Binary64.notNegative x = true -> Binary64.notNegative (c * x) = true.
Proof.
  intros (m & e & Hc). rewrite !notNegative_spec, mul_spec, Hc.
  unfold SF64mul, SFmul.
  destruct (Prim2SF x) as [s|s| |s mx ex]; cbn [Binary64.specNotNegative xorb];
    intros H; try reflexivity; try exact H.
  destruct s; [discriminate H|].
  apply binary_round_aux_notNegative.
Qed.

Lemma add_notNegative (x y : float) :
  Binary64.notNegative x = true -> Binary64.notNegative y = true ->
  Binary64.notNegative (x + y) = true.
Proof.
  rewrite !notNegative_spec, add_spec. unfold SF64add, SFadd.
  destruct (Prim2SF x) as [sx|sx| |sx mx ex],
           (Prim2SF y) as [sy|sy| |sy my ey]; cbn; intros Hx Hy;
    try reflexivity; try assumption;
    try (destruct sx; try discriminate Hx);
    try (destruct sy; try discriminate Hy); try reflexivity.
  unfold binary_normalize, binary_round, cond_Zopp.
  destruct (shl_align mx ex (IntDef.Z.min ex ey)) as [mx' ex'].
  destruct (shl_align my ey (IntDef.Z.min ex ey)) as [my' ey'].
  cbn [fst Z.add].
  destruct (shl_align _ _ _) as [mz ez].
  apply binary_round_aux_notNegative.
Qed.

Section HostSign.

Variable sin cos : float -> float.
Variable atan2 : float -> float -> float.

(** What is assumed of the host's [Math.atan2]: it is not negative, or is
    NaN, when its first argument is not negative or is NaN.  The language
    fixes the exact cases (a NaN argument: NaN; [y = +0]: [+0] or [+PI];
    [y = -0] and [x > 0]: [-0]) and leaves the others to the approximation
    of an angle between 0 and [PI].  For [y = -0] and [x] not positive
    [atan2] is [-PI]: that case is set apart. *)
Hypothesis atan2_sign :
  forall y x : float,
    Binary64.notNegative y = true ->
    (y = (- 0)%float -> (0 <? x)%float = true) ->
    Binary64.notNegative (atan2 y x) = true.

Lemma calculateDistance_notNegative (lat1 lon1 lat2 lon2 : float) :
  Binary64.notNegative
    (Binary64.calculateDistance sin cos atan2 lat1 lon1 lat2 lon2) = true.
Proof.
  unfold Binary64.calculateDistance. cbv zeta.
  apply mul_notNegative; [eexists; eexists; reflexivity|].
  apply mul_notNegative; [eexists; eexists; reflexivity|].
  apply atan2_sign; [apply sqrt_notNegative|].
  intros E.
  assert (Ha : Binary64.haversineA sin cos lat1 lon1 lat2 lon2 = (- 0)%float).
  { apply sqrt_negative_zero. rewrite E. reflexivity. }
  rewrite Ha. reflexivity.
Qed.

Lemma walkDistance_notNegative (pts : list (float * float)) :
  forall prev d,
    Binary64.notNegative d = true ->
    Binary64.notNegative (Binary64.walkDistance sin cos atan2 prev pts d) = true.
Proof.
  induction pts as [|p rest IH]; intros prev d Hd; [exact Hd|].
  cbn [Binary64.walkDistance]. apply IH. destruct prev as [q|]; [|exact Hd].
  apply add_notNegative; [exact Hd|apply calculateDistance_notNegative].
Qed.

Lemma totalDistance_notNegative (segments : list (list (float * float))) :
  Binary64.notNegative (Binary64.totalDistance sin cos atan2 segments) = true.
Proof.
  unfold Binary64.totalDistance.
  assert (H : forall d, Binary64.notNegative d = true ->
              Binary64.notNegative (fold_left (fun d segment =>
                                        Binary64.walkDistance sin cos atan2 None
                                                     segment d)
                                     segments d) = true).
  { induction segments as [|seg rest IH]; intros d Hd; [exact Hd|].
    cbn [fold_left]. apply IH, walkDistance_notNegative, Hd. }
  apply H. reflexivity.
Qed.

End HostSign.




(* ================================================================== *)
(** ** The normalizer *)

Lemma mapiFrom_ext {A B : Type} (f g : nat -> A -> B) (l : list A) :
  forall i, (forall j x, f j x = g j x) -> mapiFrom i f l = mapiFrom i g l.
Proof.
  induction l as [|x l IH]; intros i H; cbn; [reflexivity|].
  rewrite H, (IH (S i) H). reflexivity.
Qed.

Lemma mapiFrom_shift {A B : Type} (f : nat -> A -> B) (l : list A) :
  forall i, mapiFrom (S i) f l = mapiFrom i (fun j => f (S j)) l.
Proof.
  induction l as [|x l IH]; intros i; cbn; [reflexivity|].
  rewrite IH. reflexivity.
Qed.

Lemma mapiFrom_length {A B : Type} (f : nat -> A -> B) (l : list A) :
  forall i, List.length (mapiFrom i f l) = List.length l.
Proof.
  induction l as [|x l IH]; intros i; cbn; [reflexivity|].
  rewrite IH. reflexivity.
Qed.

(** A [forEach] whose callback pushes one object per element. *)
Lemma forEachFrom_push {A B : Type} (make : nat -> A -> nat -> B)
  (l : list A) :
  forall i acc,
    forEachFrom i (fun acc x index => acc ++ [make (List.length acc) x index])
                l acc
    = acc ++ mapiFrom 0 (fun j x =>
                           make (List.length acc + j)%nat x (i + j)%nat) l.
Proof.
  induction l as [|x l IH]; intros i acc; cbn [forEachFrom mapiFrom].
  - rewrite app_nil_r. reflexivity.
  - rewrite IH, <- app_assoc. cbn [app]. f_equal. f_equal.
    + rewrite !Nat.add_0_r. reflexivity.
    + rewrite mapiFrom_shift. apply mapiFrom_ext. intros j y.
      rewrite length_app. cbn [List.length].
      f_equal; lia.
Qed.

Lemma forEach_nonempty_guard {A St : Type} (f : St -> A -> nat -> St)
  (o : option (list A)) (s : St) :
  match o with
  | Some ((_ :: _) as l) => forEach f l s
  | _ => s
  end = forEach f (orEmpty o) s.
Proof. destruct o as [[|x l]|]; reflexivity. Qed.

Section NormalizerFacts.

Variable newDate : string -> Date.
Variable dateNow : nat -> N.

Lemma normalize_eq (gpx : GPXParserInstance.t) (fileName : option string) :
  normalize newDate dateNow gpx fileName
  = let tracks := emittedTracks newDate dateNow fileName gpx
                  ++ emittedRoutes dateNow gpx
                  ++ emittedWaypoints dateNow fileName gpx in
    if (List.length tracks =? 0)%nat
    then Throw NoGeometryFound
    else Return tracks.
Proof.
  unfold normalize. cbv zeta.
  rewrite (forEach_nonempty_guard (addTrack newDate dateNow fileName)).
  rewrite (forEach_nonempty_guard (addRoute dateNow)).
  unfold forEach, addTrack, addRoute.
  rewrite (forEachFrom_push
             (fun now x index =>
                trackOfTrack newDate fileName (dateNow now) x index)).
  cbn [app List.length Nat.add].
  fold (emittedTracks newDate dateNow fileName gpx).
  rewrite (forEachFrom_push
             (fun now x index => trackOfRoute (dateNow now) x index)).
  cbn [Nat.add].
  assert (Hlen : List.length (emittedTracks newDate dateNow fileName gpx)
                 = List.length (orEmpty (GPXParserInstance.tracks gpx)))
    by apply mapiFrom_length.
  rewrite Hlen. fold (emittedRoutes dateNow gpx).
  unfold emittedWaypoints.
  destruct (GPXParserInstance.waypoints gpx) as [[|w ws]|]; cbn [orEmpty];
    rewrite ?app_nil_r; try reflexivity.
  unfold emittedTracks, emittedRoutes, addWaypoints.
  destruct (orEmpty (GPXParserInstance.tracks gpx)) as [|t ts];
    destruct (orEmpty (GPXParserInstance.routes gpx)) as [|r rs];
    cbn [mapiFrom app List.length Nat.eqb]; rewrite ?app_nil_r; reflexivity.
Qed.

End NormalizerFacts.

Lemma forEachFrom_pushPoint0 {A : Type} (conv : A -> TrackPoint) (l : list A) :
  forall i pre,
    forEachFrom i (fun segments x (_ : nat) => pushPoint 0 (conv x) segments)
                l [ {| points := pre |} ]
    = [ {| points := pre ++ map conv l |} ].
Proof.
  induction l as [|x l IH]; intros i pre; cbn [forEachFrom map].
  - rewrite app_nil_r. reflexivity.
  - cbn [pushPoint points]. rewrite IH, <- app_assoc. reflexivity.
Qed.

Section NormalizerClaims.

Variable newDate : string -> Date.
Variable dateNow : nat -> N.

Lemma trackOfWaypoints_segments (fileName : option string) (now : N)
  (waypoints : list GPXWaypoint.t) :
  segments (trackOfWaypoints fileName now waypoints)
  = [ {| points := map trackPointOfWaypoint waypoints |} ].
Proof.
  unfold trackOfWaypoints. cbn [segments]. unfold forEach.
  apply (forEachFrom_pushPoint0 trackPointOfWaypoint).
Qed.

Lemma normalize_Return (gpx : GPXParserInstance.t)
  (fileName : option string) (ts : list Track) :
  normalize newDate dateNow gpx fileName = Return ts ->
  ts = emittedTracks newDate dateNow fileName gpx
       ++ emittedRoutes dateNow gpx
       ++ emittedWaypoints dateNow fileName gpx.
Proof.
  rewrite normalize_eq. cbv zeta.
  destruct (List.length _ =? 0)%nat; [discriminate|].
  intros H. injection H as <-. reflexivity.
Qed.

(** C3, as amended.  For every parsed GPX document that contains
    waypoints and from which no Track was emitted by step 1 and none by
    step 2 (no source tracks and no routes), the normalizer returns exactly
    one Track: the synthetic one, holding all the waypoints as a single
    segment, named after the source filename when available and
    "Waypoints" otherwise. *)
Theorem waypoints_only_document (gpx : GPXParserInstance.t)
  (fileName : option string) (w : GPXWaypoint.t) (ws : list GPXWaypoint.t) :
  GPXParserInstance.waypoints gpx = Some (w :: ws) ->
  orEmpty (GPXParserInstance.tracks gpx) = [] ->
  orEmpty (GPXParserInstance.routes gpx) = [] ->
  exists t : Track,
    normalize newDate dateNow gpx fileName = Return [t]
    /\ name t = orElse fileName "Waypoints"
    /\ segments t = [ {| points := map trackPointOfWaypoint (w :: ws) |} ].
Proof.
  intros Hw Ht Hr.
  exists (trackOfWaypoints fileName (dateNow 0) (w :: ws)).
  split; [|split].
  - rewrite normalize_eq.
    unfold emittedTracks, emittedRoutes, emittedWaypoints.
    rewrite Hw, Ht, Hr. reflexivity.
  - reflexivity.
  - apply trackOfWaypoints_segments.
Qed.

(** C4.  For every parsed GPX document with zero tracks, zero routes and
    zero waypoints (each list absent or empty), the normalizer throws the
    NoGeometryFound error, and so returns no Track list at all; the same
    holds of [parseGPXString] whenever the parser is available. *)
Theorem no_geometry_found (gpx : GPXParserInstance.t)
  (fileName : option string) :
  orEmpty (GPXParserInstance.tracks gpx) = [] ->
  orEmpty (GPXParserInstance.routes gpx) = [] ->
  orEmpty (GPXParserInstance.waypoints gpx) = [] ->
  normalize newDate dateNow gpx fileName = Throw NoGeometryFound
  /\ (forall ts, normalize newDate dateNow gpx fileName <> Return ts)
  /\ (forall parse gpxText,
        parse gpxText = gpx ->
        parseGPXString newDate dateNow (Some parse) gpxText fileName
        = Throw NoGeometryFound).
Proof.
  intros Ht Hr Hw.
  assert (E : normalize newDate dateNow gpx fileName = Throw NoGeometryFound).
  { rewrite normalize_eq.
    unfold emittedTracks, emittedRoutes, emittedWaypoints.
    rewrite Ht, Hr, Hw. reflexivity. }
  split; [exact E|]. split.
  - intros ts. rewrite E. discriminate.
  - intros parse gpxText <-. exact E.
Qed.

End NormalizerClaims.

(** Witness for C3 as amended: two waypoints, no filename. *)
Lemma waypoints_only_document_witness :
  exists t : Track,
    normalize sampleNewDate sampleClock waypointsDocument None = Return [t]
    /\ name t = "Waypoints"
    /\ List.length (segments t) = 1%nat.
Proof.
  destruct (waypoints_only_document sampleNewDate sampleClock
              waypointsDocument None
              (GPXWaypoint.mk 46 7 (Ele 1500) (Some "hut"))
              [GPXWaypoint.mk 47 8 undefined None]
              eq_refl eq_refl eq_refl)
    as (t & Hret & Hname & Hseg).
  exists t. split; [exact Hret|]. split; [exact Hname|].
  rewrite Hseg. reflexivity.
Defined.

(** C3, as stated, fails: a document with one route and one waypoint and no
    source track yields the route's Track only; no Track is made of the
    waypoints. *)
Lemma waypoints_only_document_counterexample :
  ~ (forall (gpx : GPXParserInstance.t) (fileName : option string)
            (w : GPXWaypoint.t) (ws : list GPXWaypoint.t),
        GPXParserInstance.waypoints gpx = Some (w :: ws) ->
        orEmpty (GPXParserInstance.tracks gpx) = [] ->
        exists (ts : list Track) (t : Track),
          normalize sampleNewDate sampleClock gpx fileName = Return ts
          /\ In t ts
          /\ name t = orElse fileName "Waypoints"
          /\ segments t
             = [ {| points := map trackPointOfWaypoint (w :: ws) |} ])
  /\ (exists t : Track,
        normalize sampleNewDate sampleClock routeAndWaypointDocument None
        = Return [t]
        /\ name t = "Route 1"
        /\ segments t = [ {| points := [mkTrackPoint 1 1 undefined None] |} ]).
Proof.
  split; [|eexists; split; [reflexivity|split; reflexivity]].
  intros H.
  destruct (H routeAndWaypointDocument None (GPXWaypoint.mk 2 2 undefined None) []
              eq_refl eq_refl) as (ts & t & Hret & Hin & Hname & _).
  apply normalize_Return in Hret. subst ts.
  cbn [emittedTracks emittedRoutes emittedWaypoints routeAndWaypointDocument
       GPXParserInstance.tracks GPXParserInstance.routes
       GPXParserInstance.waypoints orEmpty mapiFrom app List.length] in Hin.
  destruct Hin as [<-|[]].
  cbv in Hname. discriminate Hname.
Qed.

(** Witness for C4: the document whose route list is empty and whose other
    lists are absent. *)
Lemma no_geometry_found_witness :
  normalize sampleNewDate sampleClock emptyDocument (Some "empty.gpx")
  = Throw NoGeometryFound.
Proof.
  exact (proj1 (no_geometry_found sampleNewDate sampleClock emptyDocument
                  (Some "empty.gpx") eq_refl eq_refl eq_refl)).
Defined.

Lemma mapiFrom_In {A B : Type} (f : nat -> A -> B) (l : list A) (y : B) :
  forall i, In y (mapiFrom i f l) ->
            exists j x, nth_error l j = Some x /\ y = f (i + j)%nat x.
Proof.
  induction l as [|x l IH]; intros i H; cbn in H; [contradiction|].
  destruct H as [<-|H].
  - exists 0%nat, x. rewrite Nat.add_0_r. split; reflexivity.
  - destruct (IH _ H) as (j & x' & Hj & ->).
    exists (S j), x'. split; [exact Hj|]. f_equal. lia.
Qed.

Lemma mapiFrom_nth {A B : Type} (f : nat -> A -> B) (l : list A) :
  forall i j, nth_error (mapiFrom i f l) j
              = option_map (f (i + j)%nat) (nth_error l j).
Proof.
  induction l as [|x l IH]; intros i j.
  - destruct j; reflexivity.
  - destruct j as [|j]; cbn.
    + rewrite Nat.add_0_r. reflexivity.
    + rewrite IH. replace (S i + j)%nat with (i + S j)%nat by lia.
      reflexivity.
Qed.

Section NameResolution.

Variable newDate : string -> Date.
Variable dateNow : nat -> N.

(** C5, as amended.  Every Track returned by the normalizer is named by
    the source it was made from, and the Tracks come in the order of their
    sources.  The Track at position [i] among those of the source tracks is
    made from the [i]-th source track and has that track's own name when
    present (non-empty), else the uploaded filename when available, else
    "Track N".  The Track at position [j] after them is made from the
    [j]-th route and has the route's own name when present, and "Route N"
    when the route has no name and no filename is available.  When there is
    neither a source track nor a route, the one Track returned is made from
    the waypoints and has the uploaded filename when available, else
    "Waypoints".  Conversely every source track and every route has its
    Track at that position. *)
Theorem emitted_track_names (gpx : GPXParserInstance.t)
  (fileName : option string) (ts : list Track) :
  normalize newDate dateNow gpx fileName = Return ts ->
  let tracks := orEmpty (GPXParserInstance.tracks gpx) in
  let routes := orEmpty (GPXParserInstance.routes gpx) in
  (forall (i : nat) (t : Track),
      nth_error ts i = Some t ->
      (exists gpxTrack,
          nth_error tracks i = Some gpxTrack
          /\ name t = spec_resolvedName (GPXTrack.name gpxTrack) fileName
                        (ordinalLabel "Track" i))
      \/ (exists j route,
             i = (List.length tracks + j)%nat
             /\ nth_error routes j = Some route
             /\ (truthy (GPXRoute.name route) <> None
                 \/ truthy fileName = None ->
                 name t = spec_resolvedName (GPXRoute.name route) fileName
                            (ordinalLabel "Route" j)))
      \/ (tracks = [] /\ routes = [] /\ ts = [t]
          /\ name t = orElse fileName "Waypoints"))
  /\ (forall (i : nat) (gpxTrack : GPXTrack.t),
        nth_error tracks i = Some gpxTrack ->
        exists t, nth_error ts i = Some t
                  /\ name t = spec_resolvedName (GPXTrack.name gpxTrack)
                                fileName (ordinalLabel "Track" i))
  /\ (forall (j : nat) (route : GPXRoute.t),
        nth_error routes j = Some route ->
        exists t, nth_error ts (List.length tracks + j) = Some t
                  /\ (truthy (GPXRoute.name route) <> None
                      \/ truthy fileName = None ->
                      name t = spec_resolvedName (GPXRoute.name route)
                                 fileName (ordinalLabel "Route" j))).
Proof.
  intros Hret tracks routes. apply normalize_Return in Hret. subst ts.
  assert (Hlen : List.length (emittedTracks newDate dateNow fileName gpx)
                 = List.length tracks) by apply mapiFrom_length.
  assert (Hlen' : List.length (emittedRoutes dateNow gpx)
                  = List.length routes) by apply mapiFrom_length.
  assert (Htrack : forall i,
             nth_error (emittedTracks newDate dateNow fileName gpx) i
             = option_map (fun gpxTrack =>
                             trackOfTrack newDate fileName (dateNow i)
                                          gpxTrack i)
                          (nth_error tracks i)).
  { intros i. unfold emittedTracks. rewrite mapiFrom_nth. reflexivity. }
  assert (Hroute : forall j,
             nth_error (emittedRoutes dateNow gpx) j
             = option_map (fun route =>
                             trackOfRoute
                               (dateNow (List.length tracks + j)) route j)
                          (nth_error routes j)).
  { intros j. unfold emittedRoutes. rewrite mapiFrom_nth. reflexivity. }
  assert (Hname : forall now route j,
             truthy (GPXRoute.name route) <> None \/ truthy fileName = None ->
             name (trackOfRoute now route j)
             = spec_resolvedName (GPXRoute.name route) fileName
                                 (ordinalLabel "Route" j)).
  { intros now route j Hcase. cbn [trackOfRoute name].
    unfold spec_resolvedName, orElse, ordinalLabel.
    destruct (truthy (GPXRoute.name route)) as [n|]; [reflexivity|].
    destruct Hcase as [Hn|Hf]; [congruence|].
    rewrite Hf. reflexivity. }
  split; [|split].
  - intros i t Hi.
    destruct (Nat.lt_ge_cases i (List.length tracks)) as [Hlt|Hge].
    + left. rewrite nth_error_app1 in Hi by (rewrite Hlen; exact Hlt).
      rewrite Htrack in Hi.
      destruct (nth_error tracks i) as [gpxTrack|]; [|discriminate Hi].
      injection Hi as <-. exists gpxTrack. split; reflexivity.
    + right. rewrite nth_error_app2 in Hi by (rewrite Hlen; exact Hge).
      rewrite Hlen in Hi. set (j := (i - List.length tracks)%nat) in *.
      destruct (Nat.lt_ge_cases j (List.length routes)) as [Hlt|Hge'].
      * left. rewrite nth_error_app1 in Hi by (rewrite Hlen'; exact Hlt).
        rewrite Hroute in Hi.
        destruct (nth_error routes j) as [route|] eqn:Ej;
          [|discriminate Hi].
        injection Hi as <-. exists j, route.
        split; [unfold j; lia|]. split; [exact Ej|]. apply Hname.
      * right. rewrite nth_error_app2 in Hi by (rewrite Hlen'; exact Hge').
        assert (Hnil : forall k : nat, nth_error (@nil Track) k = None)
          by (intros [|k]; reflexivity).
        unfold emittedWaypoints, emittedTracks, emittedRoutes in *.
        clear Htrack Hroute. subst j. unfold tracks, routes in *.
        destruct (orEmpty (GPXParserInstance.waypoints gpx)) as [|w ws];
          [rewrite Hnil in Hi; discriminate Hi|].
        destruct (orEmpty (GPXParserInstance.tracks gpx)) as [|tr trs];
          [|rewrite Hnil in Hi; discriminate Hi].
        destruct (orEmpty (GPXParserInstance.routes gpx)) as [|r rs];
          [|rewrite Hnil in Hi; discriminate Hi].
        cbn [mapiFrom app List.length] in *.
        destruct (i - 0 - 0)%nat as [|k];
          [|cbn in Hi; rewrite Hnil in Hi; discriminate Hi].
        injection Hi as <-. repeat split.
  - intros i gpxTrack Hi.
    exists (trackOfTrack newDate fileName (dateNow i) gpxTrack i).
    split; [|reflexivity].
    rewrite nth_error_app1
      by (rewrite Hlen; apply nth_error_Some; rewrite Hi; discriminate).
    rewrite Htrack, Hi. reflexivity.
  - intros j route Hj.
    exists (trackOfRoute (dateNow (List.length tracks + j)) route j).
    split; [|apply Hname].
    rewrite nth_error_app2 by (rewrite Hlen; lia).
    rewrite Hlen.
    replace (List.length tracks + j - List.length tracks)%nat with j by lia.
    rewrite nth_error_app1
      by (rewrite Hlen'; apply nth_error_Some; rewrite Hj; discriminate).
    rewrite Hroute, Hj. reflexivity.
Qed.

End NameResolution.

(** Witness for C5 as amended: one unnamed source track, filename given. *)
Lemma emitted_track_names_witness :
  exists t : Track,
    nth_error [trackOfTrack sampleNewDate (Some "hike.gpx") (sampleClock 0)
                 (GPXTrack.mk None [GPXPoint.mk 1 1 undefined None]) 0] 0
    = Some t
    /\ name t = "hike.gpx".
Proof.
  destruct (emitted_track_names sampleNewDate sampleClock trackDocument
              (Some "hike.gpx")
              [trackOfTrack sampleNewDate (Some "hike.gpx") (sampleClock 0)
                 (GPXTrack.mk None [GPXPoint.mk 1 1 undefined None]) 0]
              eq_refl) as (_ & H & _).
  exact (H 0%nat (GPXTrack.mk None [GPXPoint.mk 1 1 undefined None]) eq_refl).
Defined.

(** C5, as stated, fails.  The Track made from the waypoints of a document
    without tracks or routes, no filename given, is named "Waypoints", which
    is neither a source-provided name, nor a filename, nor an ordinal label.
    (And the Track of an unnamed route is named "Route 1" even when the
    filename "hike.gpx" is given.) *)
Lemma emitted_track_names_counterexample :
  ~ (forall (gpx : GPXParserInstance.t) (fileName : option string)
            (ts : list Track) (t : Track),
        normalize sampleNewDate sampleClock gpx fileName = Return ts ->
        In t ts ->
        exists (sourceName : option string) (label : string),
          (sourceName = None \/ In sourceName (sourceNames gpx))
          /\ isOrdinalLabel label
          /\ name t = spec_resolvedName sourceName fileName label)
  /\ (exists t : Track,
        normalize sampleNewDate sampleClock waypointsDocument None = Return [t]
        /\ name t = "Waypoints")
  /\ (exists t : Track,
        normalize sampleNewDate sampleClock routeDocument (Some "hike.gpx")
        = Return [t]
        /\ name t = "Route 1"
        /\ spec_resolvedName None (Some "hike.gpx") (ordinalLabel "Route" 0)
           = "hike.gpx").
Proof.
  split; [|split].
  - intros H.
    destruct (H waypointsDocument None
                [trackOfWaypoints None (sampleClock 0)
                   [GPXWaypoint.mk 46 7 (Ele 1500) (Some "hut");
                    GPXWaypoint.mk 47 8 undefined None]]
                _ eq_refl (or_introl eq_refl))
      as (sourceName & label & Hsrc & (index & Hlabel) & Hname).
    assert (sourceName = None) as -> by (destruct Hsrc as [E|[]]; exact E).
    cbn [trackOfWaypoints name] in Hname.
    unfold spec_resolvedName, orElse, truthy in Hname.
    unfold ordinalLabel in Hlabel.
    destruct Hlabel as [->| ->]; cbn in Hname; discriminate Hname.
  - eexists. split; reflexivity.
  - eexists. split; [reflexivity|]. split; reflexivity.
Qed.

(* ================================================================== *)
(** ** Photo batches *)

(** [extractPhotoMetadata] never rejects, whatever exifr does. *)
Lemma extractPhotoMetadata_returns
  (exifrParse : File.t -> Result (option ExifData.t)) (file : File.t) :
  exists metadata : PhotoMetadata,
    extractPhotoMetadata exifrParse file = Return metadata.
Proof.
  unfold extractPhotoMetadata.
  destruct (exifrParse file); eexists; reflexivity.
Qed.

Lemma validateFile_step (acceptedFormats : list string)
  (valid : list File.t) (toasts : list Toast) (file : File.t) :
  (accepted acceptedFormats file = true
   /\ validateFile acceptedFormats (valid, toasts) file
      = (valid ++ [file], toasts))
  \/ (accepted acceptedFormats file = false
      /\ exists toast : Toast,
           validateFile acceptedFormats (valid, toasts) file
           = (valid, toasts ++ [toast])).
Proof.
  unfold accepted, validateFile.
  destruct (includes acceptedFormats (fileExtensionOf file)); cbn [negb andb].
  - destruct (50 * 1024 * 1024 <? File.size file)%N; cbn [negb].
    + right. split; [reflexivity|]. eexists. reflexivity.
    + left. split; reflexivity.
  - right. split; [reflexivity|]. eexists. reflexivity.
Qed.

Lemma validateFiles_fold (acceptedFormats : list string) (files : list File.t) :
  forall (valid : list File.t) (toasts : list Toast),
    fst (fold_left (validateFile acceptedFormats) files (valid, toasts))
    = valid ++ filter (accepted acceptedFormats) files
    /\ List.length
         (snd (fold_left (validateFile acceptedFormats) files (valid, toasts)))
       = (List.length toasts
          + List.length
              (filter (fun f => negb (accepted acceptedFormats f)) files))%nat.
Proof.
  induction files as [|file files IH]; intros valid toasts.
  - cbn. rewrite app_nil_r. split; [reflexivity|lia].
  - cbn [fold_left filter].
    destruct (validateFile_step acceptedFormats valid toasts file)
      as [[Hacc ->]|[Hacc [toast ->]]]; rewrite Hacc; cbn [negb].
    + destruct (IH (valid ++ [file]) toasts) as [E1 E2].
      rewrite E1, E2, <- app_assoc. split; reflexivity.
    + destruct (IH valid (toasts ++ [toast])) as [E1 E2].
      rewrite E1, E2, length_app. cbn [List.length]. split; [reflexivity|lia].
Qed.

Section PhotoBatch.

Variable exifrParse : File.t -> Result (option ExifData.t).
Variable fileToDataUrl : File.t -> Result string.
Variable createThumbnail : File.t -> N -> Result (option string).
Variable dateNow : nat -> N.
Variable randomSuffix : nat -> string.

Lemma processFile_step (processed : list Photo.t) (file : File.t) :
  (succeeds exifrParse fileToDataUrl file = true
   /\ exists photo : Photo.t,
        processFile exifrParse fileToDataUrl createThumbnail
          dateNow randomSuffix processed file
        = processed ++ [photo]
        /\ Photo.name photo = File.name file)
  \/ (succeeds exifrParse fileToDataUrl file = false
      /\ processFile exifrParse fileToDataUrl createThumbnail
           dateNow randomSuffix processed file
         = processed).
Proof.
  unfold succeeds, processFile.
  destruct (extractPhotoMetadata exifrParse file) as [metadata|?];
    [|right; split; reflexivity].
  destruct (fileToDataUrl file) as [dataUrl|?];
    [|right; split; reflexivity].
  left. split; [reflexivity|]. eexists. split; reflexivity.
Qed.

Lemma succeeds_read (file : File.t) :
  succeeds exifrParse fileToDataUrl file = true
  <-> exists dataUrl : string, fileToDataUrl file = Return dataUrl.
Proof.
  unfold succeeds.
  destruct (extractPhotoMetadata_returns exifrParse file) as [metadata ->].
  destruct (fileToDataUrl file) as [dataUrl|message]; split.
  - intros _. exists dataUrl. reflexivity.
  - reflexivity.
  - discriminate.
  - intros [dataUrl H]. discriminate H.
Qed.

Lemma processFile_names (files : list File.t) :
  forall processed : list Photo.t,
    map Photo.name
        (fold_left (processFile exifrParse fileToDataUrl
                      createThumbnail dateNow randomSuffix)
                   files processed)
    = map Photo.name processed
      ++ map File.name
           (filter (succeeds exifrParse fileToDataUrl) files).
Proof.
  induction files as [|file files IH]; intros processed.
  - cbn. rewrite app_nil_r. reflexivity.
  - cbn [fold_left filter]. rewrite IH.
    destruct (processFile_step processed file)
      as [[Hok (photo & -> & Hname)]|[Hok ->]]; rewrite Hok.
    + rewrite map_app, <- app_assoc. cbn [map app]. rewrite Hname.
      reflexivity.
    + reflexivity.
Qed.

Lemma addMultiplePhotos_hook (files : list File.t) (hook : PhotoHook) :
  let result := addMultiplePhotos exifrParse fileToDataUrl
                  createThumbnail dateNow randomSuffix files hook in
  photos (snd result) = photos hook ++ fst result
  /\ isProcessing (snd result) = false.
Proof.
  unfold addMultiplePhotos. cbn [fst snd photos isProcessing].
  split; [|reflexivity].
  destruct (fold_left _ files []) as [|p ps]; cbn;
    [rewrite app_nil_r|]; reflexivity.
Qed.


End PhotoBatch.



(* ================================================================== *)
(** ** Track styles *)

Lemma updateTrackStyle_other (trackId : string) (new : PartialStyle.t)
  (prev : list Track) :
  (forall track, In track prev -> id track <> trackId) ->
  updateTrackStyle trackId new prev = prev.
Proof.
  unfold updateTrackStyle.
  induction prev as [|track prev IH]; intros H; [reflexivity|].
  cbn [map]. rewrite IH by (intros t Ht; apply H; right; exact Ht).
  destruct (String.eqb_spec (id track) trackId) as [E|E]; [|reflexivity].
  exfalso. apply (H track); [left; reflexivity | exact E].
Qed.

(** C10.  [updateTrackStyle] changes only the style of the tracks whose id
    matches, merging the partial style into it: the collection keeps its
    length and order; a track with another id is unchanged; a matched track
    keeps its id, name, segments, visible flag and stats; and when no track
    has the given id the whole collection is unchanged. *)
Theorem updateTrackStyle_frame (trackId : string) (new : PartialStyle.t)
  (prev : list Track) :
  List.length (updateTrackStyle trackId new prev) = List.length prev
  /\ (forall (i : nat) (track : Track),
        nth_error prev i = Some track ->
        exists track' : Track,
          nth_error (updateTrackStyle trackId new prev) i = Some track'
          /\ id track' = id track
          /\ name track' = name track
          /\ segments track' = segments track
          /\ visible track' = visible track
          /\ stats track' = stats track
          /\ (id track <> trackId -> track' = track)
          /\ (id track = trackId ->
              style track' = mergeStyle (style track) new))
  /\ ((forall track, In track prev -> id track <> trackId) ->
      updateTrackStyle trackId new prev = prev).
Proof.
  split; [apply length_map|]. split; [|apply updateTrackStyle_other].
  intros i track Hi. unfold updateTrackStyle.
  rewrite nth_error_map, Hi. cbn [option_map].
  destruct (String.eqb_spec (id track) trackId) as [E|E].
  - eexists. split; [reflexivity|]. cbn. repeat split; try reflexivity.
    intros Hne. contradiction.
  - exists track. repeat split; try reflexivity. intros E'. contradiction.
Qed.

(** Witness for C10: of two tracks the first is restyled, the second is
    untouched; an unknown id changes nothing. *)
Lemma updateTrackStyle_frame_witness :
  (exists track' : Track,
      nth_error (updateTrackStyle "track-1" sampleStyle sampleTracks) 1
      = Some track'
      /\ track' = mkTrack "track-2" "Evening" [] DEFAULT_STYLE false None)
  /\ updateTrackStyle "track-9" sampleStyle sampleTracks = sampleTracks.
Proof.
  destruct (updateTrackStyle_frame "track-1" sampleStyle sampleTracks)
    as (_ & Hnth & _).
  destruct (updateTrackStyle_frame "track-9" sampleStyle sampleTracks)
    as (_ & _ & Hnone).
  split.
  - destruct (Hnth 1%nat
                (mkTrack "track-2" "Evening" [] DEFAULT_STYLE false None)
                eq_refl)
      as (track' & Hi & _ & _ & _ & _ & _ & Hsame & _).
    exists track'. split; [exact Hi|].
    apply Hsame. cbn. discriminate.
  - apply Hnone. intros track [<-|[<-|[]]]; cbn; discriminate.
Defined.

(* ================================================================== *)
(** * Further properties *)

(** ** [calculateDistance] in binary64 *)

Lemma sqrt_negative (x : float) :
  (x <? 0)%float = true -> PrimFloat.sqrt x = nan.
Proof.
  intros H. rewrite ltb_spec in H. apply Prim2SF_inj. rewrite sqrt_spec.
  change (Prim2SF 0) with (S754_zero false) in H.
  change (Prim2SF nan) with S754_nan.
  destruct (Prim2SF x) as [s|s| |s m e]; cbn in H; try discriminate H;
    destruct s; try discriminate H; reflexivity.
Qed.

(** X1.  [calculateDistance] does not clamp [a]: in binary64, whenever the
    [a] it has computed is negative, or so little above 1 that [1 - a] is
    negative, one of the two square roots is NaN and NaN is what it returns
    (on any host whose [atan2] is NaN on a NaN argument).  The second case
    occurs for places almost opposite each other on the sphere. *)
Theorem calculateDistance_no_clamp (sin cos : float -> float)
  (atan2 : float -> float -> float) (lat1 lon1 lat2 lon2 : float) :
  (forall x : float, atan2 nan x = nan) ->
  (forall y : float, atan2 y nan = nan) ->
  (Binary64.haversineA sin cos lat1 lon1 lat2 lon2 <? 0)%float = true
  \/ (1 - Binary64.haversineA sin cos lat1 lon1 lat2 lon2 <? 0)%float = true ->
  Binary64.calculateDistance sin cos atan2 lat1 lon1 lat2 lon2 = nan.
Proof.
  intros Hy Hx [H|H]; unfold Binary64.calculateDistance; cbv zeta;
    rewrite (sqrt_negative _ H).
  - rewrite Hy. reflexivity.
  - rewrite Hx. reflexivity.
Qed.

(** Witness for X1: the places (13.859, -55.556) and (-13.859, 124.444). *)
Lemma calculateDistance_no_clamp_witness :
  Binary64.calculateDistance sampleSin sampleCos sampleAtan2
    (fst placeA) (snd placeA) (fst placeB) (snd placeB)
  = nan.
Proof.
  apply calculateDistance_no_clamp.
  - intros x. reflexivity.
  - intros y. unfold sampleAtan2. destruct (is_nan y); reflexivity.
  - right. reflexivity.
Defined.



(** ** Minimum and maximum elevation, first and last time *)

Lemma seeElevation_extremes (p : TrackPoint) (s : Locals.t) :
  Locals.minElevation (seeElevation p s)
  = minOver (Locals.minElevation s) (pointElevations [p])
  /\ Locals.maxElevation (seeElevation p s)
     = maxOver (Locals.maxElevation s) (pointElevations [p]).
Proof.
  unfold seeElevation, pointElevations. cbn [flat_map].
  destruct (elevationOf (ele p)); split; reflexivity.
Qed.

Lemma seeTime_extremes (p : TrackPoint) (s : Locals.t) :
  Locals.startTime (seeTime p s) = earliest (Locals.startTime s) (pointTimes [p])
  /\ Locals.endTime (seeTime p s) = latest (Locals.endTime s) (pointTimes [p]).
Proof.
  unfold pointTimes. cbn [flat_map].
  destruct (time p) as [t|] eqn:Hp;
    [|unfold seeTime; rewrite Hp; split; reflexivity].
  destruct (seeTime_times p s t Hp) as [E1 E2]. rewrite E1, E2.
  split; reflexivity.
Qed.

Lemma walk_extremes (pts : list TrackPoint) :
  forall prev s,
    Locals.minElevation (walk prev pts s)
    = minOver (Locals.minElevation s) (pointElevations pts)
    /\ Locals.maxElevation (walk prev pts s)
       = maxOver (Locals.maxElevation s) (pointElevations pts)
    /\ Locals.startTime (walk prev pts s)
       = earliest (Locals.startTime s) (pointTimes pts)
    /\ Locals.endTime (walk prev pts s)
       = latest (Locals.endTime s) (pointTimes pts).
Proof.
  induction pts as [|p rest IH]; intros prev s.
  - repeat split; reflexivity.
  - cbn [walk].
    set (s1 := seeTime p (seeElevation p s)).
    set (s2 := match prev with Some q => seePair q p s1 | None => s1 end).
    assert (E : Locals.minElevation s2 = Locals.minElevation s1
                /\ Locals.maxElevation s2 = Locals.maxElevation s1
                /\ Locals.startTime s2 = Locals.startTime s1
                /\ Locals.endTime s2 = Locals.endTime s1).
    { unfold s2. destruct prev; [apply seePair_frame|repeat split]. }
    destruct E as (E1 & E2 & E3 & E4).
    destruct (IH (Some p) s2) as (I1 & I2 & I3 & I4).
    rewrite I1, I2, I3, I4, E1, E2, E3, E4. unfold s1.
    destruct (seeTime_frame p (seeElevation p s)) as (_ & _ & _ & F1 & F2).
    destruct (seeElevation_frame p s) as (_ & _ & _ & F3 & F4).
    destruct (seeElevation_extremes p s) as [G1 G2].
    destruct (seeTime_extremes p (seeElevation p s)) as [G3 G4].
    rewrite F1, F2, G1, G2, G3, G4, F3, F4.
    unfold minOver, maxOver, earliest, latest, pointElevations, pointTimes.
    cbn [flat_map]. rewrite !app_nil_r, !fold_left_app.
    repeat split; reflexivity.
Qed.

Lemma segments_extremes (segs : list TrackSegment) :
  forall s,
    Locals.minElevation (fold_left forSegment segs s)
    = minOver (Locals.minElevation s) (elevations segs)
    /\ Locals.maxElevation (fold_left forSegment segs s)
       = maxOver (Locals.maxElevation s) (elevations segs)
    /\ Locals.startTime (fold_left forSegment segs s)
       = earliest (Locals.startTime s) (times segs)
    /\ Locals.endTime (fold_left forSegment segs s)
       = latest (Locals.endTime s) (times segs).
Proof.
  induction segs as [|seg rest IH]; intros s.
  - repeat split; reflexivity.
  - cbn [fold_left]. destruct (IH (forSegment s seg)) as (I1 & I2 & I3 & I4).
    rewrite I1, I2, I3, I4, forSegment_walk.
    destruct (walk_extremes (points seg) None s) as (W1 & W2 & W3 & W4).
    rewrite W1, W2, W3, W4.
    unfold elevations, times, allPoints, minOver, maxOver, earliest, latest.
    cbn [flat_map]. rewrite !flat_map_app, !fold_left_app.
    repeat split; reflexivity.
Qed.

Lemma minOver_Num (es : list R) :
  forall a, minOver (Num a) es = Num (fold_left Rmin es a).
Proof.
  unfold minOver. induction es as [|e es IH]; intros a; [reflexivity|].
  cbn [fold_left Math.min]. apply IH.
Qed.

Lemma maxOver_Num (es : list R) :
  forall a, maxOver (Num a) es = Num (fold_left Rmax es a).
Proof.
  unfold maxOver. induction es as [|e es IH]; intros a; [reflexivity|].
  cbn [fold_left Math.max]. apply IH.
Qed.

Lemma fold_Rmin_le (es : list R) :
  forall a, (fold_left Rmin es a <= a)%R
            /\ forall x, In x es -> (fold_left Rmin es a <= x)%R.
Proof.
  induction es as [|e es IH]; intros a; cbn [fold_left].
  - split; [lra|]. intros x [].
  - destruct (IH (Rmin a e)) as [H1 H2].
    pose proof (Rmin_l a e). pose proof (Rmin_r a e).
    split; [lra|]. intros x [<-|Hx]; [lra|]. apply H2, Hx.
Qed.

Lemma fold_Rmax_ge (es : list R) :
  forall a, (a <= fold_left Rmax es a)%R
            /\ forall x, In x es -> (x <= fold_left Rmax es a)%R.
Proof.
  induction es as [|e es IH]; intros a; cbn [fold_left].
  - split; [lra|]. intros x [].
  - destruct (IH (Rmax a e)) as [H1 H2].
    pose proof (Rmax_l a e). pose proof (Rmax_r a e).
    split; [lra|]. intros x [<-|Hx]; [lra|]. apply H2, Hx.
Qed.

Lemma fold_Rmin_In (es : list R) :
  forall a, In (fold_left Rmin es a) (a :: es).
Proof.
  induction es as [|e es IH]; intros a; cbn [fold_left]; [left; reflexivity|].
  destruct (IH (Rmin a e)) as [H|H]; [|right; right; exact H].
  rewrite <- H. unfold Rmin. destruct (Rle_dec a e);
    [left | right; left]; reflexivity.
Qed.

Lemma fold_Rmax_In (es : list R) :
  forall a, In (fold_left Rmax es a) (a :: es).
Proof.
  induction es as [|e es IH]; intros a; cbn [fold_left]; [left; reflexivity|].
  destruct (IH (Rmax a e)) as [H|H]; [|right; right; exact H].
  rewrite <- H. unfold Rmax. destruct (Rle_dec a e);
    [right; left | left]; reflexivity.
Qed.

Lemma stats_elevation_extremes (segs : list TrackSegment) :
  match elevations segs with
  | [] =>
      minElevation (calculateTrackStats segs) = Num 0
      /\ maxElevation (calculateTrackStats segs) = Num 0
  | e :: es =>
      exists lo hi : R,
        minElevation (calculateTrackStats segs) = Num lo
        /\ maxElevation (calculateTrackStats segs) = Num hi
        /\ lo = fold_left Rmin es e /\ hi = fold_left Rmax es e
        /\ In lo (e :: es) /\ In hi (e :: es)
        /\ Forall (fun x => (lo <= x <= hi)%R) (e :: es)
  end.
Proof.
  destruct (segments_extremes segs initialLocals) as (E1 & E2 & _).
  unfold calculateTrackStats. cbn [minElevation maxElevation].
  rewrite E1, E2. cbn [initialLocals Locals.minElevation Locals.maxElevation].
  destruct (elevations segs) as [|e es]; [split; reflexivity|].
  unfold minOver, maxOver. cbn [fold_left Math.min Math.max].
  fold (minOver (Num e) es). fold (maxOver (Num e) es).
  rewrite minOver_Num, maxOver_Num.
  exists (fold_left Rmin es e), (fold_left Rmax es e).
  destruct (fold_Rmin_le es e) as [L1 L2].
  destruct (fold_Rmax_ge es e) as [U1 U2].
  repeat split; try reflexivity.
  - apply fold_Rmin_In.
  - apply fold_Rmax_In.
  - constructor; [lra|]. apply Forall_forall. intros x Hx.
    split; [apply L2 | apply U2]; exact Hx.
Qed.

(** Once the first time is an invalid Date, it stays: nothing compares
    below or above it. *)
Lemma earliest_invalid (ts : list Date) :
  earliest (Some InvalidDate) ts = Some InvalidDate
  /\ latest (Some InvalidDate) ts = Some InvalidDate.
Proof.
  unfold earliest, latest.
  induction ts as [|t ts [IH1 IH2]]; [split; reflexivity|].
  cbn [fold_left]. unfold Date_gt, Date_lt.
  destruct t; split; assumption.
Qed.

(** After a valid first time the invalid Dates are passed over. *)
Lemma earliest_valid (ts : list Date) :
  forall t0 : Z,
    earliest (Some (DateAt t0)) ts
    = Some (DateAt (fold_left Z.min (validTimes ts) t0)).
Proof.
  unfold earliest, validTimes.
  induction ts as [|t ts IH]; intros t0; [reflexivity|].
  cbn [fold_left flat_map]. destruct t as [|t].
  - cbn [Date_lt app]. apply IH.
  - cbn [Date_lt app fold_left]. destruct (Z.ltb_spec t t0).
    + rewrite IH. do 3 f_equal. lia.
    + rewrite IH. do 3 f_equal. lia.
Qed.

Lemma latest_valid (ts : list Date) :
  forall t1 : Z,
    latest (Some (DateAt t1)) ts
    = Some (DateAt (fold_left Z.max (validTimes ts) t1)).
Proof.
  unfold latest, validTimes.
  induction ts as [|t ts IH]; intros t1; [reflexivity|].
  cbn [fold_left flat_map]. unfold Date_gt. destruct t as [|t].
  - cbn [Date_lt app]. apply IH.
  - cbn [Date_lt app fold_left]. destruct (Z.ltb_spec t1 t).
    + rewrite IH. do 3 f_equal. lia.
    + rewrite IH. do 3 f_equal. lia.
Qed.

Lemma stats_duration (segs : list TrackSegment) :
  duration (calculateTrackStats segs)
  = match times segs with
    | [] => None
    | InvalidDate :: _ => Some NaN
    | DateAt t :: ts =>
        Some (Num ((IZR (fold_left Z.max (validTimes ts) t)
                    - IZR (fold_left Z.min (validTimes ts) t)) / 1000))
    end.
Proof.
  destruct (segments_extremes segs initialLocals) as (_ & _ & E3 & E4).
  unfold calculateTrackStats. cbn [duration]. rewrite E3, E4.
  cbn [initialLocals Locals.startTime Locals.endTime].
  destruct (times segs) as [|[|t] ts]; [reflexivity| |].
  - change (earliest None (InvalidDate :: ts))
      with (earliest (Some InvalidDate) ts).
    change (latest None (InvalidDate :: ts))
      with (latest (Some InvalidDate) ts).
    destruct (earliest_invalid ts) as [-> ->]. reflexivity.
  - change (earliest None (DateAt t :: ts))
      with (earliest (Some (DateAt t)) ts).
    change (latest None (DateAt t :: ts)) with (latest (Some (DateAt t)) ts).
    rewrite earliest_valid, latest_valid. reflexivity.
Qed.


(** X3.  The duration is undefined exactly when no point carries a time.
    Otherwise the first time carried decides: when it is a valid Date, the
    duration is the span, in seconds, from the earliest to the latest of the
    valid times carried, whatever their order, the invalid Dates after it
    being passed over; when it is an invalid Date, the duration is NaN,
    whatever the other points carry. *)
Theorem duration_span (segs : list TrackSegment) :
  duration (calculateTrackStats segs)
  = match times segs with
    | [] => None
    | InvalidDate :: _ => Some NaN
    | DateAt t :: ts =>
        Some (Num ((IZR (fold_left Z.max (validTimes ts) t)
                    - IZR (fold_left Z.min (validTimes ts) t)) / 1000))
    end.
Proof. exact (stats_duration segs). Qed.

(** ** Net climb *)

Lemma pair_net (q p : TrackPoint) (a b : R) :
  elevationOf (ele q) = Some a -> elevationOf (ele p) = Some b ->
  (pairGain q p - pairLoss q p = b - a)%R.
Proof.
  intros Hq Hp. unfold pairGain, pairLoss. rewrite Hq, Hp.
  destruct (Rlt_dec 0 (b - a)), (Rle_dec (b - a) 0); try lra.
  rewrite Rabs_left1 by lra. lra.
Qed.

Lemma pairSum_cons2 (g : TrackPoint -> TrackPoint -> R)
  (q p : TrackPoint) (rest : list TrackPoint) :
  pairSum g (q :: p :: rest) = (g q p + pairSum g (p :: rest))%R.
Proof. reflexivity. Qed.

Lemma pointElevations_cons (q : TrackPoint) (rest : list TrackPoint) (a : R) :
  elevationOf (ele q) = Some a ->
  pointElevations (q :: rest) = a :: pointElevations rest.
Proof. intros H. unfold pointElevations. cbn [flat_map]. rewrite H. reflexivity. Qed.

Lemma last_default {A : Type} (l : list A) :
  forall a d d' : A, last (a :: l) d = last (a :: l) d'.
Proof.
  induction l as [|b l IH]; intros a d d'; [reflexivity|].
  change (last (b :: l) d = last (b :: l) d'). apply IH.
Qed.

Lemma elevationOf_defined (e : Elevation) :
  e <> undefined -> exists a : R, elevationOf e = Some a.
Proof.
  destruct e as [| |a]; intros H; [contradiction| |]; eexists; reflexivity.
Qed.

Lemma pairSum_net (pts : list TrackPoint) :
  Forall (fun p => ele p <> undefined) pts ->
  (pairSum pairGain pts - pairSum pairLoss pts
   = netClimb (pointElevations pts))%R.
Proof.
  induction 1 as [|q rest Hq Hrest IH].
  - unfold pairSum. cbn. lra.
  - destruct (elevationOf_defined (ele q) Hq) as [a Eq]. clear Hq.
    rewrite (pointElevations_cons q rest a Eq).
    destruct rest as [|p rest'].
    + unfold pairSum. cbn. lra.
    + inversion Hrest as [|? ? Hp _]; subst.
      destruct (elevationOf_defined (ele p) Hp) as [b Ep].
      rewrite !pairSum_cons2.
      rewrite (pointElevations_cons p rest' b Ep) in *.
      pose proof (pair_net q p a b Eq Ep) as Hnet.
      cbn [netClimb] in *.
      assert (Hlast : last (b :: pointElevations rest') a
                      = last (pointElevations rest') b).
      { destruct (pointElevations rest') as [|c l]; [reflexivity|].
        change (last (c :: l) a = last (c :: l) b). apply last_default. }
      rewrite Hlast. lra.
Qed.

Lemma Rsum_minus {A : Type} (f g : A -> R) (l : list A) :
  (Rsum (map f l) - Rsum (map g l) = Rsum (map (fun x => f x - g x) l))%R.
Proof.
  unfold Rsum. induction l as [|x l IH]; cbn; lra.
Qed.

(** X4.  When every point carries an elevation, elevation gain minus
    elevation loss is the net climb: the sum, over the segments, of the last
    elevation of the segment minus its first.  (A [null] in the place of an
    elevation is read as 0 there too; only [undefined] is excluded.) *)
Theorem net_climb (segs : list TrackSegment) :
  Forall (fun p => ele p <> undefined) (allPoints segs) ->
  (elevationGain (calculateTrackStats segs)
   - elevationLoss (calculateTrackStats segs)
   = Rsum (map (fun seg => netClimb (pointElevations (points seg))) segs))%R.
Proof.
  intros Hall. destruct (stats_sums segs) as (_ & Hg & Hl).
  rewrite Hg, Hl, Rsum_minus. f_equal.
  apply map_ext_in. intros seg Hseg. apply pairSum_net.
  apply Forall_forall. intros p Hp.
  apply (proj1 (Forall_forall _ _) Hall).
  unfold allPoints. apply in_flat_map. exists seg. split; assumption.
Qed.

(** Witness for X4: 100, 150, 120 climbs 50 and drops 30, net 20. *)
Lemma net_climb_witness :
  (elevationGain (calculateTrackStats climbTrack)
   - elevationLoss (calculateTrackStats climbTrack)
   = 20)%R.
Proof.
  rewrite (net_climb climbTrack).
  - unfold Rsum, netClimb, pointElevations, climbTrack. cbn. lra.
  - repeat constructor; cbn; discriminate.
Defined.

(** ** A track walked backwards *)

Lemma adjacentPairs_snoc {A : Type} (l : list A) (b a : A) :
  adjacentPairs ((l ++ [b]) ++ [a]) = adjacentPairs (l ++ [b]) ++ [(b, a)].
Proof.
  induction l as [|x l IH]; [reflexivity|].
  cbn [app] in *. destruct l as [|y l'].
  - reflexivity.
  - cbn [app adjacentPairs] in *. rewrite IH. reflexivity.
Qed.

Lemma pairSum_rev (g : TrackPoint -> TrackPoint -> R) (pts : list TrackPoint) :
  pairSum g (rev pts) = pairSum (fun q p => g p q) pts.
Proof.
  induction pts as [|x pts IH]; [reflexivity|].
  destruct pts as [|y pts']; [reflexivity|].
  rewrite pairSum_cons2, <- IH. cbn [rev].
  unfold pairSum. rewrite adjacentPairs_snoc, map_app, Rsum_app.
  cbn. lra.
Qed.

Lemma Rsum_rev (l : list R) : Rsum (rev l) = Rsum l.
Proof.
  induction l as [|x l IH]; [reflexivity|].
  cbn [rev]. rewrite Rsum_app, IH. unfold Rsum. cbn. lra.
Qed.

Lemma haversine_sym (q p : TrackPoint) : haversine q p = haversine p q.
Proof.
  unfold haversine. rewrite !calculateDistance_a. cbv zeta.
  assert (E : haversineA (lat q) (lon q) (lat p) (lon p)
              = haversineA (lat p) (lon p) (lat q) (lon q)).
  { unfold haversineA. cbv zeta. unfold Math.sin, Math.cos, Math.PI.
    replace ((lat p - lat q) * PI / 180 / 2)%R
      with (- ((lat q - lat p) * PI / 180 / 2))%R by lra.
    replace ((lon p - lon q) * PI / 180 / 2)%R
      with (- ((lon q - lon p) * PI / 180 / 2))%R by lra.
    rewrite !sin_neg. ring. }
  rewrite E. reflexivity.
Qed.

Lemma pairGain_swap (q p : TrackPoint) : pairGain p q = pairLoss q p.
Proof.
  unfold pairGain, pairLoss.
  destruct (elevationOf (ele p)) as [a|], (elevationOf (ele q)) as [b|];
    try reflexivity.
  destruct (Rlt_dec 0 (b - a)), (Rle_dec (a - b) 0); try lra.
  - rewrite Rabs_left1 by lra. lra.
  - rewrite Rabs_left1 by lra. lra.
Qed.

Lemma pairSum_ext (g h : TrackPoint -> TrackPoint -> R) (pts : list TrackPoint) :
  (forall q p, g q p = h q p) -> pairSum g pts = pairSum h pts.
Proof.
  intros H. unfold pairSum. f_equal. apply map_ext. intros [q p]. apply H.
Qed.

Lemma reverseTrack_sum (g h : TrackPoint -> TrackPoint -> R)
  (segs : list TrackSegment) :
  (forall q p, g p q = h q p) ->
  Rsum (map (fun seg => pairSum g (points seg)) (reverseTrack segs))
  = Rsum (map (fun seg => pairSum h (points seg)) segs).
Proof.
  intros H. unfold reverseTrack. rewrite map_rev, Rsum_rev, map_map.
  f_equal. apply map_ext. intros seg. cbn [reverseSegment points].
  rewrite pairSum_rev. apply pairSum_ext. intros q p. apply H.
Qed.

Lemma flat_map_rev {A B : Type} (f : A -> list B) (l : list A) :
  flat_map f (rev l) = rev (flat_map (fun x => rev (f x)) l).
Proof.
  induction l as [|x l IH]; [reflexivity|].
  cbn [rev flat_map]. rewrite flat_map_app, IH. cbn [flat_map].
  rewrite app_nil_r, rev_app_distr, rev_involutive. reflexivity.
Qed.

Lemma allPoints_reverseTrack (segs : list TrackSegment) :
  allPoints (reverseTrack segs) = rev (allPoints segs).
Proof.
  unfold allPoints, reverseTrack.
  rewrite flat_map_rev. f_equal.
  rewrite flat_map_concat_map, map_map, <- flat_map_concat_map.
  apply flat_map_ext. intros seg. cbn [reverseSegment points].
  apply rev_involutive.
Qed.

Lemma elevations_reverseTrack (segs : list TrackSegment) :
  elevations (reverseTrack segs) = rev (elevations segs).
Proof.
  unfold elevations. rewrite allPoints_reverseTrack, flat_map_rev.
  f_equal. apply flat_map_ext. intros p.
  destruct (elevationOf (ele p)); reflexivity.
Qed.

Lemma times_reverseTrack (segs : list TrackSegment) :
  times (reverseTrack segs) = rev (times segs).
Proof.
  unfold times. rewrite allPoints_reverseTrack, flat_map_rev.
  f_equal. apply flat_map_ext. intros p. destruct (time p); reflexivity.
Qed.

Lemma fold_Zmin_spec (ts : list Z) :
  forall t, In (fold_left Z.min ts t) (t :: ts)
            /\ Forall (fun x => (fold_left Z.min ts t <= x)%Z) (t :: ts).
Proof.
  induction ts as [|u ts IH]; intros t; cbn [fold_left].
  - split; [left; reflexivity|]. constructor; [lia|constructor].
  - destruct (IH (Z.min t u)) as [Hin Hall].
    inversion Hall as [|? ? Hhd Htl]; subst. split.
    + destruct Hin as [H|H]; [|right; right; exact H].
      rewrite <- H. destruct (Z.min_spec t u) as [[_ ->]|[_ ->]];
        [left | right; left]; reflexivity.
    + constructor; [lia|]. constructor; [lia|exact Htl].
Qed.

Lemma fold_Zmax_spec (ts : list Z) :
  forall t, In (fold_left Z.max ts t) (t :: ts)
            /\ Forall (fun x => (x <= fold_left Z.max ts t)%Z) (t :: ts).
Proof.
  induction ts as [|u ts IH]; intros t; cbn [fold_left].
  - split; [left; reflexivity|]. constructor; [lia|constructor].
  - destruct (IH (Z.max t u)) as [Hin Hall].
    inversion Hall as [|? ? Hhd Htl]; subst. split.
    + destruct Hin as [H|H]; [|right; right; exact H].
      rewrite <- H. destruct (Z.max_spec t u) as [[_ ->]|[_ ->]];
        [right; left | left]; reflexivity.
    + constructor; [lia|]. constructor; [lia|exact Htl].
Qed.

(** The minimum, the maximum and the duration depend on the elevations read
    and on the times carried only. *)
Lemma stats_extremes_lists (segs segs' : list TrackSegment) :
  elevations segs' = elevations segs ->
  times segs' = times segs ->
  minElevation (calculateTrackStats segs')
  = minElevation (calculateTrackStats segs)
  /\ maxElevation (calculateTrackStats segs')
     = maxElevation (calculateTrackStats segs)
  /\ duration (calculateTrackStats segs')
     = duration (calculateTrackStats segs).
Proof.
  intros He Ht.
  destruct (segments_extremes segs initialLocals) as (E1 & E2 & E3 & E4).
  destruct (segments_extremes segs' initialLocals) as (F1 & F2 & F3 & F4).
  unfold calculateTrackStats. cbn [minElevation maxElevation duration].
  rewrite E1, E2, E3, E4, F1, F2, F3, F4, He, Ht.
  repeat split; reflexivity.
Qed.

(** The extremes of the elevations do not depend on their order. *)
Lemma stats_extremes_same (segs segs' : list TrackSegment) :
  (forall x, In x (elevations segs') <-> In x (elevations segs)) ->
  minElevation (calculateTrackStats segs')
  = minElevation (calculateTrackStats segs)
  /\ maxElevation (calculateTrackStats segs')
     = maxElevation (calculateTrackStats segs).
Proof.
  intros He.
  pose proof (stats_elevation_extremes segs) as H.
  pose proof (stats_elevation_extremes segs') as H'.
  destruct (elevations segs) as [|e es], (elevations segs') as [|e' es'].
  - destruct H as [-> ->], H' as [-> ->]. split; reflexivity.
  - exfalso. apply (proj1 (He e')). left. reflexivity.
  - exfalso. apply (proj2 (He e)). left. reflexivity.
  - destruct H as (lo & hi & -> & -> & _ & _ & Ilo & Ihi & Hb).
    destruct H' as (lo' & hi' & -> & -> & _ & _ & Ilo' & Ihi' & Hb').
    rewrite Forall_forall in Hb, Hb'.
    pose proof (Hb _ (proj1 (He _) Ilo')).
    pose proof (Hb _ (proj1 (He _) Ihi')).
    pose proof (Hb' _ (proj2 (He _) Ilo)).
    pose proof (Hb' _ (proj2 (He _) Ihi)).
    split; f_equal; lra.
Qed.

(** When every time carried is a valid Date, the duration is the span of
    the times. *)
Lemma validTimes_all (ts : list Date) :
  Forall (fun t => t <> InvalidDate) ts -> ts = map DateAt (validTimes ts).
Proof.
  unfold validTimes. induction 1 as [|t ts Ht _ IH]; [reflexivity|].
  destruct t as [|ms]; [contradiction|].
  cbn [flat_map app map]. f_equal. exact IH.
Qed.

Lemma validTimes_map (zs : list Z) : validTimes (map DateAt zs) = zs.
Proof.
  unfold validTimes. induction zs as [|z zs IH]; [reflexivity|].
  cbn [map flat_map app]. f_equal. exact IH.
Qed.

Lemma stats_duration_valid (segs : list TrackSegment) :
  Forall (fun t => t <> InvalidDate) (times segs) ->
  duration (calculateTrackStats segs)
  = match validTimes (times segs) with
    | [] => None
    | t :: zs =>
        Some (Num ((IZR (fold_left Z.max zs t)
                    - IZR (fold_left Z.min zs t)) / 1000))
    end.
Proof.
  intros Hall. rewrite stats_duration.
  rewrite (validTimes_all _ Hall) at 1.
  destruct (validTimes (times segs)) as [|t zs]; [reflexivity|].
  cbn [map]. rewrite validTimes_map. reflexivity.
Qed.

Lemma span_same (zs zs' : list Z) :
  (forall z, In z zs' <-> In z zs) ->
  match zs' with
  | [] => None
  | t :: l =>
      Some (Num ((IZR (fold_left Z.max l t) - IZR (fold_left Z.min l t))
                 / 1000))
  end
  = match zs with
    | [] => None
    | t :: l =>
        Some (Num ((IZR (fold_left Z.max l t) - IZR (fold_left Z.min l t))
                   / 1000))
    end.
Proof.
  intros Ht. destruct zs as [|t ts], zs' as [|t' ts'].
  - reflexivity.
  - exfalso. apply (proj1 (Ht t')). left. reflexivity.
  - exfalso. apply (proj2 (Ht t)). left. reflexivity.
  - destruct (fold_Zmin_spec ts t) as [Imin Hmin].
    destruct (fold_Zmax_spec ts t) as [Imax Hmax].
    destruct (fold_Zmin_spec ts' t') as [Imin' Hmin'].
    destruct (fold_Zmax_spec ts' t') as [Imax' Hmax'].
    rewrite Forall_forall in Hmin, Hmax, Hmin', Hmax'.
    pose proof (Hmin _ (proj1 (Ht _) Imin')).
    pose proof (Hmax _ (proj1 (Ht _) Imax')).
    pose proof (Hmin' _ (proj2 (Ht _) Imin)).
    pose proof (Hmax' _ (proj2 (Ht _) Imax)).
    do 4 f_equal; f_equal; lia.
Qed.

(** X5.  Walking a track backwards (the segments in reverse order, each
    reversed) keeps the distance and the minimum and maximum elevation and
    exchanges elevation gain and elevation loss.  It keeps the duration when
    every time carried is a valid Date.  With an invalid Date it need not:
    of two points, the first with an invalid Date and the second with a
    valid one, the duration is NaN one way and 0 the other. *)
Theorem backwards_track (segs : list TrackSegment) :
  distance (calculateTrackStats (reverseTrack segs))
  = distance (calculateTrackStats segs)
  /\ elevationGain (calculateTrackStats (reverseTrack segs))
     = elevationLoss (calculateTrackStats segs)
  /\ elevationLoss (calculateTrackStats (reverseTrack segs))
     = elevationGain (calculateTrackStats segs)
  /\ minElevation (calculateTrackStats (reverseTrack segs))
     = minElevation (calculateTrackStats segs)
  /\ maxElevation (calculateTrackStats (reverseTrack segs))
     = maxElevation (calculateTrackStats segs)
  /\ (Forall (fun t => t <> InvalidDate) (times segs) ->
      duration (calculateTrackStats (reverseTrack segs))
      = duration (calculateTrackStats segs))
  /\ (forall (p q : TrackPoint) (ms : Z),
        time p = Some InvalidDate -> time q = Some (DateAt ms) ->
        duration (calculateTrackStats [ {| points := [p; q] |} ]) = Some NaN
        /\ duration (calculateTrackStats
                       (reverseTrack [ {| points := [p; q] |} ]))
           = Some (Num 0)).
Proof.
  destruct (stats_sums segs) as (Hd & Hg & Hl).
  destruct (stats_sums (reverseTrack segs)) as (Hd' & Hg' & Hl').
  split; [|split; [|split; [|split; [|split; [|split]]]]].
  - rewrite Hd, Hd'. apply reverseTrack_sum. intros q p. apply haversine_sym.
  - rewrite Hl, Hg'. apply reverseTrack_sum. intros q p. apply pairGain_swap.
  - rewrite Hg, Hl'. apply reverseTrack_sum. intros q p.
    symmetry. apply pairGain_swap.
  - apply stats_extremes_same.
    intros x. rewrite elevations_reverseTrack. symmetry. apply in_rev.
  - apply stats_extremes_same.
    intros x. rewrite elevations_reverseTrack. symmetry. apply in_rev.
  - intros Hall.
    assert (Hall' : Forall (fun t => t <> InvalidDate)
                           (times (reverseTrack segs))).
    { rewrite times_reverseTrack. apply Forall_rev. exact Hall. }
    rewrite (stats_duration_valid _ Hall), (stats_duration_valid _ Hall').
    apply span_same. intros z. rewrite times_reverseTrack.
    unfold validTimes. rewrite flat_map_rev, <- in_rev.
    rewrite !in_flat_map. split; intros (t & Ht & Hz); exists t;
      (split; [exact Ht|]); destruct t; cbn in *; tauto.
  - intros p q ms Hp Hq. rewrite !stats_duration.
    unfold times, allPoints, reverseTrack, reverseSegment.
    cbn [map rev app flat_map points]. rewrite Hp, Hq. cbn [app].
    split; [reflexivity|]. unfold validTimes. cbn [flat_map app fold_left].
    f_equal. f_equal. lra.
Qed.

(** Witness for X5: the times of [climbTrack] are valid Dates. *)
Lemma backwards_track_witness :
  duration (calculateTrackStats (reverseTrack climbTrack))
  = duration (calculateTrackStats climbTrack).
Proof.
  destruct (backwards_track climbTrack) as (_ & _ & _ & _ & _ & H & _).
  apply H. unfold times, allPoints, climbTrack. cbn [flat_map points time app].
  repeat constructor; discriminate.
Defined.

Lemma pairSum_cut (pre post : list TrackPoint) (q p : TrackPoint)
  (g : TrackPoint -> TrackPoint -> R) :
  pairSum g ((pre ++ [q]) ++ p :: post)
  = (pairSum g (pre ++ [q]) + pairSum g (p :: post) + g q p)%R.
Proof.
  induction pre as [|x pre IH].
  - cbn [app]. rewrite (pairSum_cons2 g q p post).
    unfold pairSum at 2. cbn. lra.
  - destruct pre as [|y pre'].
    + cbn [app] in *. rewrite (pairSum_cons2 g x q (p :: post)), IH.
      rewrite (pairSum_cons2 g x q []). unfold pairSum at 4. cbn. lra.
    + cbn [app] in *.
      rewrite (pairSum_cons2 g x y), IH, (pairSum_cons2 g x y). lra.
Qed.

(** X6.  Cutting a segment in two between the neighbours [q] and [p]
    removes from the statistics exactly what that pair contributed: its
    distance, its gain and its loss; minimum, maximum and duration stay. *)
Theorem cut_segment (before after : list TrackSegment)
  (pre post : list TrackPoint) (q p : TrackPoint) :
  let joined := before
                ++ [ {| points := (pre ++ [q]) ++ p :: post |} ] ++ after in
  let cut := before
             ++ [ {| points := pre ++ [q] |}; {| points := p :: post |} ]
             ++ after in
  distance (calculateTrackStats joined)
  = (distance (calculateTrackStats cut) + haversine q p)%R
  /\ elevationGain (calculateTrackStats joined)
     = (elevationGain (calculateTrackStats cut) + pairGain q p)%R
  /\ elevationLoss (calculateTrackStats joined)
     = (elevationLoss (calculateTrackStats cut) + pairLoss q p)%R
  /\ minElevation (calculateTrackStats joined)
     = minElevation (calculateTrackStats cut)
  /\ maxElevation (calculateTrackStats joined)
     = maxElevation (calculateTrackStats cut)
  /\ duration (calculateTrackStats joined)
     = duration (calculateTrackStats cut).
Proof.
  intros joined cut.
  pose proof (pairSum_cut pre post q p) as Hpair.
  assert (Hsum : forall g : TrackPoint -> TrackPoint -> R,
             Rsum (map (fun seg => pairSum g (points seg)) joined)
             = (Rsum (map (fun seg => pairSum g (points seg)) cut)
                + g q p)%R).
  { intros g. unfold joined, cut.
    rewrite !map_app, !Rsum_app. cbn [map points Rsum fold_right].
    rewrite Hpair. unfold Rsum. lra. }
  assert (Hpts : allPoints joined = allPoints cut).
  { unfold allPoints, joined, cut. rewrite !flat_map_app.
    cbn [flat_map points]. rewrite !app_nil_r. reflexivity. }
  destruct (stats_sums joined) as (Hd & Hg & Hl).
  destruct (stats_sums cut) as (Hd' & Hg' & Hl').
  rewrite Hd, Hg, Hl, Hd', Hg', Hl', !Hsum.
  split; [reflexivity|]. split; [reflexivity|]. split; [reflexivity|].
  apply stats_extremes_lists; unfold elevations, times;
    rewrite Hpts; reflexivity.
Qed.

(* ================================================================== *)
(** ** The normalizer: what it returns *)

Section NormalizerShape.

Variable newDate : string -> Date.
Variable dateNow : nat -> N.

Lemma forEachFrom_addTrackPoint (pts : list GPXPoint.t) :
  forall i pre,
    forEachFrom i (addTrackPoint newDate) pts [ {| points := pre |} ]
    = [ {| points := pre ++ map (trackPointOfTrack newDate) pts |} ].
Proof.
  induction pts as [|x pts IH]; intros i pre; cbn [forEachFrom map].
  - rewrite app_nil_r. reflexivity.
  - unfold addTrackPoint at 2. cbn [List.length Nat.eqb Nat.sub pushPoint points].
    rewrite IH, <- app_assoc. reflexivity.
Qed.

Lemma forEach_addTrackPoint (pts : list GPXPoint.t) :
  forEach (addTrackPoint newDate) pts []
  = segmentsOfPoints (map (trackPointOfTrack newDate) pts).
Proof.
  unfold forEach. destruct pts as [|x pts]; [reflexivity|].
  cbn [forEachFrom map segmentsOfPoints].
  unfold addTrackPoint at 2.
  cbn [List.length Nat.eqb Nat.sub app pushPoint points].
  apply forEachFrom_addTrackPoint.
Qed.

Lemma trackOfTrack_segments (fileName : option string) (now : N)
  (gpxTrack : GPXTrack.t) (j : nat) :
  segments (trackOfTrack newDate fileName now gpxTrack j)
  = segmentsOfPoints
      (map (trackPointOfTrack newDate) (GPXTrack.points gpxTrack)).
Proof. apply forEach_addTrackPoint. Qed.

Lemma trackOfRoute_segments (now : N) (route : GPXRoute.t) (j : nat) :
  segments (trackOfRoute now route j)
  = [ {| points := map trackPointOfRoute (GPXRoute.points route) |} ].
Proof.
  unfold trackOfRoute. cbn [segments]. unfold forEach.
  apply (forEachFrom_pushPoint0 trackPointOfRoute).
Qed.

(** Every Track that some branch pushes. *)
Lemma emitted_shape (gpx : GPXParserInstance.t) (fileName : option string)
  (t : Track) :
  In t (emittedTracks newDate dateNow fileName gpx
        ++ emittedRoutes dateNow gpx
        ++ emittedWaypoints dateNow fileName gpx) ->
  style t = DEFAULT_STYLE
  /\ visible t = true
  /\ stats t = Some (calculateTrackStats (segments t))
  /\ (List.length (segments t) <= 1)%nat.
Proof.
  intros Hin. apply in_app_or in Hin. destruct Hin as [Hin|Hin].
  - apply mapiFrom_In in Hin. destruct Hin as (j & x & _ & ->).
    repeat split. rewrite trackOfTrack_segments.
    destruct (map _ _); cbn; lia.
  - apply in_app_or in Hin. destruct Hin as [Hin|Hin].
    + apply mapiFrom_In in Hin. destruct Hin as (j & x & _ & ->).
      repeat split. rewrite trackOfRoute_segments. cbn. lia.
    + unfold emittedWaypoints in Hin.
      destruct (orEmpty (GPXParserInstance.waypoints gpx)); [contradiction|].
      destruct (orEmpty (GPXParserInstance.tracks gpx)); [|contradiction].
      destruct (orEmpty (GPXParserInstance.routes gpx)); [|contradiction].
      destruct Hin as [<-|[]]. repeat split.
      rewrite trackOfWaypoints_segments. cbn. lia.
Qed.

(** X7.  Every Track that the normalizer returns has the default style, is
    visible, carries the statistics of its own segments, and has at most one
    segment. *)
Theorem normalize_tracks_shape (gpx : GPXParserInstance.t)
  (fileName : option string) (ts : list Track) (t : Track) :
  normalize newDate dateNow gpx fileName = Return ts ->
  In t ts ->
  style t = DEFAULT_STYLE
  /\ visible t = true
  /\ stats t = Some (calculateTrackStats (segments t))
  /\ (List.length (segments t) <= 1)%nat.
Proof.
  intros Hret Hin. apply normalize_Return in Hret. subst ts.
  exact (emitted_shape gpx fileName t Hin).
Qed.

Lemma emitted_length (gpx : GPXParserInstance.t) (fileName : option string) :
  List.length (emittedTracks newDate dateNow fileName gpx
               ++ emittedRoutes dateNow gpx
               ++ emittedWaypoints dateNow fileName gpx)
  = (List.length (orEmpty (GPXParserInstance.tracks gpx))
     + List.length (orEmpty (GPXParserInstance.routes gpx))
     + match orEmpty (GPXParserInstance.tracks gpx),
             orEmpty (GPXParserInstance.routes gpx),
             orEmpty (GPXParserInstance.waypoints gpx) with
       | [], [], _ :: _ => 1
       | _, _, _ => 0
       end)%nat.
Proof.
  rewrite !length_app. unfold emittedTracks, emittedRoutes, emittedWaypoints.
  rewrite !mapiFrom_length.
  destruct (orEmpty (GPXParserInstance.tracks gpx)),
           (orEmpty (GPXParserInstance.routes gpx)),
           (orEmpty (GPXParserInstance.waypoints gpx)); cbn; lia.
Qed.

(** X8.  The normalizer throws only the NoGeometryFound error, and exactly
    when the document has no track, no route and no waypoint; otherwise it
    returns one Track per source track and per route, or, when there is
    neither, the single waypoints Track: never an empty list. *)
Theorem normalize_outcome (gpx : GPXParserInstance.t)
  (fileName : option string) :
  let tracks := orEmpty (GPXParserInstance.tracks gpx) in
  let routes := orEmpty (GPXParserInstance.routes gpx) in
  let waypoints := orEmpty (GPXParserInstance.waypoints gpx) in
  match normalize newDate dateNow gpx fileName with
  | Throw message =>
      message = NoGeometryFound
      /\ tracks = [] /\ routes = [] /\ waypoints = []
  | Return ts =>
      ts <> []
      /\ List.length ts
         = (List.length tracks + List.length routes
            + match tracks, routes with [], [] => 1 | _, _ => 0 end)%nat
      /\ (tracks <> [] \/ routes <> [] \/ waypoints <> [])
  end.
Proof.
  cbv zeta. rewrite normalize_eq. cbv zeta.
  pose proof (emitted_length gpx fileName) as Hlen.
  destruct (emittedTracks newDate dateNow fileName gpx
            ++ emittedRoutes dateNow gpx
            ++ emittedWaypoints dateNow fileName gpx) as [|t ts] eqn:E.
  - cbn [List.length Nat.eqb]. cbn [List.length] in Hlen.
    destruct (orEmpty (GPXParserInstance.tracks gpx)),
             (orEmpty (GPXParserInstance.routes gpx)),
             (orEmpty (GPXParserInstance.waypoints gpx));
      cbn in Hlen; try lia. repeat split.
  - change (List.length (t :: ts) =? 0)%nat with false. cbv iota.
    split; [discriminate|]. rewrite Hlen.
    destruct (orEmpty (GPXParserInstance.tracks gpx)),
             (orEmpty (GPXParserInstance.routes gpx)),
             (orEmpty (GPXParserInstance.waypoints gpx));
      cbn in Hlen |- *; try lia;
      (split; [reflexivity|]);
      try (left; discriminate); try (right; left; discriminate);
      right; right; discriminate.
Qed.

End NormalizerShape.

(** Witness for X7: the first Track of a document with tracks, a route and
    a waypoint. *)
Lemma normalize_tracks_shape_witness :
  let t := trackOfTrack sampleNewDate (Some "alps.gpx") (sampleClock 0)
             (GPXTrack.mk (Some "Ridge")
                [GPXPoint.mk 46 7 (Ele 2000) (Some "2024-05-01T08:00:00Z");
                 GPXPoint.mk 46 8 undefined (Some "")]) 0 in
  style t = DEFAULT_STYLE
  /\ visible t = true
  /\ stats t = Some (calculateTrackStats (segments t))
  /\ (List.length (segments t) <= 1)%nat.
Proof.
  intros t.
  apply (normalize_tracks_shape sampleNewDate sampleClock mixedDocument
           (Some "alps.gpx")
           [t;
            trackOfTrack sampleNewDate (Some "alps.gpx") (sampleClock 1)
              (GPXTrack.mk None []) 1;
            trackOfRoute (sampleClock 2) (GPXRoute.mk None []) 0]
           t).
  - reflexivity.
  - left. reflexivity.
Defined.

Lemma times_untimed {A : Type} (conv : A -> TrackPoint) (l : list A) :
  (forall x, time (conv x) = None) ->
  times [ {| points := map conv l |} ] = [].
Proof.
  intros H. unfold times, allPoints. cbn [flat_map points].
  rewrite app_nil_r. induction l as [|x l IH]; [reflexivity|].
  cbn [map flat_map]. rewrite H, IH. reflexivity.
Qed.

Section NormalizerOrder.

Variable newDate : string -> Date.
Variable dateNow : nat -> N.

(** X9.  Tracks are returned in document order, the source tracks first
    and the routes after them.  The Track of a source track holds the
    track's points in order as one segment, or no segment when the track has
    no point; the Track of a route always holds one segment, with the
    route's points in order and without their times. *)
Theorem normalize_order (gpx : GPXParserInstance.t)
  (fileName : option string) (ts : list Track) :
  normalize newDate dateNow gpx fileName = Return ts ->
  (forall j gpxTrack,
      nth_error (orEmpty (GPXParserInstance.tracks gpx)) j = Some gpxTrack ->
      exists t,
        nth_error ts j = Some t
        /\ segments t
           = segmentsOfPoints
               (map (trackPointOfTrack newDate) (GPXTrack.points gpxTrack)))
  /\ (forall j route,
         nth_error (orEmpty (GPXParserInstance.routes gpx)) j = Some route ->
         exists t,
           nth_error ts
             (List.length (orEmpty (GPXParserInstance.tracks gpx)) + j)
           = Some t
           /\ segments t
              = [ {| points := map trackPointOfRoute
                                   (GPXRoute.points route) |} ]).
Proof.
  intros Hret. apply normalize_Return in Hret. subst ts.
  assert (Hlen : List.length (emittedTracks newDate dateNow fileName gpx)
                 = List.length (orEmpty (GPXParserInstance.tracks gpx)))
    by apply mapiFrom_length.
  split.
  - intros j gpxTrack Hj.
    exists (trackOfTrack newDate fileName (dateNow j) gpxTrack j).
    split; [|apply trackOfTrack_segments].
    rewrite nth_error_app1
      by (rewrite Hlen; apply nth_error_Some; congruence).
    unfold emittedTracks. rewrite mapiFrom_nth, Hj. reflexivity.
  - intros j route Hj.
    eexists. split; [|apply trackOfRoute_segments].
    rewrite nth_error_app2 by (rewrite Hlen; lia).
    rewrite Hlen.
    replace (List.length (orEmpty (GPXParserInstance.tracks gpx)) + j
             - List.length (orEmpty (GPXParserInstance.tracks gpx)))%nat
      with j by lia.
    rewrite nth_error_app1
      by (unfold emittedRoutes; rewrite mapiFrom_length;
          apply nth_error_Some; congruence).
    unfold emittedRoutes. cbv zeta. rewrite mapiFrom_nth, Hj. reflexivity.
Qed.

(** X10.  A Track made from a route or from the waypoints never has a
    duration: every Track returned after those of the source tracks has
    statistics whose duration is undefined. *)
Theorem routes_have_no_duration (gpx : GPXParserInstance.t)
  (fileName : option string) (ts : list Track) (k : nat) (t : Track) :
  normalize newDate dateNow gpx fileName = Return ts ->
  nth_error ts k = Some t ->
  (List.length (orEmpty (GPXParserInstance.tracks gpx)) <= k)%nat ->
  exists st, stats t = Some st /\ duration st = None.
Proof.
  intros Hret Hk Hle. apply normalize_Return in Hret. subst ts.
  assert (Hlen : List.length (emittedTracks newDate dateNow fileName gpx)
                 = List.length (orEmpty (GPXParserInstance.tracks gpx)))
    by apply mapiFrom_length.
  rewrite nth_error_app2 in Hk by lia.
  apply nth_error_In in Hk.
  exists (calculateTrackStats (segments t)). split.
  { apply (emitted_shape newDate dateNow gpx fileName t).
    apply in_or_app. right. exact Hk. }
  rewrite stats_duration.
  apply in_app_or in Hk. destruct Hk as [Hin|Hin].
  - apply mapiFrom_In in Hin. destruct Hin as (j & route & _ & ->).
    rewrite trackOfRoute_segments, times_untimed; reflexivity.
  - unfold emittedWaypoints in Hin.
    destruct (orEmpty (GPXParserInstance.waypoints gpx)) as [|w ws];
      [contradiction|].
    destruct (orEmpty (GPXParserInstance.tracks gpx)); [|contradiction].
    destruct (orEmpty (GPXParserInstance.routes gpx)); [|contradiction].
    destruct Hin as [<-|[]].
    rewrite trackOfWaypoints_segments, times_untimed; reflexivity.
Qed.

End NormalizerOrder.

Lemma mixedDocument_normalized :
  normalize sampleNewDate sampleClock mixedDocument (Some "alps.gpx")
  = Return mixedTracks.
Proof. reflexivity. Qed.

(** Witness for X9: the second source track, which has no point, and the
    route, which has none either. *)
Lemma normalize_order_witness :
  (exists t, nth_error mixedTracks 1 = Some t /\ segments t = [])
  /\ (exists t, nth_error mixedTracks 2 = Some t
                /\ segments t = [ {| points := [] |} ]).
Proof.
  destruct (normalize_order sampleNewDate sampleClock mixedDocument
              (Some "alps.gpx") mixedTracks mixedDocument_normalized)
    as [Htracks Hroutes].
  split.
  - exact (Htracks 1%nat (GPXTrack.mk None []) eq_refl).
  - exact (Hroutes 0%nat (GPXRoute.mk None []) eq_refl).
Defined.

(** Witness for X10: the route's Track of the same document. *)
Lemma routes_have_no_duration_witness :
  exists st,
    stats (trackOfRoute (sampleClock 2) (GPXRoute.mk None []) 0) = Some st
    /\ duration st = None.
Proof.
  apply (routes_have_no_duration sampleNewDate sampleClock mixedDocument
           (Some "alps.gpx") mixedTracks 2
           (trackOfRoute (sampleClock 2) (GPXRoute.mk None []) 0)
           mixedDocument_normalized eq_refl).
  cbn. lia.
Defined.

(* ================================================================== *)
(** ** The tracks hook *)

Lemma removeTrack_app (trackId : string) (l1 l2 : list Track) :
  useTracks.removeTrack trackId (l1 ++ l2)
  = useTracks.removeTrack trackId l1 ++ useTracks.removeTrack trackId l2.
Proof. apply filter_app. Qed.

Lemma removeTrack_absent (trackId : string) (l : list Track) :
  (forall t, In t l -> id t <> trackId) ->
  useTracks.removeTrack trackId l = l.
Proof.
  unfold useTracks.removeTrack.
  induction l as [|t l IH]; intros H; [reflexivity|].
  cbn [filter]. destruct (String.eqb_spec (id t) trackId) as [E|E].
  - exfalso. apply (H t); [left; reflexivity|exact E].
  - cbn [negb]. rewrite IH; [reflexivity|].
    intros t' Ht'. apply H. right. exact Ht'.
Qed.

(** X11.  Removing a track removes every track that has the given id and
    nothing else; so removing the Track that [addTrack] has just added gives
    back the previous collection, provided no earlier track had the same id
    (otherwise those go too). *)
Theorem add_then_remove (now : N) (random : string) (track : TrackInput.t)
  (prev : list Track) :
  let newTrack := fst (useTracks.addTrack now random track prev) in
  let tracks := snd (useTracks.addTrack now random track prev) in
  In newTrack tracks
  /\ Forall (fun t => id t <> id newTrack)
            (useTracks.removeTrack (id newTrack) tracks)
  /\ useTracks.removeTrack (id newTrack) tracks
     = useTracks.removeTrack (id newTrack) prev
  /\ ((forall t, In t prev -> id t <> id newTrack) ->
      useTracks.removeTrack (id newTrack) tracks = prev).
Proof.
  cbn [useTracks.addTrack fst snd].
  set (newTrack := {| id := _ |}).
  assert (E : useTracks.removeTrack (id newTrack) (prev ++ [newTrack])
              = useTracks.removeTrack (id newTrack) prev).
  { rewrite removeTrack_app. unfold useTracks.removeTrack at 2.
    cbn [filter]. rewrite String.eqb_refl. cbn [negb]. apply app_nil_r. }
  split; [apply in_or_app; right; left; reflexivity|].
  split; [|split].
  - apply Forall_forall. intros t Ht.
    unfold useTracks.removeTrack in Ht. apply filter_In in Ht.
    destruct Ht as [_ Ht]. destruct (String.eqb_spec (id t) (id newTrack));
      [discriminate|assumption].
  - exact E.
  - intros Hfresh. rewrite E. apply removeTrack_absent, Hfresh.
Qed.

(** Witness for X11: a Track added to the two sample tracks and removed
    again. *)
Lemma add_then_remove_witness :
  useTracks.removeTrack "track-1700000000000-k3j9x0a2b"
    (snd (useTracks.addTrack 1700000000000 "k3j9x0a2b"
            (TrackInput.mk "Noon" [] None) sampleTracks))
  = sampleTracks.
Proof.
  apply (add_then_remove 1700000000000 "k3j9x0a2b"
           (TrackInput.mk "Noon" [] None) sampleTracks).
  intros t [<-|[<-|[]]]; cbn; discriminate.
Defined.

Lemma toggle_twice_one (trackId : string) (track : Track) :
  (let once := if String.eqb (id track) trackId
               then {| id := id track; name := name track;
                       segments := segments track; style := style track;
                       visible := negb (visible track);
                       stats := stats track |}
               else track in
   if String.eqb (id once) trackId
   then {| id := id once; name := name once; segments := segments once;
           style := style once; visible := negb (visible once);
           stats := stats once |}
   else once) = track.
Proof.
  cbv zeta. destruct (String.eqb (id track) trackId) eqn:E.
  - cbn [id name segments style visible stats]. rewrite E.
    rewrite negb_involutive. destruct track; reflexivity.
  - rewrite E. reflexivity.
Qed.

(** X12.  Toggling the visibility of a track twice gives back the collection
    as it was; one toggle changes nothing but the [visible] flag of the tracks
    with that id, which it negates; and toggling commutes with restyling. *)
Theorem toggle_visibility (trackId : string) (prev : list Track) :
  useTracks.toggleTrackVisibility trackId
    (useTracks.toggleTrackVisibility trackId prev) = prev
  /\ map id (useTracks.toggleTrackVisibility trackId prev) = map id prev
  /\ map name (useTracks.toggleTrackVisibility trackId prev) = map name prev
  /\ map segments (useTracks.toggleTrackVisibility trackId prev)
     = map segments prev
  /\ map style (useTracks.toggleTrackVisibility trackId prev) = map style prev
  /\ map stats (useTracks.toggleTrackVisibility trackId prev) = map stats prev
  /\ map visible (useTracks.toggleTrackVisibility trackId prev)
     = map (fun t => if String.eqb (id t) trackId
                     then negb (visible t) else visible t) prev
  /\ (forall (styledId : string) (new : PartialStyle.t),
        updateTrackStyle styledId new
          (useTracks.toggleTrackVisibility trackId prev)
        = useTracks.toggleTrackVisibility trackId
            (updateTrackStyle styledId new prev)).
Proof.
  unfold useTracks.toggleTrackVisibility, updateTrackStyle.
  split; [|repeat split].
  - rewrite map_map. rewrite <- (map_id prev) at 2.
    apply map_ext. intros track. apply (toggle_twice_one trackId track).
  - rewrite map_map. apply map_ext. intros t.
    destruct (String.eqb (id t) trackId); reflexivity.
  - rewrite map_map. apply map_ext. intros t.
    destruct (String.eqb (id t) trackId); reflexivity.
  - rewrite map_map. apply map_ext. intros t.
    destruct (String.eqb (id t) trackId); reflexivity.
  - rewrite map_map. apply map_ext. intros t.
    destruct (String.eqb (id t) trackId); reflexivity.
  - rewrite map_map. apply map_ext. intros t.
    destruct (String.eqb (id t) trackId); reflexivity.
  - rewrite map_map. apply map_ext. intros t.
    destruct (String.eqb (id t) trackId); reflexivity.
  - intros styledId new. rewrite !map_map. apply map_ext. intros t.
    destruct (String.eqb (id t) trackId) eqn:E1,
             (String.eqb (id t) styledId) eqn:E2;
      cbn [id name segments style visible stats]; rewrite ?E1, ?E2;
      reflexivity.
Qed.

Lemma mergeStyle_merge (old : TrackStyle) (first second : PartialStyle.t) :
  mergeStyle (mergeStyle old first) second
  = mergeStyle old (mergePartial first second).
Proof.
  unfold mergeStyle, mergePartial, override.
  cbn [color width opacity lineStyle PartialStyle.color PartialStyle.width
       PartialStyle.opacity PartialStyle.lineStyle].
  destruct (PartialStyle.color second), (PartialStyle.width second),
    (PartialStyle.opacity second), (PartialStyle.lineStyle second);
    reflexivity.
Qed.

(** X13.  Two style updates of the same track amount to one update with the
    two partial styles merged (the later one winning key by key), so
    repeating an update changes nothing more; updates of tracks with
    different ids commute. *)
Theorem style_updates_compose (trackId : string)
  (first second : PartialStyle.t) (prev : list Track) :
  updateTrackStyle trackId second (updateTrackStyle trackId first prev)
  = updateTrackStyle trackId (mergePartial first second) prev
  /\ updateTrackStyle trackId first (updateTrackStyle trackId first prev)
     = updateTrackStyle trackId first prev
  /\ (forall otherId : string,
        otherId <> trackId ->
        updateTrackStyle otherId second (updateTrackStyle trackId first prev)
        = updateTrackStyle trackId first
            (updateTrackStyle otherId second prev)).
Proof.
  unfold updateTrackStyle. split; [|split].
  - rewrite map_map. apply map_ext. intros t.
    destruct (String.eqb (id t) trackId) eqn:E;
      cbn [id name segments style visible stats]; rewrite E;
      [rewrite mergeStyle_merge|]; reflexivity.
  - rewrite map_map. apply map_ext. intros t.
    destruct (String.eqb (id t) trackId) eqn:E;
      cbn [id name segments style visible stats]; rewrite E; [|reflexivity].
    f_equal. rewrite mergeStyle_merge. f_equal.
    unfold mergePartial. destruct first as [c w o l].
    cbn. destruct c, w, o, l; reflexivity.
  - intros otherId Hne. rewrite !map_map. apply map_ext. intros t.
    destruct (String.eqb (id t) trackId) eqn:E1,
             (String.eqb (id t) otherId) eqn:E2;
      cbn [id name segments style visible stats]; rewrite ?E1, ?E2;
      try reflexivity.
    apply String.eqb_eq in E1, E2. congruence.
Qed.

(** Witness for X13: the colour of "track-1" and the width of "track-2". *)
Lemma style_updates_compose_witness :
  updateTrackStyle "track-2" (PartialStyle.mk None (Some 5%R) None None)
    (updateTrackStyle "track-1" sampleStyle sampleTracks)
  = updateTrackStyle "track-1" sampleStyle
      (updateTrackStyle "track-2" (PartialStyle.mk None (Some 5%R) None None)
         sampleTracks).
Proof.
  destruct (style_updates_compose "track-1" sampleStyle
              (PartialStyle.mk None (Some 5%R) None None) sampleTracks)
    as (_ & _ & H).
  apply H. discriminate.
Defined.

(* ================================================================== *)
(** ** From a file to the tracks held *)

Lemma map_mapiFrom {A B C : Type} (g : B -> C) (h : A -> C)
  (f : nat -> A -> B) (l : list A) :
  (forall j x, g (f j x) = h x) ->
  forall i, map g (mapiFrom i f l) = map h l.
Proof.
  intros H. induction l as [|x l IH]; intros i; cbn; [reflexivity|].
  rewrite H, IH. reflexivity.
Qed.

Section FromFile.

Variable newDate : string -> Date.
Variable dateNow : nat -> N.
Variable randomSuffix : nat -> string.
Variable parse : string -> GPXParserInstance.t.
Variable fileText : File.t -> string.

(** X14.  Read through [parseGPXFile], a source track without a name of
    its own is named after the file, unless the file's name is empty: the
    label "Track N" is never used for a file that has a name. *)
Theorem parseGPXFile_names (file : File.t) (ts : list Track) :
  parseGPXFile newDate dateNow (Some parse) fileText file = Return ts ->
  File.name file <> "" ->
  forall j gpxTrack,
    nth_error (orEmpty (GPXParserInstance.tracks (parse (fileText file)))) j
    = Some gpxTrack ->
    exists t,
      nth_error ts j = Some t
      /\ name t = orElse (GPXTrack.name gpxTrack) (File.name file).
Proof.
  unfold parseGPXFile, parseGPXString. cbv zeta.
  intros Hret Hname j gpxTrack Hj.
  apply normalize_Return in Hret. subst ts.
  exists (trackOfTrack newDate (Some (File.name file)) (dateNow j)
            gpxTrack j).
  split.
  - rewrite nth_error_app1.
    + unfold emittedTracks. rewrite mapiFrom_nth, Hj. reflexivity.
    + unfold emittedTracks. rewrite mapiFrom_length.
      apply nth_error_Some. congruence.
  - cbn [trackOfTrack name]. f_equal.
    unfold orElse, truthy. destruct (File.name file); [contradiction|].
    reflexivity.
Qed.

Lemma handleFileUpload_spec
  (GPXParser : option (string -> GPXParserInstance.t))
  (file : File.t) (prev : list Track) :
  let result := handleFileUpload newDate dateNow randomSuffix GPXParser
                  fileText file prev in
  match parseGPXFile newDate dateNow GPXParser fileText file with
  | Return parsed =>
      fst result = Return tt
      /\ exists added : list Track,
           snd result = prev ++ added
           /\ map name added = map name parsed
           /\ map segments added = map segments parsed
           /\ map stats added = map stats parsed
           /\ Forall (fun t => style t = DEFAULT_STYLE /\ visible t = true)
                     added
  | Throw message => result = (Throw message, prev)
  end.
Proof.
  cbv zeta. unfold handleFileUpload.
  destruct (parseGPXFile newDate dateNow GPXParser fileText file)
    as [parsed|message]; [|reflexivity].
  cbn [fst snd]. split; [reflexivity|].
  unfold forEach, useTracks.addTrack. cbn [snd].
  rewrite (forEachFrom_push
             (fun (_ : nat) track index =>
                {| id := "track-"
                         ++ decimal (dateNow (List.length parsed + index))
                         ++ "-" ++ randomSuffix index;
                   name := name track;
                   segments := segments track;
                   style := DEFAULT_STYLE;
                   visible := true;
                   stats := stats track |})).
  eexists. split; [reflexivity|].
  split; [|split; [|split]].
  - apply map_mapiFrom. reflexivity.
  - apply map_mapiFrom. reflexivity.
  - apply map_mapiFrom. reflexivity.
  - apply Forall_forall. intros t Ht. apply mapiFrom_In in Ht.
    destruct Ht as (j & x & _ & ->). split; reflexivity.
Qed.

(** X15.  [handleFileUpload] adds to the tracks held one Track per parsed
    Track, after the ones already there and in the parser's order, each
    with the parsed name, segments and statistics, the default style and
    visible; when parsing throws, the error is thrown on and the tracks
    held are untouched. *)
Theorem handleFileUpload_adds
  (GPXParser : option (string -> GPXParserInstance.t))
  (file : File.t) (prev : list Track) :
  let result := handleFileUpload newDate dateNow randomSuffix GPXParser
                  fileText file prev in
  match parseGPXFile newDate dateNow GPXParser fileText file with
  | Return parsed =>
      fst result = Return tt
      /\ exists added : list Track,
           snd result = prev ++ added
           /\ map name added = map name parsed
           /\ map segments added = map segments parsed
           /\ map stats added = map stats parsed
           /\ Forall (fun t => style t = DEFAULT_STYLE /\ visible t = true)
                     added
  | Throw message => result = (Throw message, prev)
  end.
Proof. exact (handleFileUpload_spec GPXParser file prev). Qed.

(** X21.  The page's uploader end to end ([FileUploader] with
    [handleFileUpload] as [onFileUpload]).  A file whose extension is not
    ".gpx" changes neither the tracks held nor the list of uploaded files.
    A ".gpx" file on which parsing throws (no parser, or no track, route
    or waypoint) leaves both unchanged too, and the toast carries the
    error's message.  Otherwise the tracks held grow by the parsed Tracks
    and the file is recorded. *)
Theorem upload_end_to_end
  (GPXParser : option (string -> GPXParserInstance.t))
  (file : File.t) (prev : list Track) (ui : FileUploader.State) :
  let result :=
    FileUploader.handleFile FileUploader.defaultAcceptedFormats
      (handleFileUpload newDate dateNow randomSuffix GPXParser fileText)
      file prev ui in
  let tracks := fst (fst result) in
  let ui' := snd (fst result) in
  if String.eqb (fileExtensionOf file) ".gpx" then
    match parseGPXFile newDate dateNow GPXParser fileText file with
    | Return parsed =>
        List.length tracks = (List.length prev + List.length parsed)%nat
        /\ firstn (List.length prev) tracks = prev
        /\ FileUploader.uploadedFiles ui'
           = FileUploader.uploadedFiles ui ++ [file]
    | Throw message =>
        tracks = prev
        /\ FileUploader.uploadedFiles ui' = FileUploader.uploadedFiles ui
        /\ snd result = [ {| title := "Upload failed";
                             description := message;
                             variant := Some "destructive" |} ]
    end
  else tracks = prev /\ ui' = ui.
Proof.
  cbv zeta. unfold FileUploader.handleFile.
  unfold FileUploader.defaultAcceptedFormats, includes. cbn [existsb].
  rewrite Bool.orb_false_r.
  destruct (String.eqb (fileExtensionOf file) ".gpx"); cbn [negb];
    [|split; reflexivity].
  pose proof (handleFileUpload_spec GPXParser file prev) as H.
  cbv zeta in H.
  destruct (parseGPXFile newDate dateNow GPXParser fileText file)
    as [parsed|message].
  - destruct H as [Hfst (added & Hsnd & Hname & _)].
    destruct (handleFileUpload newDate dateNow randomSuffix GPXParser
                fileText file prev) as [outcome tracks].
    cbn [fst snd] in *. subst outcome tracks.
    cbn [fst snd FileUploader.uploadedFiles FileUploader.isUploading].
    assert (Hlen : List.length added = List.length parsed)
      by (rewrite <- (length_map name added), Hname; apply length_map).
    split; [rewrite length_app; lia|]. split; [|reflexivity].
    rewrite firstn_app, Nat.sub_diag, firstn_all. cbn [firstn].
    apply app_nil_r.
  - rewrite H. cbn. repeat split.
Qed.

End FromFile.

(** Witness for X14: the unnamed track of a document read from
    "hike.gpx". *)
Lemma parseGPXFile_names_witness :
  exists t,
    nth_error
      [trackOfTrack sampleNewDate (Some "hike.gpx") (sampleClock 0)
         (GPXTrack.mk None [GPXPoint.mk 1 1 undefined None]) 0] 0
    = Some t
    /\ name t = "hike.gpx".
Proof.
  assert (Hname : File.name (File.mk "hike.gpx" 2048 "application/gpx+xml")
                  <> "") by (cbn; discriminate).
  exact (parseGPXFile_names sampleNewDate sampleClock sampleParse sampleText
           (File.mk "hike.gpx" 2048 "application/gpx+xml")
           [trackOfTrack sampleNewDate (Some "hike.gpx") (sampleClock 0)
              (GPXTrack.mk None [GPXPoint.mk 1 1 undefined None]) 0]
           eq_refl Hname 0%nat
           (GPXTrack.mk None [GPXPoint.mk 1 1 undefined None]) eq_refl).
Defined.

(* ================================================================== *)
(** ** File names and validation *)

Lemma split_nonempty (sep : ascii) (s : string) : split sep s <> [].
Proof.
  destruct s as [|c rest]; cbn; [discriminate|].
  destruct (Ascii.eqb c sep); [discriminate|].
  destruct (split sep rest); discriminate.
Qed.

Lemma split_without (sep : ascii) (s : string) :
  hasChar sep s = false -> split sep s = [s].
Proof.
  induction s as [|c rest IH]; cbn [hasChar split]; [reflexivity|].
  destruct (Ascii.eqb c sep); cbn [orb]; intros H; [discriminate H|].
  rewrite (IH H). reflexivity.
Qed.

Lemma pop_cons (x : string) (l : list string) :
  l <> [] -> pop (x :: l) = pop l.
Proof. destruct l; [contradiction|reflexivity]. Qed.

Lemma split_after_length (sep : ascii) (base rest : string) :
  (2 <= List.length (split sep (base ++ String sep rest)))%nat.
Proof.
  induction base as [|c base IH]; cbn [String.append split].
  - rewrite Ascii.eqb_refl. pose proof (split_nonempty sep rest).
    destruct (split sep rest); [contradiction|]. cbn. lia.
  - destruct (Ascii.eqb c sep); [cbn [List.length]; lia|].
    destruct (split sep (base ++ String sep rest)); cbn in *; lia.
Qed.

Lemma pop_split_after (sep : ascii) (base rest : string) :
  pop (split sep (base ++ String sep rest)) = pop (split sep rest).
Proof.
  induction base as [|c base IH].
  - cbn [String.append split]. rewrite Ascii.eqb_refl.
    apply pop_cons, split_nonempty.
  - cbn [String.append split]. destruct (Ascii.eqb c sep).
    + rewrite pop_cons by apply split_nonempty. exact IH.
    + pose proof (split_after_length sep base rest) as Hlen.
      destruct (split sep (base ++ String sep rest)) as [|h [|h' t]];
        cbn in Hlen; try lia.
      rewrite <- IH. reflexivity.
Qed.

Lemma toLowerAscii_idem (c : ascii) : toLowerAscii (toLowerAscii c) = toLowerAscii c.
Proof.
  destruct c as [[|] [|] [|] [|] [|] [|] [|] [|]]; reflexivity.
Qed.

Lemma toLowerCase_idem (s : string) : toLowerCase (toLowerCase s) = toLowerCase s.
Proof.
  induction s as [|c s IH]; cbn; [reflexivity|].
  rewrite toLowerAscii_idem, IH. reflexivity.
Qed.

(** X16.  The extension that the uploaders check is what follows the last
    dot of the file name, lower-cased, so the check ignores case and
    everything before that dot; a name without any dot counts as extension in
    full. *)
Theorem fileExtension_last_dot (base ext : string) (size : N) (type : string) :
  hasChar "." ext = false ->
  fileExtensionOf (File.mk (base ++ String "." ext) size type)
  = String "." (toLowerCase ext)
  /\ fileExtensionOf (File.mk ext size type) = String "." (toLowerCase ext)
  /\ (forall base' : string,
        fileExtensionOf (File.mk (base' ++ String "." (toLowerCase ext))
                           size type)
        = fileExtensionOf (File.mk (base ++ String "." ext) size type)).
Proof.
  intros Hext.
  assert (H1 : forall b e, hasChar "." e = false ->
             fileExtensionOf (File.mk (b ++ String "." e) size type)
             = String "." (toLowerCase e)).
  { intros b e He. unfold fileExtensionOf. cbn [File.name].
    rewrite pop_split_after, (split_without "." e He). reflexivity. }
  assert (Hlow : hasChar "." (toLowerCase ext) = false).
  { clear H1. induction ext as [|c e IH]; [reflexivity|].
    cbn [hasChar toLowerCase] in *.
    apply Bool.orb_false_iff in Hext. destruct Hext as [Hc He].
    rewrite (IH He), Bool.orb_false_r.
    destruct c as [[|] [|] [|] [|] [|] [|] [|] [|]];
      try reflexivity; discriminate Hc. }
  split; [apply H1, Hext|]. split.
  - unfold fileExtensionOf. cbn [File.name].
    rewrite (split_without "." ext Hext). reflexivity.
  - intros base'. rewrite (H1 base' _ Hlow), (H1 base ext Hext).
    rewrite toLowerCase_idem. reflexivity.
Qed.

(** Witness for X16: "Summit.Ridge.JPG" and the bare name "JPG". *)
Lemma fileExtension_last_dot_witness :
  fileExtensionOf (File.mk "Summit.Ridge.JPG" 10 "") = ".jpg"
  /\ fileExtensionOf (File.mk "JPG" 10 "") = ".jpg".
Proof.
  destruct (fileExtension_last_dot "Summit.Ridge" "JPG" 10 "" eq_refl)
    as (H1 & H2 & _).
  exact (conj H1 H2).
Defined.

Lemma filter_idem {A : Type} (f : A -> bool) (l : list A) :
  filter f (filter f l) = filter f l.
Proof.
  induction l as [|x l IH]; [reflexivity|].
  cbn [filter]. destruct (f x) eqn:E; [|exact IH].
  cbn [filter]. rewrite E, IH. reflexivity.
Qed.

Lemma validateFiles_eq (acceptedFormats : list string) (files : list File.t) :
  fst (validateFiles acceptedFormats files)
  = filter (accepted acceptedFormats) files
  /\ List.length (snd (validateFiles acceptedFormats files))
     = List.length
         (filter (fun f => negb (accepted acceptedFormats f)) files).
Proof.
  destruct (validateFiles_fold acceptedFormats files [] []) as [Hv Ht].
  split; [exact Hv|exact Ht].
Qed.

(** X17.  Validation is stable: the files that [validateFiles] keeps all
    pass it again, without any toast; and validating a batch in two parts
    keeps the same files as validating it at once. *)
Theorem validateFiles_stable (acceptedFormats : list string)
  (files more : list File.t) :
  validateFiles acceptedFormats (fst (validateFiles acceptedFormats files))
  = (fst (validateFiles acceptedFormats files), [])
  /\ fst (validateFiles acceptedFormats (files ++ more))
     = fst (validateFiles acceptedFormats files)
       ++ fst (validateFiles acceptedFormats more)
  /\ Forall (fun f => accepted acceptedFormats f = true)
            (fst (validateFiles acceptedFormats files)).
Proof.
  destruct (validateFiles_eq acceptedFormats files) as [Hv _].
  destruct (validateFiles_eq acceptedFormats
              (fst (validateFiles acceptedFormats files))) as [Hv2 Ht2].
  split; [|split].
  - destruct (validateFiles acceptedFormats
                (fst (validateFiles acceptedFormats files))) as [v ts].
    cbn [fst snd] in *. f_equal.
    + rewrite Hv2, Hv. apply filter_idem.
    + rewrite Hv in Ht2.
      assert (E : filter (fun f => negb (accepted acceptedFormats f))
                         (filter (accepted acceptedFormats) files) = []).
      { clear. induction files as [|x l IH]; [reflexivity|].
        cbn [filter]. destruct (accepted acceptedFormats x) eqn:E; [|exact IH].
        cbn [filter]. rewrite E. exact IH. }
      rewrite E in Ht2. destruct ts; [reflexivity|discriminate].
  - rewrite !(proj1 (validateFiles_eq _ _)). apply filter_app.
  - rewrite Hv. apply Forall_forall. intros f Hf.
    apply filter_In in Hf. apply Hf.
Qed.

(** X18.  [handleFiles] shows one toast for each rejected file and, when at
    least one file is kept, exactly one closing toast: the success toast when
    [onPhotosUpload] returns, "Upload failed" carrying the error's message
    when it throws.  When no file is kept, [onPhotosUpload] is not called and
    there is no closing toast. *)
Theorem handleFiles_toasts (St : Type) (acceptedFormats : list string)
  (onPhotosUpload : list File.t -> St -> Result unit * St)
  (files : list File.t) (st : St) :
  let validFiles := fst (validateFiles acceptedFormats files) in
  let rejections := snd (validateFiles acceptedFormats files) in
  let result := handleFiles acceptedFormats onPhotosUpload files st in
  match validFiles with
  | [] => result = (st, rejections)
          /\ List.length rejections = List.length files
  | _ :: _ =>
      exists closing : Toast,
        result = (snd (onPhotosUpload validFiles st), rejections ++ [closing])
        /\ match fst (onPhotosUpload validFiles st) with
           | Return _ =>
               title closing = "Photos uploaded successfully"
               /\ variant closing = None
           | Throw message =>
               title closing = "Upload failed"
               /\ description closing = message
               /\ variant closing = Some "destructive"
           end
  end.
Proof.
  cbv zeta. unfold handleFiles.
  destruct (validateFiles_eq acceptedFormats files) as [Hv Ht].
  destruct (validateFiles acceptedFormats files) as [valid ts].
  cbn [fst snd] in *.
  destruct valid as [|v valid'].
  - cbn [List.length Nat.eqb]. split; [reflexivity|].
    rewrite Ht. clear Ht. symmetry in Hv.
    induction files as [|x l IH]; [reflexivity|].
    cbn [filter] in *. destruct (accepted acceptedFormats x);
      [discriminate|]. cbn [negb List.length]. f_equal. apply IH, Hv.
  - cbn [List.length Nat.eqb].
    destruct (onPhotosUpload (v :: valid') st) as [[[]|message] st'];
      eexists; (split; [reflexivity|]); cbn; repeat split.
Qed.

(* ================================================================== *)
(** ** The GPX file uploader *)

(** X19.  [handleFile] always shows exactly one toast.  A file whose
    extension is not accepted is refused before [onFileUpload] is called:
    the owner's state and the component's state stay as they were.  An
    accepted file is recorded among the uploaded files exactly when
    [onFileUpload] returns; when it throws, the toast carries the error's
    message and the list is unchanged.  Either way uploading is over. *)
Theorem handleFile_outcomes (St : Type) (acceptedFormats : list string)
  (onFileUpload : File.t -> St -> Result unit * St)
  (file : File.t) (st : St) (ui : FileUploader.State) :
  let result := FileUploader.handleFile acceptedFormats onFileUpload file st ui in
  let st' := fst (fst result) in
  let ui' := snd (fst result) in
  exists toast : Toast,
    snd result = [toast]
    /\ if includes acceptedFormats (fileExtensionOf file)
       then st' = snd (onFileUpload file st)
            /\ FileUploader.isUploading ui' = false
            /\ match fst (onFileUpload file st) with
               | Return _ =>
                   FileUploader.uploadedFiles ui'
                   = FileUploader.uploadedFiles ui ++ [file]
                   /\ variant toast = None
               | Throw message =>
                   FileUploader.uploadedFiles ui'
                   = FileUploader.uploadedFiles ui
                   /\ title toast = "Upload failed"
                   /\ description toast = message
               end
       else st' = st /\ ui' = ui /\ title toast = "Invalid file format".
Proof.
  cbv zeta. unfold FileUploader.handleFile.
  destruct (includes acceptedFormats (fileExtensionOf file)); cbn [negb].
  - destruct (onFileUpload file st) as [[[]|message] st'];
      eexists; (split; [reflexivity|]); cbn; repeat split.
  - eexists. split; [reflexivity|]. cbn. repeat split.
Qed.

Lemma dropIndexFrom_spec {A : Type} (l : list A) :
  forall i index,
    FileUploader.dropIndexFrom i index l
    = if (index <? i)%nat then l
      else firstn (index - i) l ++ skipn (S (index - i)) l.
Proof.
  induction l as [|x l IH]; intros i index.
  - cbn [FileUploader.dropIndexFrom]. rewrite firstn_nil, skipn_nil.
    destruct (index <? i)%nat; reflexivity.
  - cbn [FileUploader.dropIndexFrom]. rewrite IH.
    destruct (Nat.eqb_spec i index) as [->|Hne].
    + replace (index <? S index)%nat with true
        by (symmetry; apply Nat.ltb_lt; lia).
      rewrite Nat.ltb_irrefl, Nat.sub_diag. reflexivity.
    + destruct (Nat.ltb_spec index i) as [Hlt|Hge].
      * replace (index <? S i)%nat with true
          by (symmetry; apply Nat.ltb_lt; lia).
        reflexivity.
      * replace (index <? S i)%nat with false
          by (symmetry; apply Nat.ltb_ge; lia).
        replace (index - i)%nat with (S (index - S i)) by lia.
        reflexivity.
Qed.

(** X20.  [removeFile] removes exactly the entry at the given position of
    the uploaded files, whatever other entries equal it, and keeps the order
    of the rest; a position past the end changes nothing. *)
Theorem removeFile_at (index : nat) (ui : FileUploader.State) :
  let files := FileUploader.uploadedFiles ui in
  let files' := FileUploader.uploadedFiles (FileUploader.removeFile index ui) in
  files' = firstn index files ++ skipn (S index) files
  /\ ((index < List.length files)%nat ->
      S (List.length files') = List.length files)
  /\ ((List.length files <= index)%nat -> files' = files)
  /\ FileUploader.isUploading (FileUploader.removeFile index ui)
     = FileUploader.isUploading ui.
Proof.
  cbv zeta. unfold FileUploader.removeFile.
  cbn [FileUploader.uploadedFiles FileUploader.isUploading].
  rewrite dropIndexFrom_spec. cbn [Nat.ltb Nat.leb]. rewrite Nat.sub_0_r.
  split; [reflexivity|]. split; [|split; [|reflexivity]].
  - intros Hlt. rewrite length_app, firstn_length_le, length_skipn by lia. lia.
  - intros Hge. rewrite firstn_all2 by lia.
    rewrite skipn_all2 by lia. apply app_nil_r.
Qed.

(** Witness for X20: the middle one of three uploads of the same file. *)
Lemma removeFile_at_witness :
  let gpx := File.mk "hike.gpx" 2048 "" in
  let ui := FileUploader.mkState false [gpx; gpx; gpx] in
  S (List.length (FileUploader.uploadedFiles (FileUploader.removeFile 1 ui)))
  = 3%nat.
Proof.
  intros gpx ui.
  destruct (removeFile_at 1 ui) as (_ & H & _).
  apply H. cbn. lia.
Defined.

(* ================================================================== *)
(** ** The thumbnail's size *)

(** X22.  For an image of positive width and height the thumbnail fits in
    the square of side [maxSize], is never larger than the image, keeps the
    image's proportions, and is the image's own size when that already fits;
    when the image does not fit, the thumbnail's longer side is
    [maxSize]. *)
Theorem thumbnailSize_fits (imgWidth imgHeight maxSize : R) :
  (0 < imgWidth)%R -> (0 < imgHeight)%R -> (0 < maxSize)%R ->
  let width := fst (thumbnailSize imgWidth imgHeight maxSize) in
  let height := snd (thumbnailSize imgWidth imgHeight maxSize) in
  (0 < width <= maxSize)%R /\ (0 < height <= maxSize)%R
  /\ (width <= imgWidth)%R /\ (height <= imgHeight)%R
  /\ (width * imgHeight = height * imgWidth)%R
  /\ ((imgWidth <= maxSize)%R -> (imgHeight <= maxSize)%R ->
      width = imgWidth /\ height = imgHeight)
  /\ ((maxSize < imgWidth)%R \/ (maxSize < imgHeight)%R ->
      Rmax width height = maxSize).
Proof.
  intros Hw Hh Hm. cbv zeta. unfold thumbnailSize. cbv zeta.
  destruct (Rgt_dec imgWidth imgHeight) as [Hgt|Hle].
  - destruct (Rgt_dec imgWidth maxSize) as [Hbig|Hsmall]; cbn [fst snd].
    + assert (Hq : (0 < imgHeight * maxSize / imgWidth)%R).
      { apply Rdiv_lt_0_compat; [apply Rmult_lt_0_compat|]; lra. }
      assert (Hq1 : (imgHeight * maxSize / imgWidth < maxSize)%R).
      { apply (Rmult_lt_reg_r imgWidth); [lra|].
        unfold Rdiv. rewrite Rmult_assoc, Rinv_l by lra. nra. }
      assert (Hq2 : (imgHeight * maxSize / imgWidth <= imgHeight)%R).
      { apply (Rmult_le_reg_r imgWidth); [lra|].
        unfold Rdiv. rewrite Rmult_assoc, Rinv_l by lra. nra. }
      split; [lra|]. split; [lra|]. split; [lra|]. split; [lra|].
      split; [field; lra|]. split; [intros H1 H2; lra|].
      intros _. rewrite Rmax_left by lra. reflexivity.
    + split; [lra|]. split; [lra|]. split; [lra|]. split; [lra|].
      split; [lra|]. split; [intros H1 H2; split; reflexivity|].
      intros [H|H]; lra.
  - destruct (Rgt_dec imgHeight maxSize) as [Hbig|Hsmall]; cbn [fst snd].
    + assert (Hq : (0 < imgWidth * maxSize / imgHeight)%R).
      { apply Rdiv_lt_0_compat; [apply Rmult_lt_0_compat|]; lra. }
      assert (Hq1 : (imgWidth * maxSize / imgHeight <= maxSize)%R).
      { apply (Rmult_le_reg_r imgHeight); [lra|].
        unfold Rdiv. rewrite Rmult_assoc, Rinv_l by lra. nra. }
      assert (Hq2 : (imgWidth * maxSize / imgHeight <= imgWidth)%R).
      { apply (Rmult_le_reg_r imgHeight); [lra|].
        unfold Rdiv. rewrite Rmult_assoc, Rinv_l by lra. nra. }
      split; [lra|]. split; [lra|]. split; [lra|]. split; [lra|].
      split; [field; lra|]. split; [intros H1 H2; lra|].
      intros _. rewrite Rmax_right by lra. reflexivity.
    + split; [lra|]. split; [lra|]. split; [lra|]. split; [lra|].
      split; [lra|]. split; [intros H1 H2; split; reflexivity|].
      intros [H|H]; lra.
Qed.

(** Witness for X22: a 4000 by 3000 photo and [maxSize] 200. *)
Lemma thumbnailSize_fits_witness :
  (fst (thumbnailSize 4000 3000 200) * 3000
   = snd (thumbnailSize 4000 3000 200) * 4000)%R.
Proof.
  assert (H1 : (0 < 4000)%R) by lra.
  assert (H2 : (0 < 3000)%R) by lra.
  assert (H3 : (0 < 200)%R) by lra.
  destruct (thumbnailSize_fits 4000 3000 200 H1 H2 H3)
    as (_ & _ & _ & _ & H & _).
  exact H.
Defined.

(* ================================================================== *)
(** ** The photos hook *)

Section PhotoHookFacts.

Variable exifrParse : File.t -> Result (option ExifData.t).
Variable fileToDataUrl : File.t -> Result string.
Variable createThumbnail : File.t -> N -> Result (option string).
Variable dateNow : nat -> N.
Variable randomSuffix : nat -> string.

(** X23.  Adding one photo is adding a batch of one: [addPhoto] returns the
    Photo that [addMultiplePhotos] returns for the one-file batch, or
    [null] when that batch comes back empty, and leaves the hook in the
    same state. *)
Theorem addPhoto_is_batch_of_one (file : File.t) (hook : PhotoHook) :
  usePhotos.addPhoto exifrParse fileToDataUrl createThumbnail dateNow
    randomSuffix file hook
  = (hd_error (fst (addMultiplePhotos exifrParse fileToDataUrl
                      createThumbnail dateNow randomSuffix [file] hook)),
     snd (addMultiplePhotos exifrParse fileToDataUrl createThumbnail
            dateNow randomSuffix [file] hook)).
Proof.
  unfold usePhotos.addPhoto, addMultiplePhotos. cbn [fold_left fst snd].
  unfold processFile.
  destruct (extractPhotoMetadata exifrParse file) as [metadata|?];
    [|reflexivity].
  destruct (fileToDataUrl file) as [dataUrl|?]; reflexivity.
Qed.

Lemma processFile_step_full (processed : list Photo.t) (file : File.t) :
  (succeeds exifrParse fileToDataUrl file = true
   /\ exists photo : Photo.t,
        processFile exifrParse fileToDataUrl createThumbnail dateNow
          randomSuffix processed file
        = processed ++ [photo]
        /\ Photo.name photo = File.name file
        /\ Photo.size photo = File.size file
        /\ Photo.visible photo = true
        /\ Photo.location photo = locationOf (exifrParse file))
  \/ (succeeds exifrParse fileToDataUrl file = false
      /\ processFile exifrParse fileToDataUrl createThumbnail dateNow
           randomSuffix processed file
         = processed).
Proof.
  unfold succeeds, processFile, extractPhotoMetadata, locationOf.
  destruct (exifrParse file) as [[data|]|?];
    destruct (fileToDataUrl file) as [dataUrl|?];
    try (right; split; reflexivity);
    left; (split; [reflexivity|]); eexists; (split; [reflexivity|]);
    cbn; repeat split.
Qed.

Lemma processFile_created (files : list File.t) :
  forall processed : list Photo.t,
  exists created : list Photo.t,
    fold_left (processFile exifrParse fileToDataUrl createThumbnail
                 dateNow randomSuffix) files processed
    = processed ++ created
    /\ Forall2 (fun file photo =>
                  Photo.name photo = File.name file
                  /\ Photo.size photo = File.size file
                  /\ Photo.visible photo = true
                  /\ Photo.location photo = locationOf (exifrParse file))
               (filter (succeeds exifrParse fileToDataUrl) files) created.
Proof.
  induction files as [|file files IH]; intros processed.
  - exists []. split; [symmetry; apply app_nil_r|constructor].
  - cbn [fold_left filter].
    destruct (processFile_step_full processed file)
      as [[Hok (photo & -> & Hp)]|[Hok ->]]; rewrite Hok.
    + destruct (IH (processed ++ [photo])) as (created & E & H).
      exists (photo :: created).
      split; [rewrite E, <- app_assoc; reflexivity|].
      constructor; assumption.
    + apply IH.
Qed.

(** X24.  Each Photo that [addMultiplePhotos] creates is visible and has
    the name and size of its file; its location is the one exifr gave,
    present only when exifr resolved with both a latitude and a longitude.
    So of the photos added, [getPhotosWithLocation] returns exactly those
    with such a location. *)
Theorem created_photos_on_map (files : list File.t) (hook : PhotoHook) :
  let result := addMultiplePhotos exifrParse fileToDataUrl createThumbnail
                  dateNow randomSuffix files hook in
  Forall2 (fun file photo =>
             Photo.name photo = File.name file
             /\ Photo.size photo = File.size file
             /\ Photo.visible photo = true
             /\ Photo.location photo = locationOf (exifrParse file))
          (filter (succeeds exifrParse fileToDataUrl) files) (fst result)
  /\ usePhotos.getPhotosWithLocation (snd result)
     = usePhotos.getPhotosWithLocation hook
       ++ filter (fun p => match Photo.location p with
                           | Some _ => true
                           | None => false
                           end) (fst result).
Proof.
  cbv zeta.
  destruct (processFile_created files []) as (created & E & H).
  cbn [app] in E.
  destruct (addMultiplePhotos_hook exifrParse fileToDataUrl createThumbnail
              dateNow randomSuffix files hook) as [Hphotos _].
  cbv zeta in Hphotos.
  assert (Ecreated : fst (addMultiplePhotos exifrParse fileToDataUrl
                            createThumbnail dateNow randomSuffix files hook)
                     = created) by exact E.
  rewrite Ecreated in *. split; [exact H|].
  unfold usePhotos.getPhotosWithLocation at 1 2. rewrite Hphotos.
  rewrite filter_app. f_equal.
  clear - H. induction H as [|file photo fs ps Hp _ IH]; [reflexivity|].
  cbn [filter]. destruct Hp as (_ & _ & Hv & _). rewrite Hv, IH.
  reflexivity.
Qed.

End PhotoHookFacts.

Lemma toggle_photo_twice (photoId : string) (photo : Photo.t) :
  (let once := if String.eqb (Photo.id photo) photoId
               then {| Photo.id := Photo.id photo;
                       Photo.name := Photo.name photo;
                       Photo.dataUrl := Photo.dataUrl photo;
                       Photo.thumbnailUrl := Photo.thumbnailUrl photo;
                       Photo.location := Photo.location photo;
                       Photo.timestamp := Photo.timestamp photo;
                       Photo.visible := negb (Photo.visible photo);
                       Photo.size := Photo.size photo |}
               else photo in
   if String.eqb (Photo.id once) photoId
   then {| Photo.id := Photo.id once;
           Photo.name := Photo.name once;
           Photo.dataUrl := Photo.dataUrl once;
           Photo.thumbnailUrl := Photo.thumbnailUrl once;
           Photo.location := Photo.location once;
           Photo.timestamp := Photo.timestamp once;
           Photo.visible := negb (Photo.visible once);
           Photo.size := Photo.size once |}
   else once) = photo.
Proof.
  cbv zeta. destruct (String.eqb (Photo.id photo) photoId) eqn:E.
  - cbn. rewrite E, negb_involutive. destruct photo; reflexivity.
  - rewrite E. reflexivity.
Qed.

(** X25.  In the photos hook: toggling a photo's visibility twice gives the
    photos back as they were; after [removePhoto] no photo has the given id,
    and the photos shown on the map are those shown before without the ones
    removed; after [clearAllPhotos] none is shown.  None of the three touches
    the processing flag. *)
Theorem photo_hook_updates (photoId : string) (hook : PhotoHook) :
  photos (usePhotos.togglePhotoVisibility photoId
            (usePhotos.togglePhotoVisibility photoId hook))
  = photos hook
  /\ Forall (fun p => Photo.id p <> photoId)
            (photos (usePhotos.removePhoto photoId hook))
  /\ usePhotos.getPhotosWithLocation (usePhotos.removePhoto photoId hook)
     = filter (fun p => negb (String.eqb (Photo.id p) photoId))
              (usePhotos.getPhotosWithLocation hook)
  /\ usePhotos.getPhotosWithLocation (usePhotos.clearAllPhotos hook) = []
  /\ isProcessing (usePhotos.togglePhotoVisibility photoId hook)
     = isProcessing hook
  /\ isProcessing (usePhotos.removePhoto photoId hook) = isProcessing hook
  /\ isProcessing (usePhotos.clearAllPhotos hook) = isProcessing hook.
Proof.
  split; [|split; [|split; [|repeat split]]].
  - unfold usePhotos.togglePhotoVisibility. cbn [photos].
    rewrite map_map. rewrite <- (map_id (photos hook)) at 2.
    apply map_ext. intros photo. apply (toggle_photo_twice photoId photo).
  - unfold usePhotos.removePhoto. cbn [photos].
    apply Forall_forall. intros p Hp. apply filter_In in Hp.
    destruct Hp as [_ Hp].
    destruct (String.eqb_spec (Photo.id p) photoId); [discriminate|assumption].
  - unfold usePhotos.getPhotosWithLocation, usePhotos.removePhoto.
    cbn [photos]. induction (photos hook) as [|p l IH]; [reflexivity|].
    cbn [filter].
    destruct (String.eqb (Photo.id p) photoId) eqn:E;
      destruct (Photo.location p) as [loc|] eqn:El;
      destruct (Photo.visible p) eqn:Ev;
      cbn [negb filter]; rewrite ?E, ?El, ?Ev; cbn [negb];
      rewrite IH; reflexivity.
Qed.

(* ================================================================== *)
(** ** The map view *)

Lemma segmentPoints_nil (segs : list TrackSegment) :
  flat_map (fun segment => map (fun point => (lat point, lon point))
                               (points segment)) segs = []
  <-> existsb (fun s => (0 <? List.length (points s))%nat) segs = false.
Proof.
  induction segs as [|s l IH]; [split; reflexivity|].
  cbn [flat_map existsb]. destruct (points s) as [|p ps].
  - cbn [map app List.length Nat.ltb Nat.leb orb]. exact IH.
  - cbn. split; discriminate.
Qed.

Lemma trackPoints_nil (tracks : list Track) :
  flat_map (fun track =>
              if visible track
              then flat_map (fun segment =>
                               map (fun point => (lat point, lon point))
                                   (points segment))
                            (segments track)
              else [])
           tracks = []
  <-> MapView.hasVisibleTracks tracks = false.
Proof.
  unfold MapView.hasVisibleTracks.
  induction tracks as [|t l IH]; [split; reflexivity|].
  cbn [flat_map existsb]. destruct (visible t); cbn [andb orb app].
  - split.
    + intros H. apply app_eq_nil in H. destruct H as [H1 H2].
      apply segmentPoints_nil in H1. rewrite H1. cbn [orb].
      apply IH. exact H2.
    + intros H. apply orb_false_iff in H. destruct H as [H1 H2].
      apply segmentPoints_nil in H1. rewrite H1. cbn [app].
      apply IH. exact H2.
  - exact IH.
Qed.

Lemma photoPoints_nil (photos : list Photo.t) :
  flat_map (fun photo =>
              match Photo.visible photo, Photo.location photo with
              | true, Some location =>
                  [(PhotoLocation.lat location, PhotoLocation.lon location)]
              | _, _ => []
              end)
           photos = []
  <-> Forall (fun photo => Photo.visible photo = false
                           \/ Photo.location photo = None) photos.
Proof.
  induction photos as [|p l IH]; [split; [constructor|reflexivity]|].
  cbn [flat_map].
  destruct (Photo.visible p) eqn:Ev; [destruct (Photo.location p) eqn:El|].
  - split; [discriminate|]. intros H. inversion H as [|? ? [H1|H1] _].
    + rewrite Ev in H1. discriminate H1.
    + rewrite El in H1. discriminate H1.
  - cbn [app]. split.
    + intros H. constructor; [right; exact El|]. apply IH. exact H.
    + intros H. inversion H. apply IH. assumption.
  - cbn [app]. split.
    + intros H. constructor; [left; exact Ev|]. apply IH. exact H.
    + intros H. inversion H. apply IH. assumption.
Qed.

Lemma find_skips (before after : list Track) (t : Track) :
  Forall (fun u => visible u = false \/ segments u = []) before ->
  visible t = true -> segments t <> [] ->
  find (fun t => visible t && (0 <? List.length (segments t))%nat)
       (before ++ t :: after) = Some t.
Proof.
  intros Hb Hv Hs. induction Hb as [|u l Hu _ IH].
  - cbn [app find]. rewrite Hv. destruct (segments t); [contradiction|].
    reflexivity.
  - cbn [app find]. destruct Hu as [Hu|Hu]; rewrite Hu.
    + cbn [andb]. exact IH.
    + cbn [List.length Nat.ltb Nat.leb]. rewrite andb_false_r. exact IH.
Qed.

Lemma hasVisibleTracks_skips (before after : list Track) (t : Track) :
  Forall (fun u => visible u = false \/ segments u = []) before ->
  MapView.hasVisibleTracks (before ++ t :: after)
  = MapView.hasVisibleTracks (t :: after).
Proof.
  intros Hb. unfold MapView.hasVisibleTracks.
  induction Hb as [|u l Hu _ IH]; [reflexivity|].
  cbn [app existsb]. destruct Hu as [Hu|Hu]; rewrite Hu.
  - cbn [andb orb]. exact IH.
  - cbn [existsb]. rewrite andb_false_r. cbn [orb]. exact IH.
Qed.

(** X26.  The map's initial centre is the first point of the first segment of
    the first track that is visible and has a segment, when that segment has
    a point; when it has none, the centre stays the default one
    [51.505, -0.09], whatever the other segments and tracks hold. *)
Theorem initialCenter_first_visible (before after : list Track) (t : Track)
  (seg : TrackSegment) (segs : list TrackSegment) :
  Forall (fun u => visible u = false \/ segments u = []) before ->
  visible t = true ->
  segments t = seg :: segs ->
  MapView.initialCenter (before ++ t :: after)
  = match points seg with
    | firstPoint :: _ => (lat firstPoint, lon firstPoint)
    | [] => MapView.defaultCenter
    end.
Proof.
  intros Hb Hv Hs. unfold MapView.initialCenter.
  rewrite (find_skips before after t Hb Hv) by (rewrite Hs; discriminate).
  rewrite Hs. destruct (points seg) as [|p ps] eqn:Ep.
  - destruct (MapView.hasVisibleTracks _); reflexivity.
  - rewrite (hasVisibleTracks_skips before after t Hb).
    unfold MapView.hasVisibleTracks. cbn [existsb].
    rewrite Hv, Hs. cbn [existsb]. rewrite Ep. reflexivity.
Qed.

Lemma initialCenter_first_visible_witness :
  MapView.initialCenter ([] ++ emptyRouteTrack :: [ridgeTrack])
  = MapView.defaultCenter
  /\ MapView.hasVisibleTracks ([] ++ emptyRouteTrack :: [ridgeTrack]) = true.
Proof.
  split.
  - exact (initialCenter_first_visible [] [ridgeTrack] emptyRouteTrack
             {| points := [] |} [] (Forall_nil _) eq_refl eq_refl).
  - reflexivity.
Defined.

(** X27.  [MapBoundsUpdater] has no point to fit, and leaves the map's view
    alone, exactly when no visible track has a segment with a point and every
    photo is hidden or has no location.  With no track of that kind the
    initial centre is the default one. *)
Theorem bounds_empty_iff (tracks : list Track) (photos : list Photo.t) :
  (MapView.boundsPoints tracks photos = []
   <-> MapView.hasVisibleTracks tracks = false
       /\ Forall (fun photo => Photo.visible photo = false
                               \/ Photo.location photo = None) photos)
  /\ (MapView.boundsPoints tracks photos = [] ->
      MapView.initialCenter tracks = MapView.defaultCenter).
Proof.
  assert (Hiff : MapView.boundsPoints tracks photos = []
                 <-> MapView.hasVisibleTracks tracks = false
                     /\ Forall (fun photo => Photo.visible photo = false
                                 \/ Photo.location photo = None) photos).
  { unfold MapView.boundsPoints. split.
    - intros H. apply app_eq_nil in H. destruct H as [H1 H2].
      split; [apply trackPoints_nil; exact H1|apply photoPoints_nil; exact H2].
    - intros [H1 H2]. apply trackPoints_nil in H1. apply photoPoints_nil in H2.
      rewrite H1, H2. reflexivity. }
  split; [exact Hiff|].
  intros H. apply Hiff in H. destruct H as [H _].
  unfold MapView.initialCenter. rewrite H. reflexivity.
Qed.
